(** * Versioned state engine: a shallow embedding of
      [src/core/version-control.ts], of the schema functions and triggers it
      relies on ([database/schema.sql]) and of the commit route
      ([dist/api/routes.js]).

    The Supabase tables are lists of rows; every engine method is a
    computation in a small state-and-error monad over the three core tables.
    The store is reliable: a request only fails on a key constraint of the
    schema (primary key, UNIQUE, foreign key) or inside a schema function.
    Column-domain checks (VARCHAR lengths, UUID syntax, NOT NULL on a JSON
    null) are outside the model.  Row ids of [business_state] and
    [context_changes] and the [metadata] columns, which nothing in the
    repository writes, are not stored: where the engine can reach them
    (through a row that has become a prototype) they count as what the
    column defaults make them, a non-empty text and the object [{}].

    The records the engine builds with [{}] and [object[name] = value] are
    JavaScript objects, not finite maps: they inherit the members of
    [Object.prototype], an assignment to [__proto__] replaces the prototype
    instead of adding a property, and [Object.entries] lists index-like keys
    first. *)

From Stdlib Require Import ZArith String Ascii List Bool Lia.
From stdpp Require Import base option list strings gmap fin_maps.

Set Warnings "-register-all".
Local Open Scope string_scope.
Local Open Scope list_scope.

(* ===================================================================== *)
(** ** JSON values ([field_value: any], stored as JSONB) *)
(* ===================================================================== *)

(** Numbers are integer valued; an object has one entry per key, as JSONB
    stores it. *)
Inductive Json : Type :=
| JNull
| JBool (b : bool)
| JNum (n : Z)
| JStr (s : string)
| JArr (items : list Json)
| JObj (entries : list (string * Json)).

(** JavaScript truthiness of a JSON value, as [||] and [?:] test it. *)
Definition truthy (v : Json) : bool :=
  match v with
  | JNull => false
  | JBool b => b
  | JNum n => negb (Z.eqb n 0)
  | JStr s => negb (String.eqb s "")
  | JArr _ | JObj _ => true
  end.

(* ===================================================================== *)
(** ** Row types ([src/types]) *)
(* ===================================================================== *)

Inductive FieldType := FT_text | FT_number | FT_json | FT_array | FT_boolean | FT_date.
Inductive Source := manual | api_twitter | api_crm | api_webhook | claude_chat.
Inductive ChangeType := CT_create | CT_update | CT_delete.
(** The [change_type] strings of [calculate_version_diff]. *)
Inductive DiffType := added | removed | modified | unchanged.

Record ContextVersion := {
  cv_id : string;
  cv_user_id : string;
  cv_version_hash : string;
  cv_commit_message : string;
  cv_created_at : Z;
  cv_is_current : bool;
  cv_parent_version_id : option string;
  cv_author : string;
  cv_tags : list string
}.

Record BusinessStateField := {
  bs_version_id : string;
  bs_field_name : string;
  bs_field_value : Json;
  bs_field_type : FieldType;
  bs_source : Source;
  bs_updated_at : Z
}.

Record ContextChange := {
  cc_version_id : string;
  cc_field_name : string;
  cc_old_value : Json;
  cc_new_value : Json;
  cc_change_type : ChangeType;
  cc_source : Source;
  cc_created_at : Z
}.

Record FieldUpdate := {
  fu_field_name : string;
  fu_field_value : Json;
  fu_field_type : FieldType;
  fu_source : Source
}.

Record CommitRequest := {
  cr_user_id : string;
  cr_commit_message : string;
  cr_changes : list FieldUpdate;
  cr_tags : option (list string);
  cr_author : option string
}.

Record RollbackRequest := {
  rr_user_id : string;
  rr_version_id : string;
  rr_reason : option string
}.

(** One row of a version diff. *)
Record DiffRow := {
  d_field_name : string;
  d_old_value : option Json;
  d_new_value : option Json;
  d_change_type : DiffType
}.

Record ContextDiff := {
  version_from : string;
  version_to : string;
  changes : list DiffRow;
  diff_timestamp : Z
}.

(** [BusinessState.fields] entries. *)
Record StateEntry := {
  se_value : Json;
  se_type : FieldType;
  se_source : Source;
  se_updated_at : Z
}.

Record BusinessState := {
  st_version_id : string;
  st_version_hash : string;
  st_commit_message : string;
  st_created_at : Z;
  st_fields : gmap string StateEntry
}.

#[global] Instance FieldType_eq_dec : EqDecision FieldType.
Proof. solve_decision. Defined.
#[global] Instance Source_eq_dec : EqDecision Source.
Proof. solve_decision. Defined.
#[global] Instance ChangeType_eq_dec : EqDecision ChangeType.
Proof. solve_decision. Defined.
#[global] Instance DiffType_eq_dec : EqDecision DiffType.
Proof. solve_decision. Defined.

(* ===================================================================== *)
(** ** The store: the three core tables and the PostgREST responses *)
(* ===================================================================== *)

Record Store := {
  context_versions : list ContextVersion;
  business_state : list BusinessStateField;
  context_changes : list ContextChange
}.

Definition empty_store : Store :=
  {| context_versions := []; business_state := []; context_changes := [] |}.

Record PostgrestError := { code : string; message : string }.

Record Response (A : Type) := { data : option A; error : option PostgrestError }.
Arguments data {A} _.
Arguments error {A} _.

(** [.single()]: exactly one row is returned as [data]; zero rows and more
    than one row are both answered with the error code PGRST116. *)
Definition single {A : Type} (rows : list A) : Response A :=
  match rows with
  | [r] => {| data := Some r; error := None |}
  | _ => {| data := None;
            error := Some {| code := "PGRST116";
                             message := "JSON object requested, multiple (or no) rows returned" |} |}
  end.

(** Thrown JavaScript [Error]s, by message. *)
Inductive Exn := Error (msg : string).

(** Engine computations: the store is threaded through, also when the
    computation throws (rows written before the throw stay written). *)
Definition M (A : Type) : Type := Store -> Store * (Exn + A).

Definition ret {A} (a : A) : M A := fun s => (s, inr a).
Definition throw {A} (e : Exn) : M A := fun s => (s, inl e).
Definition bind {A B} (m : M A) (k : A -> M B) : M B :=
  fun s => match m s with
           | (s', inr a) => k a s'
           | (s', inl e) => (s', inl e)
           end.
Definition get_store : M Store := fun s => (s, inr s).
Definition put_store (s' : Store) : M unit := fun _ => (s', inr tt).

Declare Scope engine_scope.
Delimit Scope engine_scope with engine.
Notation "x <- m ;; k" := (bind m (fun x => k))
  (at level 100, m at next level, right associativity) : engine_scope.
Notation "m ;;; k" := (bind m (fun _ => k))
  (at level 100, right associativity) : engine_scope.
Local Open Scope engine_scope.

(** JavaScript [a || b] on an optional string: [undefined] and the empty
    string are falsy. *)
Definition or_string (a : option string) (b : string) : string :=
  match a with
  | Some s => if String.eqb s "" then b else s
  | None => b
  end.

(** A double quote, and a name between double quotes as PostgreSQL writes
    it in its messages. *)
Definition double_quote : string := String "034"%char EmptyString.
Definition quoted (name : string) : string := double_quote ++ name ++ double_quote.

(* ===================================================================== *)
(** ** Sorting *)
(* ===================================================================== *)

(** A stable insertion sort; [before x y] says that the order does not put
    [x] after [y].  It stands for [Array.prototype.sort] with a consistent
    comparator, where every conforming sort gives this result; with an
    inconsistent comparator the order is implementation-defined and this is
    one of the permitted outcomes. *)
Fixpoint insert_sorted {A} (before : A → A → bool) (x : A) (sorted : list A) : list A :=
  match sorted with
  | [] => [x]
  | y :: rest =>
      if before x y then x :: sorted else y :: insert_sorted before x rest
  end.

Definition js_sort {A} (before : A → A → bool) (l : list A) : list A :=
  fold_right (insert_sorted before) [] l.

(* ===================================================================== *)
(** ** Plain JavaScript objects used as records *)
(* ===================================================================== *)

(** An object made by [{}] and filled by assignments [object[name] =
    value]: its own properties in the order in which they were created, and
    its prototype when an assignment to [__proto__] has put a value in the
    place of [Object.prototype]. *)
Record JsObject (A : Type) := {
  js_own : list (string * A);
  js_proto : option A
}.
Arguments js_own {A} _.
Arguments js_proto {A} _.

Definition empty_object {A} : JsObject A := {| js_own := []; js_proto := None |}.

Definition get_own {A} (name : string) (props : list (string * A)) : option A :=
  snd <$> List.find (fun kv => String.eqb (fst kv) name) props.

(** An existing own property keeps its place; a new one goes last. *)
Fixpoint set_own {A} (name : string) (value : A) (props : list (string * A))
    : list (string * A) :=
  match props with
  | [] => [(name, value)]
  | (k, v) :: rest =>
      if String.eqb k name then (k, value) :: rest else (k, v) :: set_own name value rest
  end.

(** [object[name] = value].  [__proto__] is an accessor of
    [Object.prototype]: its setter replaces the prototype when the value is
    an object, does nothing when it is a primitive, and never creates an own
    property.  Every other name becomes an own property (the members of
    [Object.prototype] are writable, so they are shadowed). *)
Definition assign {A} (is_object : A → bool) (name : string) (value : A)
    (object : JsObject A) : JsObject A :=
  if String.eqb name "__proto__" then
    if is_object value then {| js_own := js_own object; js_proto := Some value |}
    else object
  else {| js_own := set_own name value (js_own object); js_proto := js_proto object |}.

(** The function-valued members every object inherits from
    [Object.prototype]. *)
Definition object_prototype_functions : list string :=
  ["constructor"; "hasOwnProperty"; "isPrototypeOf"; "propertyIsEnumerable";
   "toLocaleString"; "toString"; "valueOf";
   "__defineGetter__"; "__defineSetter__"; "__lookupGetter__"; "__lookupSetter__"].

Definition is_prototype_function (name : string) : bool :=
  existsb (String.eqb name) object_prototype_functions.

(** Array indices among property names: the canonical decimal form of an
    integer below [2^32 - 1]. *)
Definition digit_value (c : ascii) : option Z :=
  let n := Z.of_N (N_of_ascii c) in
  if ((48 <=? n) && (n <=? 57))%Z then Some (n - 48)%Z else None.

Fixpoint decimal (acc : Z) (digits : string) : option Z :=
  match digits with
  | EmptyString => Some acc
  | String c rest =>
      match digit_value c with
      | Some d => decimal (10 * acc + d)%Z rest
      | None => None
      end
  end.

Definition array_index (name : string) : option Z :=
  match name with
  | EmptyString => None
  | String c rest =>
      if Ascii.eqb c "0" && negb (String.eqb rest EmptyString) then None
      else match decimal 0 name with
           | Some n => if (n <? 2 ^ 32 - 1)%Z then Some n else None
           | None => None
           end
  end.

Definition is_index {A} (kv : string * A) : bool :=
  match array_index (fst kv) with Some _ => true | None => false end.

Definition index_before {A} (a b : string * A) : bool :=
  (default 0 (array_index (fst a)) <=? default 0 (array_index (fst b)))%Z.

(** [Object.entries(object)]: the own properties, array indices first in
    ascending order, then the other names in order of creation. *)
Definition object_entries {A} (object : JsObject A) : list (string * A) :=
  js_sort index_before (List.filter is_index (js_own object))
  ++ List.filter (fun kv => negb (is_index kv)) (js_own object).

(** [Object.values(object)]. *)
Definition object_values {A} (object : JsObject A) : list A :=
  List.map snd (object_entries object).

(* ===================================================================== *)
(** ** Reads *)
(* ===================================================================== *)

Definition is_current_of (userId : string) (v : ContextVersion) : bool :=
  String.eqb (cv_user_id v) userId && cv_is_current v.

(** [if (error && error.code !== 'PGRST116') throw new Error(prefix + error.message)]. *)
Definition throw_unless_no_rows (prefix : string) (e : option PostgrestError) : M unit :=
  match e with
  | Some e =>
      if negb (String.eqb (code e) "PGRST116")
      then throw (Error (prefix ++ message e))
      else ret tt
  | None => ret tt
  end.

(** [getCurrentVersion]: the rows with [user_id = userId] and
    [is_current = true], through [.single()].  Only an error whose code is
    not PGRST116 is thrown; otherwise [data] is returned as it is. *)
Definition getCurrentVersion (userId : string) : M (option ContextVersion) :=
  s <- get_store ;;
  let r := single (List.filter (is_current_of userId) (context_versions s)) in
  throw_unless_no_rows "Failed to get current version: " (error r) ;;;
  ret (data r).

(** [select * from business_state where version_id = versionId]. *)
Definition fields_of (versionId : string) (s : Store) : list BusinessStateField :=
  List.filter (fun f => String.eqb (bs_version_id f) versionId) (business_state s).

(** [getVersionState]: [state[field.field_name] = field] for each row of
    the version, on a fresh [{}].  A row is an object, so a row whose name
    is [__proto__] becomes the prototype of the state. *)
Definition put_field (state : JsObject BusinessStateField) (field : BusinessStateField)
    : JsObject BusinessStateField :=
  assign (fun _ => true) (bs_field_name field) field state.

Definition index_fields (rows : list BusinessStateField) : JsObject BusinessStateField :=
  fold_left put_field rows empty_object.

Definition getVersionState (versionId : string) : M (JsObject BusinessStateField) :=
  s <- get_store ;;
  ret (index_fields (fields_of versionId s)).

(** What [state[name]] can evaluate to. *)
Inductive JsValue :=
| V_undefined
| V_row (row : BusinessStateField)
| V_json (value : Json)
| V_text (text : string)
| V_other.

(** [row[name]] on a row as [select('*')] returns it.  [V_other] stands for
    a truthy value without a member [field_value]: here the row's id, type,
    source and time, all non-empty texts, and its [metadata], [{}]. *)
Definition column_of (row : BusinessStateField) (name : string) : option JsValue :=
  if String.eqb name "version_id" then Some (V_text (bs_version_id row))
  else if String.eqb name "field_name" then Some (V_text (bs_field_name row))
  else if String.eqb name "field_value" then Some (V_json (bs_field_value row))
  else if existsb (String.eqb name) ["id"; "field_type"; "source"; "updated_at"; "metadata"]
  then Some V_other
  else None.

(** A name that is no own property, looked up along the prototype chain:
    the prototype row when there is one, then [Object.prototype], whose
    functions are further instances of [V_other]. *)
Definition inherited (prototype : option BusinessStateField) (name : string) : JsValue :=
  match prototype ≫= (fun row => column_of row name) with
  | Some value => value
  | None => if is_prototype_function name then V_other else V_undefined
  end.

(** [state[name]].  Reading [__proto__] gives the prototype: the row that
    was assigned to it, or [Object.prototype]. *)
Definition get_property (state : JsObject BusinessStateField) (name : string) : JsValue :=
  match get_own name (js_own state) with
  | Some row => V_row row
  | None =>
      if String.eqb name "__proto__" then
        match js_proto state with
        | Some row => V_row row
        | None => V_other
        end
      else inherited (js_proto state) name
  end.

(** [getVersionById]: no owner filter. *)
Definition getVersionById (versionId : string) : M (option ContextVersion) :=
  s <- get_store ;;
  let r := single (List.filter (fun v => String.eqb (cv_id v) versionId) (context_versions s)) in
  throw_unless_no_rows "Failed to get version: " (error r) ;;;
  ret (data r).

(* ===================================================================== *)
(** ** Runtime functions behind [generateVersionHash] *)
(* ===================================================================== *)

(** [crypto.createHash('sha1').update(content).digest('hex')]: SHA-1 over
    the bytes of the string, on 32-bit words kept in [Z]. *)
Module Sha1.

Definition mask32 (x : Z) : Z := Z.land x 0xFFFFFFFF.
Definition add32 (x y : Z) : Z := mask32 (x + y).
Definition rotl (n x : Z) : Z :=
  mask32 (Z.lor (Z.shiftl x n) (Z.shiftr x (32 - n))).

Definition bytes_of_string (s : string) : list Z :=
  List.map (fun c => Z.of_N (N_of_ascii c)) (list_ascii_of_string s).

(** Big-endian bytes of [x], [n] of them. *)
Fixpoint be_bytes (n : nat) (x : Z) : list Z :=
  match n with
  | O => []
  | S n' => Z.land (Z.shiftr x (8 * Z.of_nat n')) 0xFF :: be_bytes n' x
  end.

(** Padding: the bit 1, zeros up to 56 mod 64, the bit length on 64 bits. *)
Definition pad (msg : list Z) : list Z :=
  let len := Z.of_nat (length msg) in
  let zeros := Z.to_nat ((55 - len) mod 64) in
  msg ++ [0x80%Z] ++ List.repeat 0%Z zeros ++ be_bytes 8 (8 * len).

Fixpoint words (fuel : nat) (bs : list Z) : list Z :=
  match fuel, bs with
  | S fuel', b0 :: b1 :: b2 :: b3 :: rest =>
      (Z.shiftl b0 24 + Z.shiftl b1 16 + Z.shiftl b2 8 + b3)%Z :: words fuel' rest
  | _, _ => []
  end.

(** Message schedule; [w] holds the words computed so far, newest first. *)
Fixpoint schedule (n : nat) (w : list Z) : list Z :=
  match n with
  | O => w
  | S n' =>
      let x := Z.lxor (Z.lxor (nth 2 w 0%Z) (nth 7 w 0%Z))
                      (Z.lxor (nth 13 w 0%Z) (nth 15 w 0%Z)) in
      schedule n' (rotl 1 x :: w)
  end.

Definition round_f (t : nat) (b c d : Z) : Z :=
  if (t <? 20)%nat then Z.lor (Z.land b c) (Z.land (mask32 (Z.lnot b)) d)
  else if (t <? 40)%nat then Z.lxor (Z.lxor b c) d
  else if (t <? 60)%nat then Z.lor (Z.lor (Z.land b c) (Z.land b d)) (Z.land c d)
  else Z.lxor (Z.lxor b c) d.

Definition round_k (t : nat) : Z :=
  if (t <? 20)%nat then 0x5A827999
  else if (t <? 40)%nat then 0x6ED9EBA1
  else if (t <? 60)%nat then 0x8F1BBCDC
  else 0xCA62C1D6.

Definition H5 : Type := (Z * Z * Z * Z * Z)%type.

Definition round (st : H5) (tw : nat * Z) : H5 :=
  let '(a, b, c, d, e) := st in
  let '(t, w) := tw in
  let temp := add32 (add32 (add32 (add32 (rotl 5 a) (round_f t b c d)) e) (round_k t)) w in
  (temp, a, rotl 30 b, c, d).

Definition block (h : H5) (w16 : list Z) : H5 :=
  let w := rev (schedule 64 (rev w16)) in
  let '(a, b, c, d, e) := fold_left round (combine (seq 0 80) w) h in
  let '(h0, h1, h2, h3, h4) := h in
  (add32 h0 a, add32 h1 b, add32 h2 c, add32 h3 d, add32 h4 e).

Fixpoint blocks (fuel : nat) (h : H5) (ws : list Z) : H5 :=
  match fuel, ws with
  | S fuel', _ :: _ => blocks fuel' (block h (firstn 16 ws)) (skipn 16 ws)
  | _, _ => h
  end.

Definition init : H5 :=
  (0x67452301, 0xEFCDAB89, 0x98BADCFE, 0x10325476, 0xC3D2E1F0)%Z.

Definition hex_digit (x : Z) : ascii :=
  nth (Z.to_nat x) (list_ascii_of_string "0123456789abcdef") "0"%char.

Fixpoint hex (n : nat) (x : Z) : string :=
  match n with
  | O => ""
  | S n' => String (hex_digit (Z.land (Z.shiftr x (4 * Z.of_nat n')) 0xF)) (hex n' x)
  end.

Definition digest_hex (content : string) : string :=
  let bs := pad (bytes_of_string content) in
  let ws := words (length bs) bs in
  let '(h0, h1, h2, h3, h4) := blocks (length ws) init ws in
  hex 8 h0 ++ hex 8 h1 ++ hex 8 h2 ++ hex 8 h3 ++ hex 8 h4.

End Sha1.

(** [Date.prototype.toISOString] on a time value in milliseconds since the
    epoch (proleptic Gregorian calendar, UTC). *)
Module IsoDate.

Definition digit (x : Z) : ascii := ascii_of_N (Z.to_N (48 + x mod 10)).

(** [x] in decimal on [n] digits, zero padded. *)
Fixpoint dec (n : nat) (x : Z) : string :=
  match n with
  | O => ""
  | S n' => String (digit (x / 10 ^ Z.of_nat n')) (dec n' x)
  end.

(** Year, month, day of a day count since 1970-01-01. *)
Definition civil (days : Z) : Z * Z * Z :=
  let z := (days + 719468)%Z in
  let era := (z / 146097)%Z in
  let doe := (z - era * 146097)%Z in
  let yoe := ((doe - doe / 1460 + doe / 36524 - doe / 146096) / 365)%Z in
  let doy := (doe - (365 * yoe + yoe / 4 - yoe / 100))%Z in
  let mp := ((5 * doy + 2) / 153)%Z in
  let d := (doy - (153 * mp + 2) / 5 + 1)%Z in
  let m := (if mp <? 10 then mp + 3 else mp - 9)%Z in
  let y := (yoe + era * 400 + (if m <=? 2 then 1 else 0))%Z in
  (y, m, d).

Definition year (y : Z) : string :=
  if ((0 <=? y) && (y <=? 9999))%Z then dec 4 y
  else if (y <? 0)%Z then "-" ++ dec 6 (- y)
  else "+" ++ dec 6 y.

Definition toISOString (ms : Z) : string :=
  let days := (ms / 86400000)%Z in
  let rest := (ms mod 86400000)%Z in
  let '(y, m, d) := civil days in
  year y ++ "-" ++ dec 2 m ++ "-" ++ dec 2 d ++ "T"
  ++ dec 2 (rest / 3600000) ++ ":" ++ dec 2 (rest / 60000 mod 60) ++ ":"
  ++ dec 2 (rest / 1000 mod 60) ++ "." ++ dec 3 (rest mod 1000) ++ "Z".

End IsoDate.

(** [generateVersionHash]: the hashed content is the owner, the message, the
    ISO form of the client timestamp and the text of a [Math.random()] draw,
    concatenated with no separator. *)
Definition hash_content (userId commitMessage : string) (timestamp : Z)
    (random : string) : string :=
  userId ++ commitMessage ++ IsoDate.toISOString timestamp ++ random.

Definition generateVersionHash (userId commitMessage : string) (timestamp : Z)
    (random : string) : string :=
  Sha1.digest_hex (hash_content userId commitMessage timestamp random).

(* ===================================================================== *)
(** ** Writes: inserts under the schema's key constraints *)
(* ===================================================================== *)

(** What the surroundings supply to one [commit]: the client clock
    ([new Date()]), the text of the [Math.random()] draw, and the column
    defaults the database fills in ([uuid_generate_v4()], [NOW()]). *)
Record Env := {
  js_now : Z;
  js_random : string;
  db_uuid : string;
  db_now : Z
}.

Definition ok {A} (a : A) : Response A := {| data := Some a; error := None |}.
Definition failed {A} (c m : string) : Response A :=
  {| data := None; error := Some {| code := c; message := m |} |}.

Definition set_is_current (b : bool) (v : ContextVersion) : ContextVersion :=
  {| cv_id := cv_id v; cv_user_id := cv_user_id v;
     cv_version_hash := cv_version_hash v;
     cv_commit_message := cv_commit_message v;
     cv_created_at := cv_created_at v; cv_is_current := b;
     cv_parent_version_id := cv_parent_version_id v;
     cv_author := cv_author v; cv_tags := cv_tags v |}.

(** Trigger [trigger_single_current_version] (BEFORE INSERT, WHEN
    [NEW.is_current = true]) running [enforce_single_current_version]:
    every other current row of the same owner is cleared. *)
Definition enforce_single_current_version (new : ContextVersion)
    (rows : list ContextVersion) : list ContextVersion :=
  if cv_is_current new then
    List.map (fun v =>
      if String.eqb (cv_user_id v) (cv_user_id new)
         && negb (String.eqb (cv_id v) (cv_id new))
         && cv_is_current v
      then set_is_current false v else v) rows
  else rows.

Definition has_version (versionId : string) (rows : list ContextVersion) : bool :=
  existsb (fun v => String.eqb (cv_id v) versionId) rows.

Definition has_hash (h : string) (rows : list ContextVersion) : bool :=
  existsb (fun v => String.eqb (cv_version_hash v) h) rows.

(** [from('context_versions').insert(row).select().single()]: rejected on
    the primary key, on [version_hash UNIQUE] and on the parent reference;
    a rejected statement leaves the table as it was (trigger included). *)
Definition insert_context_versions (new : ContextVersion) : M (Response ContextVersion) :=
  s <- get_store ;;
  if has_version (cv_id new) (context_versions s) then
    ret (failed "23505" ("duplicate key value violates unique constraint "
                         ++ quoted "context_versions_pkey"))
  else if has_hash (cv_version_hash new) (context_versions s) then
    ret (failed "23505" ("duplicate key value violates unique constraint "
                         ++ quoted "context_versions_version_hash_key"))
  else if match cv_parent_version_id new with
          | Some p => negb (has_version p (context_versions s))
          | None => false
          end then
    ret (failed "23503" ("insert or update on table " ++ quoted "context_versions"
                         ++ " violates foreign key constraint "
                         ++ quoted "context_versions_parent_version_id_fkey"))
  else
    put_store {| context_versions :=
                   enforce_single_current_version new (context_versions s) ++ [new];
                 business_state := business_state s;
                 context_changes := context_changes s |} ;;;
    ret (ok new).

Definition field_key (f : BusinessStateField) : string * string :=
  (bs_version_id f, bs_field_name f).

(** [from('business_state').insert(rows)]: one statement, all rows or
    none; rejected on the version reference and on
    [unique_field_per_version]. *)
Definition insert_business_state (rows : list BusinessStateField) : M (Response unit) :=
  s <- get_store ;;
  if negb (forallb (fun f => has_version (bs_version_id f) (context_versions s)) rows) then
    ret (failed "23503" ("insert or update on table " ++ quoted "business_state"
                         ++ " violates foreign key constraint "
                         ++ quoted "business_state_version_id_fkey"))
  else if negb (bool_decide (NoDup (List.map field_key (business_state s ++ rows)))) then
    ret (failed "23505" ("duplicate key value violates unique constraint "
                         ++ quoted "unique_field_per_version"))
  else
    put_store {| context_versions := context_versions s;
                 business_state := business_state s ++ rows;
                 context_changes := context_changes s |} ;;;
    ret (ok tt).

(** [from('context_changes').insert(rows)]. *)
Definition insert_context_changes (rows : list ContextChange) : M (Response unit) :=
  s <- get_store ;;
  if negb (forallb (fun c => has_version (cc_version_id c) (context_versions s)) rows) then
    ret (failed "23503" ("insert or update on table " ++ quoted "context_changes"
                         ++ " violates foreign key constraint "
                         ++ quoted "context_changes_version_id_fkey"))
  else
    put_store {| context_versions := context_versions s;
                 business_state := business_state s;
                 context_changes := context_changes s ++ rows |} ;;;
    ret (ok tt).

(* ===================================================================== *)
(** ** commit *)
(* ===================================================================== *)

(** Step 5, first half: one field row per update, stamped with the client
    timestamp. *)
Definition state_record (versionId : string) (timestamp : Z) (change : FieldUpdate)
    : BusinessStateField :=
  {| bs_version_id := versionId;
     bs_field_name := fu_field_name change;
     bs_field_value := fu_field_value change;
     bs_field_type := fu_field_type change;
     bs_source := fu_source change;
     bs_updated_at := timestamp |}.

(** Step 5, second half: a parent row copied under the new version id. *)
Definition copy_field (versionId : string) (field : BusinessStateField)
    : BusinessStateField :=
  {| bs_version_id := versionId;
     bs_field_name := bs_field_name field;
     bs_field_value := bs_field_value field;
     bs_field_type := bs_field_type field;
     bs_source := bs_source field;
     bs_updated_at := bs_updated_at field |}.

Definition unchanged_fields (versionId : string) (changes : list FieldUpdate)
    (previousFields : list BusinessStateField) : list BusinessStateField :=
  let changedFieldNames : gset string := list_to_set (List.map fu_field_name changes) in
  List.map (copy_field versionId)
    (List.filter (fun field => negb (bool_decide (bs_field_name field ∈ changedFieldNames)))
       previousFields).

(** JavaScript truthiness of what [previousState[name]] gives. *)
Definition truthy_value (v : JsValue) : bool :=
  match v with
  | V_undefined => false
  | V_row _ => true
  | V_json value => truthy value
  | V_text text => negb (String.eqb text EmptyString)
  | V_other => true
  end.

(** [v?.field_value]; [None] is [undefined]. *)
Definition member_field_value (v : JsValue) : option Json :=
  match v with
  | V_row row => Some (bs_field_value row)
  | V_json (JObj entries) => get_own "field_value" entries
  | _ => None
  end.

(** [x || null]. *)
Definition or_null (x : option Json) : Json :=
  match x with
  | Some value => if truthy value then value else JNull
  | None => JNull
  end.

(** Step 6: [previousState[name]?.field_value || null] and
    [previousState[name] ? 'update' : 'create']. *)
Definition change_record (versionId : string) (timestamp : Z)
    (previousState : JsObject BusinessStateField) (change : FieldUpdate)
    : ContextChange :=
  {| cc_version_id := versionId;
     cc_field_name := fu_field_name change;
     cc_old_value :=
       or_null (member_field_value (get_property previousState (fu_field_name change)));
     cc_new_value := fu_field_value change;
     cc_change_type :=
       if truthy_value (get_property previousState (fu_field_name change))
       then CT_update else CT_create;
     cc_source := fu_source change;
     cc_created_at := timestamp |}.

(** [commit], for the engine built for [userId].  The current version is
    looked up for the engine's owner; the new row carries the request's
    [user_id]. *)
Definition commit (userId : string) (env : Env) (request : CommitRequest)
    : M ContextVersion :=
  currentVersion <- getCurrentVersion userId ;;
  let timestamp := js_now env in
  let versionHash :=
    generateVersionHash (cr_user_id request) (cr_commit_message request)
      timestamp (js_random env) in
  inserted <- insert_context_versions
    {| cv_id := db_uuid env;
       cv_user_id := cr_user_id request;
       cv_version_hash := versionHash;
       cv_commit_message := cr_commit_message request;
       cv_created_at := db_now env;
       cv_is_current := true;
       cv_parent_version_id := cv_id <$> currentVersion;
       cv_author := or_string (cr_author request) "system";
       cv_tags := default [] (cr_tags request) |} ;;
  match error inserted, data inserted with
  | Some e, _ => throw (Error ("Failed to create version: " ++ message e))
  | None, None => throw (Error "Cannot read properties of null (reading 'id')")
  | None, Some newVersion =>
      previousState <-
        match currentVersion with
        | Some cv => getVersionState (cv_id cv)
        | None => ret empty_object
        end ;;
      let stateRecords :=
        List.map (state_record (cv_id newVersion) timestamp) (cr_changes request) in
      stateRecords <-
        match currentVersion with
        | Some cv =>
            s <- get_store ;;
            let previousFields := fields_of (cv_id cv) s in
            ret (stateRecords
                 ++ unchanged_fields (cv_id newVersion) (cr_changes request) previousFields)
        | None => ret stateRecords
        end ;;
      stateResult <- insert_business_state stateRecords ;;
      match error stateResult with
      | Some e => throw (Error ("Failed to insert state: " ++ message e))
      | None =>
          let changeRecords :=
            List.map (change_record (cv_id newVersion) timestamp previousState)
              (cr_changes request) in
          (if (0 <? length changeRecords)%nat then
             changesResult <- insert_context_changes changeRecords ;;
             match error changesResult with
             | Some e => throw (Error ("Failed to log changes: " ++ message e))
             | None => ret tt
             end
           else ret tt) ;;;
          ret newVersion
      end
  end.

(* ===================================================================== *)
(** ** The commit route, [POST /api/context/commit] *)
(* ===================================================================== *)

(** The parsed JSON body; any member may be missing. *)
Record CommitBody := {
  body_user_id : option string;
  body_commit_message : option string;
  body_changes : option (list FieldUpdate);
  body_tags : option (list string);
  body_author : option string
}.

Record VersionSummary := {
  vs_id : string;
  vs_hash : string;
  vs_message : string;
  vs_created_at : Z
}.

Inductive HttpResponse :=
| Http201 (version : VersionSummary)
| Http400 (err : string)
| Http500 (err details : string).

(** [!x] on an optional string. *)
Definition missing (x : option string) : bool :=
  match x with Some s => String.eqb s "" | None => true end.

Definition post_commit (env : Env) (body : CommitBody) (s : Store) : Store * HttpResponse :=
  match body_changes body with
  | Some changes =>
      if missing (body_user_id body) || missing (body_commit_message body)
      then (s, Http400 "Missing required fields")
      else
        let request :=
          {| cr_user_id := default "" (body_user_id body);
             cr_commit_message := default "" (body_commit_message body);
             cr_changes := changes;
             cr_tags := body_tags body;
             cr_author := body_author body |} in
        match commit (cr_user_id request) env request s with
        | (s', inr version) =>
            (s', Http201 {| vs_id := cv_id version;
                            vs_hash := cv_version_hash version;
                            vs_message := cv_commit_message version;
                            vs_created_at := cv_created_at version |})
        | (s', inl (Error msg)) => (s', Http500 "Failed to create commit" msg)
        end
  | None => (s, Http400 "Missing required fields")
  end.

(* ===================================================================== *)
(** ** rollback *)
(* ===================================================================== *)

Definition rollback_change (field : BusinessStateField) : FieldUpdate :=
  {| fu_field_name := bs_field_name field;
     fu_field_value := bs_field_value field;
     fu_field_type := bs_field_type field;
     fu_source := manual |}.

Definition rollback (userId : string) (env : Env) (request : RollbackRequest)
    : M ContextVersion :=
  targetVersion <- getVersionById (rr_version_id request) ;;
  match targetVersion with
  | None => throw (Error ("Version " ++ rr_version_id request ++ " not found"))
  | Some targetVersion =>
      targetState <- getVersionState (rr_version_id request) ;;
      let changes := List.map rollback_change (object_values targetState) in
      let rollbackMessage : string :=
        ("Rollback to " ++ substring 0 7 (cv_version_hash targetVersion) ++ ": "
         ++ or_string (rr_reason request) (cv_commit_message targetVersion))%string in
      commit userId env
        {| cr_user_id := rr_user_id request;
           cr_commit_message := rollbackMessage;
           cr_changes := changes;
           cr_tags := Some ["rollback"];
           cr_author := Some "system" |}
  end.

(* ===================================================================== *)
(** ** getStateAtTime *)
(* ===================================================================== *)

(** [.order('created_at', { ascending: false })], as an insertion sort.
    The database leaves the order of rows of equal [created_at] open, query
    by query; here they come out with the later table row first.  What is
    stated about the order of a result either holds for every such choice
    or assumes distinct creation times, under which there is one order
    ([newest_first_unique]). *)
Fixpoint insert_desc (v : ContextVersion) (sorted : list ContextVersion)
    : list ContextVersion :=
  match sorted with
  | [] => [v]
  | w :: rest =>
      if (cv_created_at w <? cv_created_at v)%Z then v :: sorted
      else w :: insert_desc v rest
  end.

Definition order_created_at_desc (rows : list ContextVersion) : list ContextVersion :=
  fold_right insert_desc [] rows.

Definition state_entry (field : BusinessStateField) : StateEntry :=
  {| se_value := bs_field_value field;
     se_type := bs_field_type field;
     se_source := bs_source field;
     se_updated_at := bs_updated_at field |}.

(** [Object.entries(state).reduce((acc, [name, field]) => { acc[name] =
    {...}; return acc }, {})].  No entry is named [__proto__], so every
    assignment creates or replaces an own property of [acc], which is kept
    as the finite map of its own properties. *)
Definition shown_fields (state : JsObject BusinessStateField) : gmap string StateEntry :=
  fold_left (fun acc kv => <[fst kv := state_entry (snd kv)]> acc) (object_entries state) ∅.

(** The versions of the owner created at or before the timestamp. *)
Definition versions_until (userId : string) (timestamp : Z) (s : Store)
    : list ContextVersion :=
  List.filter (fun v => String.eqb (cv_user_id v) userId
                        && (cv_created_at v <=? timestamp)%Z)
    (context_versions s).

Definition getStateAtTime (userId : string) (timestamp : Z) : M (option BusinessState) :=
  s <- get_store ;;
  let r := single (firstn 1 (order_created_at_desc (versions_until userId timestamp s))) in
  throw_unless_no_rows "Failed to find version at time: " (error r) ;;;
  match data r with
  | None => ret None
  | Some version =>
      state <- getVersionState (cv_id version) ;;
      ret (Some {| st_version_id := cv_id version;
                   st_version_hash := cv_version_hash version;
                   st_commit_message := cv_commit_message version;
                   st_created_at := cv_created_at version;
                   st_fields := shown_fields state |})
  end.

(* ===================================================================== *)
(** ** diff: the schema function [calculate_version_diff] and its caller *)
(* ===================================================================== *)

(** [rpc('calculate_version_diff', ...)].  The function is declared
    [RETURNS TABLE (field_name ..., old_value ..., new_value ...,
    change_type ...)], which makes [field_name] a PL/pgSQL variable of its
    body, and both common table expressions of the body select the
    unqualified column [field_name] of [business_state].  PL/pgSQL refuses
    a name that can be a variable or a column (SQLSTATE 42702) when the
    query is first run, so every call is answered with that error,
    whatever the arguments and the tables hold. *)
Definition calculate_version_diff (p_version_from p_version_to : string)
    : M (Response (list DiffRow)) :=
  ret (failed "42702" ("column reference " ++ quoted "field_name" ++ " is ambiguous")).

(** [diff]; [now] is the client clock. *)
Definition diff (now : Z) (versionFromId versionToId : string) : M ContextDiff :=
  r <- calculate_version_diff versionFromId versionToId ;;
  match error r with
  | Some e => throw (Error ("Failed to calculate diff: " ++ message e))
  | None =>
      getVersionById versionFromId ;;;
      getVersionById versionToId ;;;
      ret {| version_from := versionFromId;
             version_to := versionToId;
             changes := default [] (data r);
             diff_timestamp := now |}
  end.

(* ===================================================================== *)
(** ** Derived views of one commit *)
(* ===================================================================== *)

(** What [getCurrentVersion] reads. *)
Definition current_of (userId : string) (s : Store) : option ContextVersion :=
  data (single (List.filter (is_current_of userId) (context_versions s))).

(** The field rows of a version by name, as the table holds them (of two
    rows of one name, which [unique_field_per_version] excludes, the later
    one). *)
Definition put_row (m : gmap string BusinessStateField) (f : BusinessStateField)
    : gmap string BusinessStateField :=
  <[bs_field_name f := f]> m.

Definition rows_by_name (rows : list BusinessStateField) : gmap string BusinessStateField :=
  fold_left put_row rows ∅.

Definition state_of (versionId : string) (s : Store) : gmap string BusinessStateField :=
  rows_by_name (fields_of versionId s).

(** The field rows of the owner's current version, by name. *)
Definition previous_state (userId : string) (s : Store) : gmap string BusinessStateField :=
  match current_of userId s with
  | Some cv => state_of (cv_id cv) s
  | None => ∅
  end.

(** What [getVersionState] returns. *)
Definition object_of (versionId : string) (s : Store) : JsObject BusinessStateField :=
  index_fields (fields_of versionId s).

(** The object [commit] holds in [previousState]. *)
Definition previous_object (userId : string) (s : Store) : JsObject BusinessStateField :=
  match current_of userId s with
  | Some cv => object_of (cv_id cv) s
  | None => empty_object
  end.

(** The row [commit] inserts into [context_versions]. *)
Definition new_version (userId : string) (env : Env) (request : CommitRequest)
    (s : Store) : ContextVersion :=
  {| cv_id := db_uuid env;
     cv_user_id := cr_user_id request;
     cv_version_hash :=
       generateVersionHash (cr_user_id request) (cr_commit_message request)
         (js_now env) (js_random env);
     cv_commit_message := cr_commit_message request;
     cv_created_at := db_now env;
     cv_is_current := true;
     cv_parent_version_id := cv_id <$> current_of userId s;
     cv_author := or_string (cr_author request) "system";
     cv_tags := default [] (cr_tags request) |}.

(** The rows [commit] inserts into [business_state]. *)
Definition new_state_records (userId : string) (env : Env) (request : CommitRequest)
    (s : Store) : list BusinessStateField :=
  List.map (state_record (db_uuid env) (js_now env)) (cr_changes request)
  ++ match current_of userId s with
     | Some cv => unchanged_fields (db_uuid env) (cr_changes request) (fields_of (cv_id cv) s)
     | None => []
     end.

(** The rows [commit] inserts into [context_changes]. *)
Definition new_change_records (userId : string) (env : Env) (request : CommitRequest)
    (s : Store) : list ContextChange :=
  List.map (change_record (db_uuid env) (js_now env) (previous_object userId s))
    (cr_changes request).

(** The store after each insert. *)
Definition with_version (v : ContextVersion) (s : Store) : Store :=
  {| context_versions := enforce_single_current_version v (context_versions s) ++ [v];
     business_state := business_state s;
     context_changes := context_changes s |}.

Definition with_fields (rows : list BusinessStateField) (s : Store) : Store :=
  {| context_versions := context_versions s;
     business_state := business_state s ++ rows;
     context_changes := context_changes s |}.

Definition with_changes (rows : list ContextChange) (s : Store) : Store :=
  {| context_versions := context_versions s;
     business_state := business_state s;
     context_changes := context_changes s ++ rows |}.

(** The store once the whole commit is in. *)
Definition committed (userId : string) (env : Env) (request : CommitRequest)
    (s : Store) : Store :=
  {| context_versions :=
       enforce_single_current_version (new_version userId env request s)
         (context_versions s) ++ [new_version userId env request s];
     business_state := business_state s ++ new_state_records userId env request s;
     context_changes := context_changes s ++ new_change_records userId env request s |}.

(** The version insert passes the key constraints. *)
Definition version_insertable (v : ContextVersion) (s : Store) : bool :=
  negb (has_version (cv_id v) (context_versions s))
  && negb (has_hash (cv_version_hash v) (context_versions s))
  && match cv_parent_version_id v with
     | Some p => has_version p (context_versions s)
     | None => true
     end.

(** Field names of a version. *)
Definition names_of (versionId : string) (s : Store) : list string :=
  List.map bs_field_name (fields_of versionId s).

(** The current rows of an owner. *)
Definition currents (owner : string) (s : Store) : list ContextVersion :=
  List.filter (is_current_of owner) (context_versions s).

(** The rows of an owner. *)
Definition versions_of (owner : string) (s : Store) : list ContextVersion :=
  List.filter (fun v => String.eqb (cv_user_id v) owner) (context_versions s).

(** The commit request [rollback] builds for a target version and its state. *)
Definition rollback_request (request : RollbackRequest) (targetVersion : ContextVersion)
    (targetState : JsObject BusinessStateField) : CommitRequest :=
  {| cr_user_id := rr_user_id request;
     cr_commit_message :=
       ("Rollback to " ++ substring 0 7 (cv_version_hash targetVersion) ++ ": "
        ++ or_string (rr_reason request) (cv_commit_message targetVersion))%string;
     cr_changes := List.map rollback_change (object_values targetState);
     cr_tags := Some ["rollback"];
     cr_author := Some "system" |}.

(** What [getVersionById] reads. *)
Definition version_by_id (versionId : string) (s : Store) : option ContextVersion :=
  data (single (List.filter (fun v => String.eqb (cv_id v) versionId) (context_versions s))).

(** Histories: any sequence of commits and rollbacks, by any engines, under
    any clocks and generated ids, from the empty store. *)
Inductive Op :=
| OpCommit (userId : string) (env : Env) (request : CommitRequest)
| OpRollback (userId : string) (env : Env) (request : RollbackRequest).

Definition step (s : Store) (op : Op) : Store :=
  match op with
  | OpCommit userId env request => fst (commit userId env request s)
  | OpRollback userId env request => fst (rollback userId env request s)
  end.

Definition run (ops : list Op) : Store := fold_left step ops empty_store.

(** Per owner: no version row at all, or exactly one current row. *)
Definition single_current (rows : list ContextVersion) : Prop :=
  ∀ owner,
    (∀ w, In w rows → cv_user_id w ≠ owner)
    ∨ length (List.filter (is_current_of owner) rows) = 1%nat.

(** A running example: owner [u] commits [{a: 1, b: x}], then [{a: 2}],
    then [{c: 0}]. *)
Module Scenario.

Definition env1 : Env :=
{| js_now := 1700000000000; js_random := "0.5502331449807318";
   db_uuid := "11111111-1111-4111-8111-111111111111"; db_now := 1700000000040 |}.
Definition env2 : Env :=
{| js_now := 1700000060000; js_random := "0.1738212803988452";
   db_uuid := "22222222-2222-4222-8222-222222222222"; db_now := 1700000060040 |}.
Definition env3 : Env :=
{| js_now := 1700000120000; js_random := "0.9014650168054783";
   db_uuid := "33333333-3333-4333-8333-333333333333"; db_now := 1700000120040 |}.
Definition env4 : Env :=
{| js_now := 1700000180000; js_random := "0.3367071612129532";
   db_uuid := "44444444-4444-4444-8444-444444444444"; db_now := 1700000180040 |}.

Definition update (name : string) (value : Json) (type : FieldType) : FieldUpdate :=
{| fu_field_name := name; fu_field_value := value; fu_field_type := type;
   fu_source := api_crm |}.

Definition request (message : string) (updates : list FieldUpdate) : CommitRequest :=
{| cr_user_id := "u"; cr_commit_message := message; cr_changes := updates;
   cr_tags := None; cr_author := None |}.

Definition req1 : CommitRequest :=
request "first" [update "a" (JNum 1) FT_number; update "b" (JStr "x") FT_text].
Definition req2 : CommitRequest := request "second" [update "a" (JNum 2) FT_number].
Definition req3 : CommitRequest := request "third" [update "c" (JNum 0) FT_number].

Definition req4 : CommitRequest := request "fourth" [update "c" (JNum 5) FT_number].
Definition req_nothing : CommitRequest := request "nothing" [].
Definition req_twice : CommitRequest :=
request "twice" [update "a" (JNum 1) FT_number; update "a" (JNum 2) FT_number].
Definition rollback_to_first : RollbackRequest :=
{| rr_user_id := "u"; rr_version_id := db_uuid env1; rr_reason := None |}.

Definition s1 : Store := fst (commit "u" env1 req1 empty_store).
Definition s2 : Store := fst (commit "u" env2 req2 s1).
Definition s3 : Store := fst (commit "u" env3 req3 s2).

End Scenario.

(** The validation rule in the specification's words: a commit whose update
    list is empty or repeats a field name fails and writes nothing. *)
Definition commit_validates (userId : string) (env : Env) (request : CommitRequest)
    (s : Store) : Prop :=
  cr_changes request = [] ∨ ¬ NoDup (List.map fu_field_name (cr_changes request)) →
  ∃ e, commit userId env request s = (s, inl e).

(** Field set of a version, by name and value. *)
Definition values_of (versionId : string) (s : Store) : gmap string Json :=
  bs_field_value <$> state_of versionId s.

(** Rollback idempotence of content in the specification's words: after
    [rollback] returns, the owner's current state has the target's names and
    values. *)
Definition rollback_restores (userId : string) (env : Env) (request : RollbackRequest)
    (s : Store) : Prop :=
  ∀ s' v, rollback userId env request s = (s', inr v) →
    ∃ cur, current_of (rr_user_id request) s' = Some cur
           ∧ values_of (cv_id cur) s' = values_of (rr_version_id request) s.

(** The consistency check in the specification's words: with more than one
    current row, [getCurrentVersion] throws. *)
Definition getCurrent_checks_consistency (owner : string) (s : Store) : Prop :=
  (1 < length (currents owner s))%nat →
  ∃ e, getCurrentVersion owner s = (s, inl e).

(** Hash determinism in the specification's words: owner, message and time
    fix the hash. *)
Definition hash_fixed_by_owner_message_time : Prop :=
  ∀ (userId commitMessage : string) (timestamp : Z) (random random' : string),
    generateVersionHash userId commitMessage timestamp random
    = generateVersionHash userId commitMessage timestamp random'.

(** A table that breaks I1 by hand: two current rows of one owner. *)
Definition two_current_rows : Store :=
  {| context_versions :=
       [ {| cv_id := "11111111-1111-4111-8111-111111111111"; cv_user_id := "u";
            cv_version_hash := "991e38a0e368d28d3af413d7b20aa7242e91e295";
            cv_commit_message := "first"; cv_created_at := 1700000000040;
            cv_is_current := true; cv_parent_version_id := None;
            cv_author := "system"; cv_tags := [] |};
         {| cv_id := "22222222-2222-4222-8222-222222222222"; cv_user_id := "u";
            cv_version_hash := "6c38c8fd4f5436681ab6924ed2a274f4046d2815";
            cv_commit_message := "second"; cv_created_at := 1700000060040;
            cv_is_current := true; cv_parent_version_id := None;
            cv_author := "system"; cv_tags := [] |} ];
     business_state := [];
     context_changes := [] |}.

(** The key constraints of the field table: every row references a version
    row, and [unique_field_per_version]. *)
Record store_ok (s : Store) : Prop := {
  ok_fields_fk :
    ∀ f, In f (business_state s) → has_version (bs_version_id f) (context_versions s) = true;
  ok_fields_unique : NoDup (List.map field_key (business_state s))
}.

(* ===================================================================== *)
(** ** tagVersion, getHistory *)
(* ===================================================================== *)

Definition set_tags (tags : list string) (v : ContextVersion) : ContextVersion :=
  {| cv_id := cv_id v; cv_user_id := cv_user_id v;
     cv_version_hash := cv_version_hash v;
     cv_commit_message := cv_commit_message v;
     cv_created_at := cv_created_at v; cv_is_current := cv_is_current v;
     cv_parent_version_id := cv_parent_version_id v;
     cv_author := cv_author v; cv_tags := tags |}.

(** [from('context_versions').update({ tags }).eq('id', versionId)]: the
    trigger is declared for updates of [is_current] only and stays silent. *)
Definition update_tags (versionId : string) (tags : list string) : M (Response unit) :=
  s <- get_store ;;
  put_store {| context_versions :=
                 List.map (fun v => if String.eqb (cv_id v) versionId
                                    then set_tags tags v else v)
                   (context_versions s);
               business_state := business_state s;
               context_changes := context_changes s |} ;;;
  ret (ok tt).

Definition tagVersion (versionId : string) (tags : list string) : M unit :=
  r <- update_tags versionId tags ;;
  match error r with
  | Some e => throw (Error ("Failed to tag version: " ++ message e))
  | None => ret tt
  end.

(** [getHistory]: the owner's rows, newest first, rows [offset] to
    [offset + limit - 1] of them (a range past the last row is taken to
    answer with no rows). *)
Definition getHistory (userId : string) (limit offset : nat) : M (list ContextVersion) :=
  s <- get_store ;;
  let r := ok (firstn limit (skipn offset (order_created_at_desc (versions_of userId s)))) in
  match error r with
  | Some e => throw (Error ("Failed to get history: " ++ message e))
  | None => ret (default [] (data r))
  end.

(** Rows in non-increasing [created_at] order. *)
Fixpoint newest_first (rows : list ContextVersion) : Prop :=
  match rows with
  | [] => True
  | v :: rest =>
      (∀ w, In w rest → (cv_created_at w ≤ cv_created_at v)%Z) ∧ newest_first rest
  end.

(** Two version rows that differ at most in [is_current]. *)
Definition same_commit (v w : ContextVersion) : Prop :=
  cv_id v = cv_id w ∧ cv_user_id v = cv_user_id w
  ∧ cv_version_hash v = cv_version_hash w
  ∧ cv_commit_message v = cv_commit_message w
  ∧ cv_created_at v = cv_created_at w
  ∧ cv_parent_version_id v = cv_parent_version_id w
  ∧ cv_author v = cv_author w ∧ cv_tags v = cv_tags w.

(* ===================================================================== *)
(** ** getFieldHistory *)
(* ===================================================================== *)

(** A JavaScript [Date]: a time value, or Invalid Date. *)
Definition JsDate : Type := option Z.

(** [date.toISOString()], which throws a RangeError on Invalid Date; the
    store compares the instant it denotes. *)
Definition iso_instant (d : JsDate) : M Z :=
  match d with
  | Some ms => ret ms
  | None => throw (Error "Invalid time value")
  end.

(** [.order(key, { ascending: false })] on any table, as an insertion sort.
    The database leaves the order of rows of equal key open; here they come
    out with the later table row first. *)
Fixpoint insert_by_desc {A} (key : A → Z) (x : A) (sorted : list A) : list A :=
  match sorted with
  | [] => [x]
  | y :: rest =>
      if (key y <? key x)%Z then x :: sorted else y :: insert_by_desc key x rest
  end.

Definition order_desc {A} (key : A → Z) (rows : list A) : list A :=
  fold_right (insert_by_desc key) [] rows.

Fixpoint sorted_desc {A} (key : A → Z) (rows : list A) : Prop :=
  match rows with
  | [] => True
  | x :: rest => (∀ y, In y rest → (key y ≤ key x)%Z) ∧ sorted_desc key rest
  end.

(** A change row with the embedded
    [context_versions!inner(user_id, created_at, commit_message)]. *)
Record FieldHistoryRow := {
  fh_change : ContextChange;
  fh_user_id : string;
  fh_created_at : Z;
  fh_commit_message : string
}.

Definition history_row (c : ContextChange) (v : ContextVersion) : FieldHistoryRow :=
  {| fh_change := c; fh_user_id := cv_user_id v; fh_created_at := cv_created_at v;
     fh_commit_message := cv_commit_message v |}.

(** The inner join of the change log with the owner's versions. *)
Definition changes_of_owner (userId : string) (s : Store) : list FieldHistoryRow :=
  flat_map (fun c =>
      List.map (history_row c)
        (List.filter (fun v => String.eqb (cv_id v) (cc_version_id c)
                               && String.eqb (cv_user_id v) userId)
           (context_versions s)))
    (context_changes s).

Definition in_time_range (timeRange : option (Z * Z)) (r : FieldHistoryRow) : bool :=
  match timeRange with
  | Some (start, stop) =>
      (start <=? cc_created_at (fh_change r))%Z && (cc_created_at (fh_change r) <=? stop)%Z
  | None => true
  end.

(** [getFieldHistory]: the owner's change rows of one field, newest first,
    optionally within [start, end] of the change's [created_at]. *)
Definition getFieldHistory (userId fieldName : string) (timeRange : option (JsDate * JsDate))
    : M (list FieldHistoryRow) :=
  range <-
    match timeRange with
    | Some (start, stop) =>
        a <- iso_instant start ;;
        b <- iso_instant stop ;;
        ret (Some (a, b))
    | None => ret None
    end ;;
  s <- get_store ;;
  let rows :=
    order_desc (fun r => cc_created_at (fh_change r))
      (List.filter (in_time_range range)
         (List.filter (fun r => String.eqb (cc_field_name (fh_change r)) fieldName)
            (changes_of_owner userId s))) in
  let r := ok rows in
  match error r with
  | Some e => throw (Error ("Failed to get field history: " ++ message e))
  | None => ret (default [] (data r))
  end.

(** The change log's reference to the version table. *)
Definition changes_ok (s : Store) : Prop :=
  ∀ c, In c (context_changes s) → has_version (cc_version_id c) (context_versions s) = true.

(* ===================================================================== *)
(** ** getStats *)
(* ===================================================================== *)

(** A value of the counting records: a number, or the text that [+ 1]
    makes of a function or object found on the prototype chain. *)
Inductive JsCount := CountNumber (n : nat) | CountText (text : string).

(** [String(f)] for a native function, as V8 writes it. *)
Definition native_source (name : string) : string :=
  "function " ++ name ++ "() { [native code] }".

(** [(counts[key] || 0) + 1].  A key that is no own property is looked up
    on [Object.prototype]: [__proto__] gives that object itself, the name
    of one of its functions gives the function, and [+ 1] turns either into
    a text. *)
Definition next_count (key : string) (counts : JsObject JsCount) : JsCount :=
  match get_own key (js_own counts) with
  | Some (CountNumber n) => CountNumber (S n)
  | Some (CountText text) =>
      if String.eqb text EmptyString then CountNumber 1 else CountText (text ++ "1")
  | None =>
      if String.eqb key "__proto__" then CountText "[object Object]1"
      else if is_prototype_function key then
        CountText (native_source (if String.eqb key "constructor" then "Object" else key)
                   ++ "1")
      else CountNumber 1
  end.

(** [counts[key] = (counts[key] || 0) + 1] on a record made by [{}]; the
    value assigned is a primitive, so under the key [__proto__] nothing is
    stored. *)
Definition bump (key : string) (counts : JsObject JsCount) : JsObject JsCount :=
  assign (fun _ => false) key (next_count key counts) counts.

Definition tally (keys : list string) : JsObject JsCount :=
  fold_left (fun counts key => bump key counts) keys empty_object.

(** Counting without a prototype chain: how often each key occurs, in
    order of first occurrence. *)
Fixpoint count_up (key : string) (counts : list (string * nat)) : list (string * nat) :=
  match counts with
  | [] => [(key, 1%nat)]
  | (k, n) :: rest =>
      if String.eqb k key then (k, S n) :: rest else (k, n) :: count_up key rest
  end.

Definition occurrences (keys : list string) : list (string * nat) :=
  fold_left (fun counts key => count_up key counts) keys [].

(** [b.change_count - a.change_count] is not positive.  With a text on
    either side the difference is [NaN], which [sort] takes for 0. *)
Definition by_count_desc (a b : string * JsCount) : bool :=
  match snd a, snd b with
  | CountNumber x, CountNumber y => (y <=? x)%nat
  | _, _ => true
  end.

(** [(a, b) => a.date.localeCompare(b.date)], on ISO dates of one format. *)
Definition by_date_asc {A} (a b : string * A) : bool := String.leb (fst a) (fst b).

(** [iso.split('T')[0]]. *)
Fixpoint before_T (iso : string) : string :=
  match iso with
  | EmptyString => EmptyString
  | String c rest => if Ascii.eqb c "T" then EmptyString else String c (before_T rest)
  end.

Definition iso_date (ms : Z) : string := before_T (IsoDate.toISOString ms).

Record Stats := {
  total_versions : nat;
  total_changes : nat;
  most_changed_fields : list (string * JsCount);
  recent_activity : list (string * JsCount)
}.

(** The change rows [.in('version_id', ids)] selects. *)
Definition changes_in (ids : list string) (s : Store) : list ContextChange :=
  List.filter (fun c => existsb (String.eqb (cc_version_id c)) ids) (context_changes s).

(** [new Date()] moved back thirty days with [setDate] (runtime in UTC). *)
Definition thirty_days_before (now : Z) : Z := (now - 30 * 86400000)%Z.

(** [getStats]; [now] is the client clock. *)
Definition getStats (userId : string) (now : Z) : M Stats :=
  s <- get_store ;;
  let versions := ok (versions_of userId s) in
  let changes := ok (changes_in (List.map cv_id (default [] (data versions))) s) in
  match error versions, error changes with
  | None, None =>
      let fieldChangeCounts := tally (List.map cc_field_name (default [] (data changes))) in
      let mostChangedFields :=
        firstn 10 (js_sort by_count_desc (object_entries fieldChangeCounts)) in
      let thirtyDaysAgo := thirty_days_before now in
      let recentActivity :=
        tally (List.map (fun v => iso_date (cv_created_at v))
                 (List.filter (fun v => (thirtyDaysAgo <=? cv_created_at v)%Z)
                    (default [] (data versions)))) in
      ret {| total_versions := length (default [] (data versions));
             total_changes := length (default [] (data changes));
             most_changed_fields := mostChangedFields;
             recent_activity := js_sort by_date_asc (object_entries recentActivity) |}
  | _, _ => throw (Error "Failed to get stats")
  end.

(** Sum of the counts of an occurrence list. *)
Definition total_count (counts : list (string * nat)) : nat :=
  fold_right (fun kv n => (snd kv + n)%nat) 0%nat counts.

(** The count recorded for a key, zero when the key is not there. *)
Fixpoint count_of (key : string) (counts : list (string * nat)) : nat :=
  match counts with
  | [] => 0
  | (k, n) :: rest => if String.eqb k key then n else count_of key rest
  end.

(** Counts as the JavaScript numbers of a counting record. *)
Definition as_numbers (counts : list (string * nat)) : list (string * JsCount) :=
  List.map (fun kn => (fst kn, CountNumber (snd kn))) counts.

(** Descending order of counts. *)
Definition count_desc (a b : string * nat) : bool := (snd b <=? snd a)%nat.

(** A name that a fresh [{}] does not already answer to. *)
Definition plain_name (name : string) : bool :=
  negb (String.eqb name "__proto__") && negb (is_prototype_function name).

(** Rows sorted for a comparator: nothing is put after a later element. *)
Fixpoint sorted_by {A} (before : A → A → bool) (l : list A) : Prop :=
  match l with
  | [] => True
  | x :: rest => (∀ y, In y rest → before x y = true) ∧ sorted_by before rest
  end.

(** The owner's change rows of one field. *)
Definition owner_changes_of (userId fieldName : string) (s : Store) : list ContextChange :=
  List.filter (fun c => String.eqb (cc_field_name c) fieldName)
    (changes_in (List.map cv_id (versions_of userId s)) s).

(* ===================================================================== *)
(** ** The schema function [get_business_state_at] *)
(* ===================================================================== *)

(** [business_state bs INNER JOIN context_versions cv ON bs.version_id =
    cv.id WHERE cv.user_id = p_user_id AND cv.created_at <= p_timestamp]. *)
Definition fields_until (p_user_id : string) (p_timestamp : Z) (s : Store)
    : list (BusinessStateField * ContextVersion) :=
  flat_map (fun bs =>
      List.map (pair bs)
        (List.filter (fun cv => String.eqb (bs_version_id bs) (cv_id cv)
                                && String.eqb (cv_user_id cv) p_user_id
                                && (cv_created_at cv <=? p_timestamp)%Z)
           (context_versions s)))
    (business_state s).

(** A row of the function's result table. *)
Record StateAtRow := {
  sa_field_name : string;
  sa_field_value : Json;
  sa_field_type : FieldType;
  sa_source : Source;
  sa_updated_at : Z
}.

(** [SELECT DISTINCT ON (bs.field_name) bs.field_name, bs.field_value,
    bs.field_type, bs.source, bs.updated_at ... ORDER BY bs.field_name,
    cv.created_at DESC]: for each field name, in ascending order of the
    names (compared bytewise), the first of its rows in descending order of
    the version's [created_at].  Every column reference is qualified, so
    the function runs. *)
Definition get_business_state_at (p_user_id : string) (p_timestamp : Z) (s : Store)
    : list StateAtRow :=
  let rows := fields_until p_user_id p_timestamp s in
  let names :=
    js_sort String.leb (nodup string_dec (List.map (fun r => bs_field_name (fst r)) rows)) in
  flat_map (fun name =>
      match order_desc (fun r => cv_created_at (snd r))
              (List.filter (fun r => String.eqb (bs_field_name (fst r)) name) rows) with
      | [] => []
      | (bs, _) :: _ =>
          [{| sa_field_name := bs_field_name bs;
              sa_field_value := bs_field_value bs;
              sa_field_type := bs_field_type bs;
              sa_source := bs_source bs;
              sa_updated_at := bs_updated_at bs |}]
      end)
    names.

(** Invariant I2 on the owner's versions: a field held by a version is held
    by every version of the owner that is not older. *)
Definition fields_never_dropped (owner : string) (s : Store) : Prop :=
  ∀ v w, In v (context_versions s) → In w (context_versions s) →
    cv_user_id v = owner → cv_user_id w = owner →
    (cv_created_at v ≤ cv_created_at w)%Z →
    ∀ n, In n (names_of (cv_id v) s) → In n (names_of (cv_id w) s).

(** The owner's versions have pairwise distinct creation times. *)
Definition distinct_times (owner : string) (s : Store) : Prop :=
  ∀ v w, In v (context_versions s) → In w (context_versions s) →
    cv_user_id v = owner → cv_user_id w = owner →
    cv_created_at v = cv_created_at w → cv_id v = cv_id w.

(** The database clock is past every stored version. *)
Definition clock_ahead (env : Env) (s : Store) : Prop :=
  ∀ w, In w (context_versions s) → (cv_created_at w < db_now env)%Z.

(** Stores reached from the empty one by commits and rollbacks that all
    returned, each made as the routes make them (the engine of the owner the
    request names) and each at a later database time than the versions
    stored so far. *)
Inductive reached : Store → Prop :=
| reached_empty : reached empty_store
| reached_commit (s s' : Store) (env : Env) (request : CommitRequest) (v : ContextVersion) :
    reached s → clock_ahead env s →
    commit (cr_user_id request) env request s = (s', inr v) → reached s'
| reached_rollback (s s' : Store) (env : Env) (request : RollbackRequest)
    (v : ContextVersion) :
    reached s → clock_ahead env s →
    rollback (rr_user_id request) env request s = (s', inr v) → reached s'.

(** The owner's current version is a latest one. *)
Definition current_is_latest (s : Store) : Prop :=
  ∀ owner cur, current_of owner s = Some cur →
    ∀ w, In w (context_versions s) → cv_user_id w = owner →
      (cv_created_at w ≤ cv_created_at cur)%Z.

(* ===================================================================== *)
(** ** The read routes [GET /api/context/current] and [GET /api/context/at/:date] *)
(* ===================================================================== *)

Record VersionInfo := {
  vi_id : string;
  vi_hash : string;
  vi_message : string;
  vi_created_at : Z;
  vi_author : string;
  vi_tags : list string
}.

Inductive CurrentResponse :=
| Current200 (version : VersionInfo) (state : gmap string StateEntry)
| Current400 (err : string)
| Current404 (message : string)
| Current500 (err details : string).

(** The handler of [GET /api/context/current]; [userId] is the query
    parameter [user_id]. *)
Definition get_current (userId : option string) (s : Store) : Store * CurrentResponse :=
  if missing userId then (s, Current400 "user_id is required")
  else
    let owner := default "" userId in
    match (currentVersion <- getCurrentVersion owner ;;
           match currentVersion with
           | None =>
               ret (Current404
                      "No context versions found. Create your first commit to get started.")
           | Some cv =>
               state <- getVersionState (cv_id cv) ;;
               ret (Current200 {| vi_id := cv_id cv;
                                  vi_hash := cv_version_hash cv;
                                  vi_message := cv_commit_message cv;
                                  vi_created_at := cv_created_at cv;
                                  vi_author := cv_author cv;
                                  vi_tags := cv_tags cv |}
                               (shown_fields state))
           end) s with
    | (s', inr response) => (s', response)
    | (s', inl (Error msg)) => (s', Current500 "Failed to retrieve current state" msg)
    end.



(** The entry the read routes show for a field a commit has just written. *)
Definition update_entry (env : Env) (change : FieldUpdate) : StateEntry :=
  {| se_value := fu_field_value change;
     se_type := fu_field_type change;
     se_source := fu_source change;
     se_updated_at := js_now env |}.

(** The primary key of [context_versions]. *)
Definition ids_unique (s : Store) : Prop := NoDup (List.map cv_id (context_versions s)).

(** The state a response of [GET /api/context/current] shows, if any. *)
Definition shown_state (response : CurrentResponse) : gmap string StateEntry :=
  match response with
  | Current200 _ state => state
  | _ => ∅
  end.

(* ===================================================================== *)
(** ** The schema view [current_business_state] *)
(* ===================================================================== *)

Record CurrentStateRow := {
  row_user_id : string;
  row_version_id : string;
  row_version_hash : string;
  row_commit_message : string;
  row_created_at : Z;
  row_field_name : string;
  row_field_value : Json;
  row_field_type : FieldType;
  row_source : Source;
  row_updated_at : Z
}.

Definition current_state_row (cv : ContextVersion) (bs : BusinessStateField)
    : CurrentStateRow :=
  {| row_user_id := cv_user_id cv;
     row_version_id := cv_id cv;
     row_version_hash := cv_version_hash cv;
     row_commit_message := cv_commit_message cv;
     row_created_at := cv_created_at cv;
     row_field_name := bs_field_name bs;
     row_field_value := bs_field_value bs;
     row_field_type := bs_field_type bs;
     row_source := bs_source bs;
     row_updated_at := bs_updated_at bs |}.

(** [FROM context_versions cv INNER JOIN business_state bs ON cv.id =
    bs.version_id WHERE cv.is_current = true]. *)
Definition current_business_state (s : Store) : list CurrentStateRow :=
  flat_map (fun cv =>
      List.map (current_state_row cv)
        (List.filter (fun bs => String.eqb (cv_id cv) (bs_version_id bs)) (business_state s)))
    (List.filter cv_is_current (context_versions s)).

(** The entry of a row of the view. *)
Definition row_entry (row : CurrentStateRow) : StateEntry :=
  {| se_value := row_field_value row;
     se_type := row_field_type row;
     se_source := row_source row;
     se_updated_at := row_updated_at row |}.

(* ===================================================================== *)
(** * Properties *)
(* ===================================================================== *)

(** ** Runtime functions against known values *)

Example sha1_abc :
  Sha1.digest_hex "abc" = "a9993e364706816aba3e25717850c26c9cd0d89d".
Proof. vm_compute. reflexivity. Qed.

Example sha1_empty :
  Sha1.digest_hex "" = "da39a3ee5e6b4b0d3255bfef95601890afd80709".
Proof. vm_compute. reflexivity. Qed.

Example sha1_two_blocks :
  Sha1.digest_hex "abcdbcdecdefdefgefghfghighijhijkijkljklmklmnlmnomnopnopq"
  = "84983e441c3bd26ebaae4aa1f95129e5e54670f1".
Proof. vm_compute. reflexivity. Qed.

Example iso_epoch : IsoDate.toISOString 0 = "1970-01-01T00:00:00.000Z".
Proof. vm_compute. reflexivity. Qed.

Example iso_2023 : IsoDate.toISOString 1700000000123 = "2023-11-14T22:13:20.123Z".
Proof. vm_compute. reflexivity. Qed.

Example iso_leap : IsoDate.toISOString 1709251199999 = "2024-02-29T23:59:59.999Z".
Proof. vm_compute. reflexivity. Qed.

Example iso_before_epoch : IsoDate.toISOString (-1) = "1969-12-31T23:59:59.999Z".
Proof. vm_compute. reflexivity. Qed.


(** ** The engine methods, outcome by outcome *)
(* ===================================================================== *)


Lemma single_never_throws {A} (prefix : string) (rows : list A) (s : Store) :
  throw_unless_no_rows prefix (error (single rows)) s = (s, inr tt).
Proof. destruct rows as [| r [| r' rows]]; reflexivity. Qed.

Lemma getCurrentVersion_eq (userId : string) (s : Store) :
  getCurrentVersion userId s = (s, inr (current_of userId s)).
Proof.
  unfold getCurrentVersion, bind, get_store. rewrite single_never_throws. reflexivity.
Qed.

Lemma getVersionById_state (versionId : string) (s : Store) :
  ∃ r, getVersionById versionId s = (s, inr r).
Proof.
  unfold getVersionById, bind, get_store. rewrite single_never_throws. eauto.
Qed.

Lemma getVersionState_eq (versionId : string) (s : Store) :
  getVersionState versionId s = (s, inr (object_of versionId s)).
Proof. reflexivity. Qed.

Lemma has_version_In (i : string) (rows : list ContextVersion) :
  has_version i rows = true ↔ ∃ v, In v rows ∧ cv_id v = i.
Proof.
  unfold has_version. rewrite existsb_exists.
  split; intros [v [Hv E]]; exists v; split; auto; apply String.eqb_eq; auto.
Qed.

Lemma enforce_ids (new : ContextVersion) (rows : list ContextVersion) :
  List.map cv_id (enforce_single_current_version new rows) = List.map cv_id rows.
Proof.
  unfold enforce_single_current_version. destruct (cv_is_current new); [| reflexivity].
  induction rows as [| v rows IH]; simpl; [reflexivity |].
  rewrite IH. destruct (_ && _); reflexivity.
Qed.

Lemma has_version_map (i : string) (rows rows' : list ContextVersion) :
  List.map cv_id rows = List.map cv_id rows' → has_version i rows = has_version i rows'.
Proof.
  unfold has_version. revert rows'.
  induction rows as [| v rows IH]; intros [| v' rows'] E; simpl in *; try congruence.
  injection E as -> E. f_equal. auto.
Qed.

Lemma has_version_with (v : ContextVersion) (s : Store) (i : string) :
  has_version i (context_versions (with_version v s))
  = has_version i (context_versions s) || String.eqb (cv_id v) i.
Proof.
  unfold with_version, has_version. simpl. rewrite existsb_app. simpl.
  rewrite orb_false_r. f_equal. apply has_version_map, enforce_ids.
Qed.



Lemma insert_context_versions_ok (v : ContextVersion) (s : Store) :
  version_insertable v s = true →
  insert_context_versions v s = (with_version v s, inr (ok v)).
Proof.
  unfold version_insertable. rewrite !andb_true_iff, !negb_true_iff.
  intros [[Hid Hhash] Hparent].
  unfold insert_context_versions, bind, get_store. rewrite Hid, Hhash.
  destruct (cv_parent_version_id v); [rewrite Hparent |]; reflexivity.
Qed.

Lemma insert_context_versions_rejected (v : ContextVersion) (s : Store) :
  version_insertable v s = false →
  ∃ c m, insert_context_versions v s = (s, inr (failed c m)).
Proof.
  unfold version_insertable, insert_context_versions, bind, get_store. intros H.
  destruct (has_version (cv_id v) (context_versions s)); [eauto |].
  destruct (has_hash (cv_version_hash v) (context_versions s)); [eauto |].
  destruct (cv_parent_version_id v) as [p |]; [| discriminate].
  simpl in H. rewrite H. simpl. eauto.
Qed.

Lemma insert_business_state_ok (rows : list BusinessStateField) (s : Store) :
  forallb (fun f => has_version (bs_version_id f) (context_versions s)) rows = true →
  NoDup (List.map field_key (business_state s ++ rows)) →
  insert_business_state rows s = (with_fields rows s, inr (ok tt)).
Proof.
  intros Hfk Hnd. unfold insert_business_state, bind, get_store. rewrite Hfk. simpl.
  rewrite bool_decide_eq_true_2 by exact Hnd. reflexivity.
Qed.

Lemma insert_business_state_duplicate (rows : list BusinessStateField) (s : Store) :
  forallb (fun f => has_version (bs_version_id f) (context_versions s)) rows = true →
  ¬ NoDup (List.map field_key (business_state s ++ rows)) →
  insert_business_state rows s
  = (s, inr (failed "23505"
       ("duplicate key value violates unique constraint "
        ++ quoted "unique_field_per_version")%string)).
Proof.
  intros Hfk Hnd. unfold insert_business_state, bind, get_store. rewrite Hfk. simpl.
  rewrite bool_decide_eq_false_2 by exact Hnd. reflexivity.
Qed.

Lemma insert_context_changes_ok (rows : list ContextChange) (s : Store) :
  forallb (fun c => has_version (cc_version_id c) (context_versions s)) rows = true →
  insert_context_changes rows s = (with_changes rows s, inr (ok tt)).
Proof.
  intros Hfk. unfold insert_context_changes, bind, get_store. rewrite Hfk. reflexivity.
Qed.

Lemma new_state_records_version (userId : string) (env : Env) (request : CommitRequest)
    (s : Store) (f : BusinessStateField) :
  In f (new_state_records userId env request s) → bs_version_id f = db_uuid env.
Proof.
  unfold new_state_records, unchanged_fields. rewrite in_app_iff, in_map_iff.
  intros [[c [<- _]] | H]; [reflexivity |].
  destruct (current_of userId s); [| contradiction].
  apply in_map_iff in H as [g [<- _]]. reflexivity.
Qed.

Lemma new_state_records_fk (userId : string) (env : Env) (request : CommitRequest)
    (s : Store) :
  forallb (fun f => has_version (bs_version_id f)
                      (context_versions (with_version (new_version userId env request s) s)))
    (new_state_records userId env request s) = true.
Proof.
  apply forallb_forall. intros f Hf. rewrite has_version_with.
  rewrite (new_state_records_version _ _ _ _ _ Hf). simpl.
  rewrite String.eqb_refl. apply orb_true_r.
Qed.

Lemma new_change_records_fk (userId : string) (env : Env) (request : CommitRequest)
    (s : Store) (bs : list BusinessStateField) :
  forallb (fun c => has_version (cc_version_id c)
                      (context_versions
                         (with_fields bs (with_version (new_version userId env request s) s))))
    (new_change_records userId env request s) = true.
Proof.
  apply forallb_forall. intros c Hc. simpl.
  change (enforce_single_current_version (new_version userId env request s) (context_versions s)
          ++ [new_version userId env request s])
    with (context_versions (with_version (new_version userId env request s) s)).
  rewrite has_version_with.
  apply in_map_iff in Hc as [u [<- _]]. simpl.
  rewrite String.eqb_refl. apply orb_true_r.
Qed.

(** The part of [commit] after the version row is in. *)
Lemma commit_after_insert (userId : string) (env : Env) (request : CommitRequest)
    (s : Store) :
  version_insertable (new_version userId env request s) s = true →
  commit userId env request s =
    if bool_decide (NoDup (List.map field_key
                             (business_state s ++ new_state_records userId env request s)))
    then (committed userId env request s, inr (new_version userId env request s))
    else (with_version (new_version userId env request s) s,
          inl (Error ("Failed to insert state: duplicate key value violates unique constraint "
                       ++ quoted "unique_field_per_version")%string)).
Proof.
  intros Hv.
  unfold commit. unfold bind at 1. rewrite getCurrentVersion_eq.
  unfold bind at 1. fold (new_version userId env request s).
  rewrite (insert_context_versions_ok _ _ Hv). cbn [error data ok].
  pose (v := new_version userId env request s).
  pose (s1 := with_version v s).
  assert (Hprev :
    match current_of userId s with
    | Some cv => getVersionState (cv_id cv)
    | None => ret empty_object
    end s1 = (s1, inr (previous_object userId s))).
  { unfold previous_object. destruct (current_of userId s); reflexivity. }
  unfold bind at 1. subst s1 v. rewrite Hprev.
  match goal with
  | |- context [bind ?m _ (with_version _ s)] =>
      assert (Hrows : m (with_version (new_version userId env request s) s)
                     = (with_version (new_version userId env request s) s,
                        inr (new_state_records userId env request s)))
  end.
  { unfold new_state_records, bind, get_store, ret.
    destruct (current_of userId s); [reflexivity | rewrite app_nil_r; reflexivity]. }
  unfold bind at 1. rewrite Hrows.
  unfold bind at 1.
  destruct (bool_decide (NoDup _)) eqn:Hnd.
  - apply bool_decide_eq_true_1 in Hnd.
    rewrite (insert_business_state_ok _ _ (new_state_records_fk _ _ _ _) Hnd).
    cbn [error ok]. unfold bind at 1.
    change (List.map (change_record (cv_id (new_version userId env request s)) (js_now env)
                        (previous_object userId s)) (cr_changes request))
      with (new_change_records userId env request s).
    destruct (0 <? length (new_change_records userId env request s))%nat eqn:Hlen.
    + unfold bind at 1. rewrite insert_context_changes_ok by apply new_change_records_fk.
      reflexivity.
    + apply Nat.ltb_ge in Hlen.
      destruct (new_change_records userId env request s) eqn:Hc; [| simpl in Hlen; lia].
      unfold ret, committed. rewrite Hc, app_nil_r. reflexivity.
  - apply bool_decide_eq_false_1 in Hnd.
    rewrite (insert_business_state_duplicate _ _ (new_state_records_fk _ _ _ _) Hnd).
    reflexivity.
Qed.

Lemma commit_version_rejected (userId : string) (env : Env) (request : CommitRequest)
    (s : Store) :
  version_insertable (new_version userId env request s) s = false →
  ∃ m, commit userId env request s = (s, inl (Error ("Failed to create version: " ++ m)%string)).
Proof.
  intros Hv.
  unfold commit. unfold bind at 1. rewrite getCurrentVersion_eq.
  unfold bind at 1. fold (new_version userId env request s).
  destruct (insert_context_versions_rejected _ _ Hv) as [c [m ->]].
  exists m. reflexivity.
Qed.

(* ===================================================================== *)
(** ** Field rows and the state record built from them *)
(* ===================================================================== *)


Lemma NoDup_cons_In {A} (x : A) (l : list A) : NoDup (x :: l) ↔ ¬ In x l ∧ NoDup l.
Proof. rewrite NoDup_cons, list_elem_of_In. reflexivity. Qed.

Lemma NoDup_app_In {A} (l k : list A) :
  NoDup (l ++ k) ↔ NoDup l ∧ (∀ x, In x l → ¬ In x k) ∧ NoDup k.
Proof.
  rewrite NoDup_app. setoid_rewrite list_elem_of_In. reflexivity.
Qed.

Section IndexFields.
Implicit Types (rows : list BusinessStateField) (m : gmap string BusinessStateField).

Lemma fold_put_other rows m (n : string) :
  ¬ In n (List.map bs_field_name rows) →
  fold_left put_row rows m !! n = m !! n.
Proof.
  revert m. induction rows as [| g rows IH]; intros m Hn; simpl in *; [reflexivity |].
  rewrite IH by tauto. unfold put_row. apply lookup_insert_ne. tauto.
Qed.

Lemma fold_put_origin rows m (n : string) (f : BusinessStateField) :
  fold_left put_row rows m !! n = Some f →
  (In f rows ∧ bs_field_name f = n) ∨ m !! n = Some f.
Proof.
  revert m. induction rows as [| g rows IH]; intros m H; simpl in *; [tauto |].
  destruct (IH _ H) as [[Hin Hn] | Hm]; [tauto |].
  unfold put_row in Hm. rewrite lookup_insert in Hm.
  destruct (decide (bs_field_name g = n)) as [E | E]; [| tauto].
  injection Hm as ->. tauto.
Qed.

Lemma fold_put_member rows m (f : BusinessStateField) :
  NoDup (List.map bs_field_name rows) → In f rows →
  fold_left put_row rows m !! bs_field_name f = Some f.
Proof.
  revert m. induction rows as [| g rows IH]; intros m Hnd Hin; simpl in *; [tauto |].
  apply NoDup_cons_In in Hnd as [Hg Hnd].
  destruct Hin as [-> | Hin]; [| auto].
  rewrite fold_put_other by exact Hg. apply lookup_insert_eq.
Qed.

Lemma rows_by_name_lookup rows (n : string) (f : BusinessStateField) :
  NoDup (List.map bs_field_name rows) →
  rows_by_name rows !! n = Some f ↔ In f rows ∧ bs_field_name f = n.
Proof.
  intros Hnd. split.
  - intros H. apply fold_put_origin in H as [H | H]; [exact H |].
    rewrite lookup_empty in H. discriminate.
  - intros [Hin <-]. apply fold_put_member; assumption.
Qed.

Lemma rows_by_name_name rows (n : string) (f : BusinessStateField) :
  rows_by_name rows !! n = Some f → In f rows ∧ bs_field_name f = n.
Proof.
  intros H. apply fold_put_origin in H as [H | H]; [exact H |].
  rewrite lookup_empty in H. discriminate.
Qed.

Lemma fold_put_some rows m (n : string) :
  In n (List.map bs_field_name rows) → is_Some (fold_left put_row rows m !! n).
Proof.
  revert m. induction rows as [| g rows IH]; intros m Hin; simpl in *; [tauto |].
  destruct (in_dec string_dec n (List.map bs_field_name rows)) as [Hi | Hi]; [auto |].
  destruct Hin as [<- | Hin]; [| tauto].
  rewrite fold_put_other by exact Hi. unfold put_row. rewrite lookup_insert_eq. eauto.
Qed.

Lemma rows_by_name_none rows (n : string) :
  rows_by_name rows !! n = None ↔ ¬ In n (List.map bs_field_name rows).
Proof.
  split.
  - intros H Hin. apply (fold_put_some rows ∅) in Hin as [f Hf].
    unfold rows_by_name in H. congruence.
  - intros H. apply (fold_put_other rows ∅) in H. rewrite lookup_empty in H. exact H.
Qed.
End IndexFields.

Lemma fields_of_In (versionId : string) (s : Store) (f : BusinessStateField) :
  In f (fields_of versionId s) ↔ In f (business_state s) ∧ bs_version_id f = versionId.
Proof. unfold fields_of. rewrite filter_In, String.eqb_eq. reflexivity. Qed.

Lemma NoDup_keys_names (versionId : string) (rows : list BusinessStateField) :
  (∀ f, In f rows → bs_version_id f = versionId) →
  NoDup (List.map field_key rows) ↔ NoDup (List.map bs_field_name rows).
Proof.
  induction rows as [| g rows IH]; intros Hv; simpl; [split; constructor |].
  rewrite !NoDup_cons_In, IH by (intros; apply Hv; right; assumption).
  assert (In (field_key g) (List.map field_key rows)
          ↔ In (bs_field_name g) (List.map bs_field_name rows)) as ->; [| reflexivity].
  rewrite !in_map_iff. split; intros [f [E Hf]]; exists f; split; auto.
  - unfold field_key in E. congruence.
  - unfold field_key. rewrite E, (Hv f), (Hv g); simpl; auto.
Qed.

Lemma NoDup_filter_keys (p : BusinessStateField → bool) (rows : list BusinessStateField) :
  NoDup (List.map field_key rows) → NoDup (List.map field_key (List.filter p rows)).
Proof.
  induction rows as [| g rows IH]; simpl; [auto |].
  rewrite NoDup_cons_In. intros [Hg Hnd].
  destruct (p g); simpl; [| auto].
  apply NoDup_cons_In. split; [| auto].
  intros Hin. apply Hg. apply in_map_iff in Hin as [f [E Hf]].
  apply filter_In in Hf as [Hf _]. apply in_map_iff. eauto.
Qed.

Lemma fields_of_names_unique (versionId : string) (s : Store) :
  store_ok s → NoDup (List.map bs_field_name (fields_of versionId s)).
Proof.
  intros Hok. apply (NoDup_keys_names versionId).
  - intros f Hf. apply fields_of_In in Hf. tauto.
  - apply NoDup_filter_keys, Hok.
Qed.

Lemma state_of_lookup (versionId : string) (s : Store) (n : string) (f : BusinessStateField) :
  store_ok s →
  state_of versionId s !! n = Some f
  ↔ In f (business_state s) ∧ bs_version_id f = versionId ∧ bs_field_name f = n.
Proof.
  intros Hok. unfold state_of.
  rewrite rows_by_name_lookup by (apply fields_of_names_unique; exact Hok).
  rewrite fields_of_In. tauto.
Qed.


Lemma NoDup_map_filter {A B} (g : A → B) (p : A → bool) (l : list A) :
  NoDup (List.map g l) → NoDup (List.map g (List.filter p l)).
Proof.
  induction l as [| x l IH]; simpl; [auto |].
  rewrite NoDup_cons_In. intros [Hx Hnd].
  destruct (p x); simpl; [| auto].
  apply NoDup_cons_In. split; [| auto].
  intros Hin. apply Hx. apply in_map_iff in Hin as [y [E Hy]].
  apply filter_In in Hy as [Hy _]. apply in_map_iff. eauto.
Qed.

Lemma filter_none {A} (p : A → bool) (l : list A) :
  (∀ x, In x l → p x = false) → List.filter p l = [].
Proof.
  induction l as [| x l IH]; intros H; simpl; [reflexivity |].
  rewrite (H x) by (left; reflexivity). apply IH. intros y Hy. apply H. right. exact Hy.
Qed.

Lemma filter_all {A} (p : A → bool) (l : list A) :
  (∀ x, In x l → p x = true) → List.filter p l = l.
Proof.
  induction l as [| x l IH]; intros H; simpl; [reflexivity |].
  rewrite (H x) by (left; reflexivity). f_equal. apply IH. intros y Hy. apply H. right. exact Hy.
Qed.

Lemma unchanged_fields_In (versionId : string) (changes : list FieldUpdate)
    (previousFields : list BusinessStateField) (g : BusinessStateField) :
  In g (unchanged_fields versionId changes previousFields)
  ↔ ∃ f, In f previousFields
         ∧ ¬ In (bs_field_name f) (List.map fu_field_name changes)
         ∧ g = copy_field versionId f.
Proof.
  unfold unchanged_fields. rewrite in_map_iff.
  split; intros [f H]; exists f.
  - destruct H as [<- H]. apply filter_In in H as [Hf Hp].
    apply negb_true_iff, bool_decide_eq_false_1 in Hp.
    rewrite elem_of_list_to_set, list_elem_of_In in Hp. auto.
  - destruct H as [Hf [Hn ->]]. split; [reflexivity |].
    apply filter_In. split; [exact Hf |].
    apply negb_true_iff, bool_decide_eq_false_2.
    rewrite elem_of_list_to_set, list_elem_of_In. exact Hn.
Qed.

Lemma unchanged_fields_names (versionId : string) (changes : list FieldUpdate)
    (previousFields : list BusinessStateField) :
  NoDup (List.map bs_field_name previousFields) →
  NoDup (List.map bs_field_name (unchanged_fields versionId changes previousFields)).
Proof.
  intros H. unfold unchanged_fields. rewrite List.map_map. simpl.
  apply NoDup_map_filter. exact H.
Qed.

Section CommitRows.
Variables (userId : string) (env : Env) (request : CommitRequest) (s : Store).
Hypothesis Hok : store_ok s.

Lemma new_state_records_In (g : BusinessStateField) :
  In g (new_state_records userId env request s)
  ↔ (∃ c, In c (cr_changes request) ∧ g = state_record (db_uuid env) (js_now env) c)
    ∨ (∃ cv f, current_of userId s = Some cv
               ∧ In f (fields_of (cv_id cv) s)
               ∧ ¬ In (bs_field_name f) (List.map fu_field_name (cr_changes request))
               ∧ g = copy_field (db_uuid env) f).
Proof.
  unfold new_state_records. rewrite in_app_iff, in_map_iff.
  destruct (current_of userId s) as [cv |].
  - rewrite unchanged_fields_In. split.
    + intros [[c [<- Hc]] | [f H]]; [left; eauto | right; exists cv, f; tauto].
    + intros [[c [Hc ->]] | [cv' [f [[= <-] H]]]]; [left; eauto | right; eauto].
  - split.
    + intros [[c [<- Hc]] | []]. left; eauto.
    + intros [[c [Hc ->]] | [cv' [f [[=] _]]]]. left; eauto.
Qed.

Lemma new_state_records_names :
  NoDup (List.map bs_field_name (new_state_records userId env request s))
  ↔ NoDup (List.map fu_field_name (cr_changes request)).
Proof.
  unfold new_state_records. rewrite List.map_app, List.map_map. simpl.
  rewrite NoDup_app_In. split; [tauto |]. intros Hnd. split; [exact Hnd |]. split.
  - intros n Hn Hin. destruct (current_of userId s) as [cv |]; [| contradiction].
    apply in_map_iff in Hin as [g [<- Hg]].
    apply unchanged_fields_In in Hg as [f [_ [Hf ->]]]. apply Hf. exact Hn.
  - destruct (current_of userId s) as [cv |]; [| constructor].
    apply unchanged_fields_names, fields_of_names_unique, Hok.
Qed.

Hypothesis Hfresh : has_version (db_uuid env) (context_versions s) = false.

Lemma new_state_records_keys :
  NoDup (List.map field_key (business_state s ++ new_state_records userId env request s))
  ↔ NoDup (List.map fu_field_name (cr_changes request)).
Proof.
  rewrite <- new_state_records_names.
  rewrite <- (NoDup_keys_names (db_uuid env)) by apply new_state_records_version.
  rewrite List.map_app, NoDup_app_In.
  split; [tauto |]. intros Hnd. split; [apply Hok |]. split; [| exact Hnd].
  intros k Hk Hin.
  apply in_map_iff in Hk as [f [<- Hf]]. apply in_map_iff in Hin as [g [E Hg]].
  apply new_state_records_version in Hg. apply (ok_fields_fk _ Hok) in Hf.
  unfold field_key in E. injection E as E _. congruence.
Qed.

Lemma fields_of_committed :
  fields_of (db_uuid env) (committed userId env request s)
  = new_state_records userId env request s.
Proof.
  unfold fields_of, committed. simpl. rewrite List.filter_app.
  rewrite filter_none, filter_all; [reflexivity | |].
  - intros f Hf. apply String.eqb_eq. eapply new_state_records_version, Hf.
  - intros f Hf. apply String.eqb_neq. intros E.
    apply (ok_fields_fk _ Hok) in Hf. congruence.
Qed.

Lemma fields_of_committed_other (versionId : string) :
  versionId ≠ db_uuid env →
  fields_of versionId (committed userId env request s) = fields_of versionId s.
Proof.
  intros Hne. unfold fields_of, committed. simpl. rewrite List.filter_app.
  rewrite (filter_none _ (new_state_records _ _ _ _)); [apply app_nil_r |].
  intros f Hf. apply String.eqb_neq. apply new_state_records_version in Hf. congruence.
Qed.

(** The state of the new version, field by field: an updated field has the
    update's row, any other field the parent's row under the new id. *)
Lemma committed_state (n : string) :
  NoDup (List.map fu_field_name (cr_changes request)) →
  state_of (db_uuid env) (committed userId env request s) !! n
  = match find (fun c => String.eqb (fu_field_name c) n) (cr_changes request) with
    | Some c => Some (state_record (db_uuid env) (js_now env) c)
    | None => copy_field (db_uuid env) <$> previous_state userId s !! n
    end.
Proof.
  intros Hnd. unfold state_of. rewrite fields_of_committed.
  pose proof (proj2 new_state_records_names Hnd) as Hnames.
  destruct (find _ (cr_changes request)) as [c |] eqn:Hfind.
  - apply find_some in Hfind as [Hc Hn]. apply String.eqb_eq in Hn.
    apply rows_by_name_lookup; [exact Hnames |]. split; [| exact Hn].
    apply new_state_records_In. left. eauto.
  - assert (Hno : ¬ In n (List.map fu_field_name (cr_changes request))).
    { intros Hin. apply in_map_iff in Hin as [c [E Hc]].
      apply (find_none _ _ Hfind) in Hc. apply String.eqb_neq in Hc. congruence. }
    destruct (previous_state userId s !! n) as [f |] eqn:Hprev; simpl.
    + unfold previous_state in Hprev.
      destruct (current_of userId s) as [cv |] eqn:Hcur;
        [| rewrite lookup_empty in Hprev; discriminate].
      apply rows_by_name_name in Hprev as [Hf <-].
      apply rows_by_name_lookup; [exact Hnames |]. split; [| reflexivity].
      apply new_state_records_In. right. exists cv, f. tauto.
    + apply rows_by_name_none. intros Hin.
      apply in_map_iff in Hin as [g [<- Hg]].
      apply new_state_records_In in Hg as [[c [Hc ->]] | [cv [f [Hcur [Hf [_ ->]]]]]].
      * apply Hno. apply in_map_iff. eauto.
      * unfold previous_state in Hprev. rewrite Hcur in Hprev.
        apply rows_by_name_none in Hprev. apply Hprev. apply in_map_iff.
        exists f. split; [reflexivity | exact Hf].
Qed.
End CommitRows.


(* ===================================================================== *)
(** ** Plain objects: own properties, entries, and the state object *)
(* ===================================================================== *)

Lemma insert_sorted_In {A} (before : A → A → bool) (x y : A) (l : list A) :
  In y (insert_sorted before x l) ↔ y = x ∨ In y l.
Proof.
  induction l as [| w l IH]; simpl; [intuition congruence |].
  destruct (before x w); simpl; [intuition congruence |].
  rewrite IH. intuition congruence.
Qed.

Lemma js_sort_In {A} (before : A → A → bool) (l : list A) (y : A) :
  In y (js_sort before l) ↔ In y l.
Proof.
  induction l as [| x l IH]; simpl; [reflexivity |].
  rewrite insert_sorted_In, IH. intuition congruence.
Qed.

Lemma insert_sorted_length {A} (before : A → A → bool) (x : A) (l : list A) :
  length (insert_sorted before x l) = S (length l).
Proof.
  induction l as [| w l IH]; simpl; [reflexivity |].
  destruct (before x w); simpl; [reflexivity | rewrite IH; reflexivity].
Qed.

Lemma js_sort_length {A} (before : A → A → bool) (l : list A) :
  length (js_sort before l) = length l.
Proof.
  induction l as [| x l IH]; simpl; [reflexivity |].
  rewrite insert_sorted_length, IH. reflexivity.
Qed.

Lemma insert_sorted_NoDup {A B} (key : A → B) (before : A → A → bool) (x : A) (l : list A) :
  NoDup (List.map key (insert_sorted before x l)) ↔ NoDup (List.map key (x :: l)).
Proof.
  induction l as [| w l IH]; simpl; [tauto |].
  destruct (before x w); simpl; [tauto |].
  rewrite !NoDup_cons_In, IH. simpl. rewrite NoDup_cons_In.
  assert (Hin : In (key w) (List.map key (insert_sorted before x l))
                ↔ key w = key x ∨ In (key w) (List.map key l)).
  { rewrite !in_map_iff. split.
    - intros [y [E Hy]]. apply insert_sorted_In in Hy as [-> | Hy]; [left; auto |].
      right. exists y. tauto.
    - intros [E | [y [E Hy]]].
      + exists x. split; [auto | apply insert_sorted_In; left; reflexivity].
      + exists y. split; [exact E |]. apply insert_sorted_In. right. exact Hy. }
  rewrite Hin. intuition congruence.
Qed.

Lemma js_sort_NoDup {A B} (key : A → B) (before : A → A → bool) (l : list A) :
  NoDup (List.map key l) → NoDup (List.map key (js_sort before l)).
Proof.
  induction l as [| x l IH]; simpl; [tauto |].
  rewrite NoDup_cons_In. intros [Hx Hnd]. apply insert_sorted_NoDup. simpl.
  apply NoDup_cons_In. split; [| apply IH, Hnd].
  intros Hin. apply Hx. apply in_map_iff in Hin as [y [E Hy]].
  apply js_sort_In in Hy. apply in_map_iff. eauto.
Qed.

Section OwnProperties.
Context {A : Type}.
Implicit Types (props : list (string * A)) (object : JsObject A).

Lemma get_own_In props (k : string) (v : A) :
  get_own k props = Some v → In (k, v) props.
Proof.
  unfold get_own. destruct (find _ props) as [[k' v'] |] eqn:E; [| discriminate].
  intros [= <-]. apply find_some in E as [Hin Hk]. apply String.eqb_eq in Hk.
  simpl in Hk. subst k'. exact Hin.
Qed.

Lemma get_own_None props (k : string) :
  get_own k props = None ↔ ¬ In k (List.map fst props).
Proof.
  unfold get_own. split.
  - destruct (find _ props) as [kv |] eqn:E; [discriminate |]. intros _ Hin.
    apply in_map_iff in Hin as [kv [Hk Hin]].
    apply (find_none _ _ E) in Hin. apply String.eqb_neq in Hin. congruence.
  - intros Hno. destruct (find _ props) as [kv |] eqn:E; [| reflexivity].
    apply find_some in E as [Hin Hk]. apply String.eqb_eq in Hk.
    exfalso. apply Hno, in_map_iff. eauto.
Qed.

Lemma get_own_unique props (k : string) (v : A) :
  NoDup (List.map fst props) → In (k, v) props → get_own k props = Some v.
Proof.
  induction props as [| [k' v'] props IH]; simpl; [tauto |].
  rewrite NoDup_cons_In. intros [Hk Hnd] [[= -> ->] | Hin].
  - unfold get_own. simpl. rewrite String.eqb_refl. reflexivity.
  - unfold get_own. simpl. destruct (String.eqb_spec k' k) as [-> | Hne].
    + exfalso. apply Hk, in_map_iff. exists (k, v). tauto.
    + apply IH; assumption.
Qed.

Lemma get_own_set_own props (n k : string) (v : A) :
  get_own k (set_own n v props) = if String.eqb n k then Some v else get_own k props.
Proof.
  induction props as [| [k' v'] props IH]; simpl.
  - unfold get_own. simpl. destruct (String.eqb n k); reflexivity.
  - destruct (String.eqb_spec k' n) as [-> | Hne]; unfold get_own in *; simpl.
    + destruct (String.eqb n k); reflexivity.
    + destruct (String.eqb_spec k' k) as [-> | Hk].
      * destruct (String.eqb_spec n k); [congruence | reflexivity].
      * exact IH.
Qed.

Lemma set_own_keys props (n k : string) (v : A) :
  In k (List.map fst (set_own n v props)) ↔ k = n ∨ In k (List.map fst props).
Proof.
  induction props as [| [k' v'] props IH]; simpl; [intuition congruence |].
  destruct (String.eqb_spec k' n) as [-> | Hne]; simpl; [intuition congruence |].
  rewrite IH. tauto.
Qed.

Lemma set_own_NoDup props (n : string) (v : A) :
  NoDup (List.map fst props) → NoDup (List.map fst (set_own n v props)).
Proof.
  induction props as [| [k' v'] props IH]; simpl.
  - intros _. apply NoDup_cons_In. split; [intros [] | constructor].
  - rewrite NoDup_cons_In. intros [Hk Hnd].
    destruct (String.eqb_spec k' n) as [-> | Hne]; simpl; apply NoDup_cons_In.
    + tauto.
    + split; [| apply IH, Hnd]. rewrite set_own_keys. tauto.
Qed.

Lemma object_entries_In object (kv : string * A) :
  In kv (object_entries object) ↔ In kv (js_own object).
Proof.
  unfold object_entries. rewrite in_app_iff, js_sort_In, !filter_In.
  destruct (is_index kv); simpl; intuition congruence.
Qed.

Lemma object_entries_NoDup object :
  NoDup (List.map fst (js_own object)) → NoDup (List.map fst (object_entries object)).
Proof.
  intros Hnd. unfold object_entries. rewrite List.map_app. apply NoDup_app_In.
  split; [apply js_sort_NoDup, NoDup_map_filter, Hnd |].
  split; [| apply NoDup_map_filter, Hnd].
  intros k Hk Hk'. apply in_map_iff in Hk as [[k1 v1] [E1 H1]].
  apply in_map_iff in Hk' as [[k2 v2] [E2 H2]]. simpl in *. subst k1 k2.
  apply js_sort_In, filter_In in H1 as [H1 I1]. apply filter_In in H2 as [H2 I2].
  unfold is_index in *. simpl in *. destruct (array_index k); discriminate.
Qed.

Lemma object_entries_get object (k : string) :
  NoDup (List.map fst (js_own object)) →
  get_own k (object_entries object) = get_own k (js_own object).
Proof.
  intros Hnd. destruct (get_own k (js_own object)) as [v |] eqn:E.
  - apply get_own_unique; [apply object_entries_NoDup, Hnd |].
    apply object_entries_In, get_own_In, E.
  - apply get_own_None. rewrite get_own_None in E. intros Hin. apply E.
    apply in_map_iff in Hin as [kv [Hk Hin]]. apply object_entries_In in Hin.
    apply in_map_iff. eauto.
Qed.

Lemma object_values_In object (v : A) :
  In v (object_values object) ↔ ∃ k, In (k, v) (js_own object).
Proof.
  unfold object_values. rewrite in_map_iff. split.
  - intros [[k v'] [<- Hin]]. exists k. apply object_entries_In, Hin.
  - intros [k Hin]. exists (k, v). split; [reflexivity |]. apply object_entries_In, Hin.
Qed.
End OwnProperties.

(** The state object against the table rows it is built from: the own
    properties are the rows of every name but [__proto__], and the row of
    that name, when there is one, is the prototype. *)
Lemma fold_put_field (rows : list BusinessStateField) (state : JsObject BusinessStateField)
    (m : gmap string BusinessStateField) :
  (∀ k, get_own k (js_own state) = if String.eqb k "__proto__" then None else m !! k) →
  js_proto state = m !! "__proto__" →
  NoDup (List.map fst (js_own state)) →
  (∀ k, get_own k (js_own (fold_left put_field rows state))
        = if String.eqb k "__proto__" then None else fold_left put_row rows m !! k)
  ∧ js_proto (fold_left put_field rows state) = fold_left put_row rows m !! "__proto__"
  ∧ NoDup (List.map fst (js_own (fold_left put_field rows state))).
Proof.
  revert state m. induction rows as [| f rows IH]; intros state m Hown Hproto Hnd; simpl;
    [tauto |].
  apply IH; unfold put_field, put_row, assign.
  - intros k. destruct (String.eqb_spec (bs_field_name f) "__proto__") as [E | E]; simpl.
    + rewrite Hown. destruct (String.eqb_spec k "__proto__") as [-> | Hk]; [reflexivity |].
      rewrite lookup_insert_ne by congruence. reflexivity.
    + rewrite get_own_set_own, Hown.
      destruct (String.eqb_spec (bs_field_name f) k) as [<- | Hk].
      * rewrite lookup_insert_eq.
        destruct (String.eqb_spec (bs_field_name f) "__proto__"); [congruence | reflexivity].
      * rewrite lookup_insert_ne by exact Hk. reflexivity.
  - destruct (String.eqb_spec (bs_field_name f) "__proto__") as [E | E]; simpl.
    + rewrite E, lookup_insert_eq. reflexivity.
    + rewrite lookup_insert_ne by exact E. exact Hproto.
  - destruct (String.eqb_spec (bs_field_name f) "__proto__") as [E | E]; simpl;
      [exact Hnd | apply set_own_NoDup, Hnd].
Qed.

Lemma index_fields_facts (rows : list BusinessStateField) :
  (∀ k, get_own k (js_own (index_fields rows))
        = if String.eqb k "__proto__" then None else rows_by_name rows !! k)
  ∧ js_proto (index_fields rows) = rows_by_name rows !! "__proto__"
  ∧ NoDup (List.map fst (js_own (index_fields rows))).
Proof.
  apply fold_put_field.
  - intros k. rewrite lookup_empty. destruct (String.eqb k "__proto__"); reflexivity.
  - rewrite lookup_empty. reflexivity.
  - constructor.
Qed.

Lemma object_of_own (versionId : string) (s : Store) (k : string) :
  get_own k (js_own (object_of versionId s))
  = if String.eqb k "__proto__" then None else state_of versionId s !! k.
Proof. apply index_fields_facts. Qed.

Lemma object_of_keys (versionId : string) (s : Store) :
  NoDup (List.map fst (js_own (object_of versionId s))).
Proof. apply index_fields_facts. Qed.

(** [state[name]] in terms of the rows: the row of that name when the
    version has one ([__proto__] included, read back as the prototype); else
    what the prototype chain gives. *)
Lemma get_property_rows (versionId : string) (s : Store) (name : string) :
  get_property (object_of versionId s) name
  = match state_of versionId s !! name with
    | Some row => V_row row
    | None =>
        if String.eqb name "__proto__" then V_other
        else inherited (state_of versionId s !! "__proto__") name
    end.
Proof.
  unfold get_property. rewrite object_of_own.
  destruct (index_fields_facts (fields_of versionId s)) as [_ [Hproto _]].
  fold (object_of versionId s) in Hproto. fold (state_of versionId s) in Hproto.
  rewrite Hproto.
  destruct (String.eqb_spec name "__proto__") as [-> | Hne].
  - destruct (state_of versionId s !! "__proto__"); reflexivity.
  - destruct (state_of versionId s !! name); reflexivity.
Qed.

Lemma fold_shown (entries : list (string * BusinessStateField)) (acc : gmap string StateEntry)
    (k : string) :
  NoDup (List.map fst entries) →
  fold_left (fun acc kv => <[fst kv := state_entry (snd kv)]> acc) entries acc !! k
  = match get_own k entries with
    | Some row => Some (state_entry row)
    | None => acc !! k
    end.
Proof.
  revert acc. induction entries as [| [k' v'] entries IH]; intros acc Hnd; simpl;
    [reflexivity |].
  apply NoDup_cons_In in Hnd as [Hk Hnd]. rewrite (IH _ Hnd).
  unfold get_own at 2. simpl. destruct (String.eqb_spec k' k) as [-> | Hne]; simpl.
  - rewrite (proj2 (get_own_None entries k) Hk). apply lookup_insert_eq.
  - fold (get_own k entries). destruct (get_own k entries); [reflexivity |].
    apply lookup_insert_ne. exact Hne.
Qed.

Lemma shown_fields_own (state : JsObject BusinessStateField) (k : string) :
  NoDup (List.map fst (js_own state)) →
  shown_fields state !! k = state_entry <$> get_own k (js_own state).
Proof.
  intros Hnd. unfold shown_fields.
  rewrite fold_shown by apply object_entries_NoDup, Hnd.
  rewrite object_entries_get by exact Hnd. rewrite lookup_empty.
  destruct (get_own k (js_own state)); reflexivity.
Qed.

(** The fields a read shows: the rows of the version under their names, all
    but a row named [__proto__]. *)
Lemma shown_fields_rows (versionId : string) (s : Store) (k : string) :
  shown_fields (object_of versionId s) !! k
  = if String.eqb k "__proto__" then None
    else state_entry <$> state_of versionId s !! k.
Proof.
  rewrite shown_fields_own by apply object_of_keys. rewrite object_of_own.
  destruct (String.eqb k "__proto__"); reflexivity.
Qed.

Lemma previous_object_rows (userId : string) (s : Store) (name : string) :
  get_property (previous_object userId s) name
  = match previous_state userId s !! name with
    | Some row => V_row row
    | None =>
        if String.eqb name "__proto__" then V_other
        else inherited (previous_state userId s !! "__proto__") name
    end.
Proof.
  unfold previous_object, previous_state.
  destruct (current_of userId s) as [cv |]; [apply get_property_rows |].
  rewrite !lookup_empty. unfold get_property. simpl.
  destruct (String.eqb name "__proto__"); reflexivity.
Qed.

(* ===================================================================== *)
(** ** The version table under the trigger *)
(* ===================================================================== *)

Section Trigger.
Variables (v : ContextVersion) (rows : list ContextVersion).
Hypothesis Hcur : cv_is_current v = true.
Hypothesis Hfresh : has_version (cv_id v) rows = false.

Lemma fresh_id (w : ContextVersion) : In w rows → String.eqb (cv_id w) (cv_id v) = false.
Proof.
  intros Hw. apply String.eqb_neq. intros E.
  assert (has_version (cv_id v) rows = true); [| congruence].
  apply has_version_In. eauto.
Qed.

(** After the trigger no row of the new row's owner is current. *)
Lemma enforce_clears_owner :
  List.filter (is_current_of (cv_user_id v)) (enforce_single_current_version v rows) = [].
Proof.
  unfold enforce_single_current_version. rewrite Hcur.
  apply filter_none. intros w' Hw'. apply in_map_iff in Hw' as [w [<- Hw]].
  rewrite (fresh_id w Hw). simpl. rewrite andb_true_r.
  unfold is_current_of.
  destruct (String.eqb (cv_user_id w) (cv_user_id v)) eqn:E; simpl.
  - destruct (cv_is_current w) eqn:C; simpl; [apply andb_false_r |].
    rewrite C. apply andb_false_r.
  - rewrite E. reflexivity.
Qed.

(** Rows of other owners are left as they are. *)
Lemma enforce_keeps_others (owner : string) :
  owner ≠ cv_user_id v →
  List.filter (is_current_of owner) (enforce_single_current_version v rows)
  = List.filter (is_current_of owner) rows.
Proof.
  intros Hne. unfold enforce_single_current_version. rewrite Hcur.
  clear Hfresh. induction rows as [| w l IH]; simpl; [reflexivity |].
  destruct (String.eqb (cv_user_id w) (cv_user_id v)) eqn:E; simpl.
  - apply String.eqb_eq in E.
    assert (Hw : ∀ b, is_current_of owner (set_is_current b w) = false).
    { intros b. unfold is_current_of. simpl.
      destruct (String.eqb_spec (cv_user_id w) owner); [congruence | reflexivity]. }
    assert (Hw' : is_current_of owner w = false).
    { unfold is_current_of.
      destruct (String.eqb_spec (cv_user_id w) owner); [congruence | reflexivity]. }
    rewrite Hw'. destruct (_ && _); [rewrite Hw | rewrite Hw']; exact IH.
  - rewrite IH. reflexivity.
Qed.

(** Every previously current row of the owner is still there, superseded. *)
Lemma enforce_supersedes (w : ContextVersion) :
  In w rows → is_current_of (cv_user_id v) w = true →
  In (set_is_current false w) (enforce_single_current_version v rows).
Proof.
  intros Hw Hc. unfold enforce_single_current_version. rewrite Hcur.
  apply in_map_iff. exists w. split; [| exact Hw].
  unfold is_current_of in Hc. apply andb_true_iff in Hc as [-> ->].
  rewrite (fresh_id w Hw). reflexivity.
Qed.

(** Nothing but [is_current] changes, and only on current rows of the owner. *)
Lemma enforce_rows (w' : ContextVersion) :
  In w' (enforce_single_current_version v rows) →
  ∃ w, In w rows
       ∧ (w' = w ∨ (w' = set_is_current false w ∧ is_current_of (cv_user_id v) w = true)).
Proof.
  unfold enforce_single_current_version. rewrite Hcur.
  intros H. apply in_map_iff in H as [w [<- Hw]]. exists w. split; [exact Hw |].
  unfold is_current_of.
  destruct (String.eqb (cv_user_id w) (cv_user_id v)); simpl; [| tauto].
  destruct (negb _); simpl; [| tauto].
  destruct (cv_is_current w); tauto.
Qed.

Lemma enforce_owners :
  List.map cv_user_id (enforce_single_current_version v rows) = List.map cv_user_id rows.
Proof.
  unfold enforce_single_current_version. rewrite Hcur. clear Hfresh.
  induction rows as [| w l IH]; simpl; [reflexivity |].
  rewrite IH. destruct (_ && _); reflexivity.
Qed.
End Trigger.


Lemma rollback_unfold (userId : string) (env : Env) (request : RollbackRequest) (s : Store) :
  rollback userId env request s =
    match version_by_id (rr_version_id request) s with
    | None => (s, inl (Error ("Version " ++ rr_version_id request ++ " not found")%string))
    | Some targetVersion =>
        commit userId env
          (rollback_request request targetVersion (object_of (rr_version_id request) s)) s
    end.
Proof.
  unfold rollback, getVersionById. unfold bind at 1. unfold get_store at 1.
  unfold bind at 1. unfold bind at 1. rewrite single_never_throws.
  unfold ret at 1. fold (version_by_id (rr_version_id request) s).
  destruct (version_by_id (rr_version_id request) s) as [tv |]; reflexivity.
Qed.

(** What a commit does to the version table: nothing, or the trigger and
    one new current row under a fresh id. *)
Lemma commit_versions (userId : string) (env : Env) (request : CommitRequest) (s : Store) :
  context_versions (fst (commit userId env request s)) = context_versions s
  ∨ (version_insertable (new_version userId env request s) s = true
     ∧ context_versions (fst (commit userId env request s))
       = enforce_single_current_version (new_version userId env request s)
           (context_versions s) ++ [new_version userId env request s]).
Proof.
  destruct (version_insertable (new_version userId env request s) s) eqn:Hv.
  - right. split; [reflexivity |]. rewrite (commit_after_insert _ _ _ _ Hv).
    destruct (bool_decide _); reflexivity.
  - left. destruct (commit_version_rejected _ _ _ _ Hv) as [m ->]. reflexivity.
Qed.

Lemma insertable_fresh (v : ContextVersion) (s : Store) :
  version_insertable v s = true → has_version (cv_id v) (context_versions s) = false.
Proof.
  unfold version_insertable. rewrite !andb_true_iff, negb_true_iff. tauto.
Qed.

Lemma single_current_empty : single_current [].
Proof. intros owner. left. intros w []. Qed.

Lemma single_current_insert (v : ContextVersion) (rows : list ContextVersion) :
  cv_is_current v = true → has_version (cv_id v) rows = false →
  single_current rows →
  single_current (enforce_single_current_version v rows ++ [v]).
Proof.
  intros Hcur Hfresh Hinv owner. rewrite List.filter_app.
  destruct (string_dec owner (cv_user_id v)) as [-> | Hne].
  - right. rewrite enforce_clears_owner by assumption. simpl.
    unfold is_current_of. rewrite String.eqb_refl, Hcur. reflexivity.
  - rewrite enforce_keeps_others by assumption. simpl.
    assert (is_current_of owner v = false) as ->.
    { unfold is_current_of. destruct (String.eqb_spec (cv_user_id v) owner); [congruence | reflexivity]. }
    rewrite app_nil_r. destruct (Hinv owner) as [Hnone | Hone]; [left | right; exact Hone].
    intros w Hw. apply in_app_iff in Hw as [Hw | [<- | []]]; [| congruence].
    apply (in_map cv_user_id) in Hw. rewrite enforce_owners in Hw by exact Hcur.
    apply in_map_iff in Hw as [w0 [<- Hw0]]. apply Hnone, Hw0.
Qed.

Lemma single_current_commit (userId : string) (env : Env) (request : CommitRequest)
    (s : Store) :
  single_current (context_versions s) →
  single_current (context_versions (fst (commit userId env request s))).
Proof.
  intros Hinv. destruct (commit_versions userId env request s) as [-> | [Hv ->]]; [exact Hinv |].
  apply single_current_insert; [reflexivity | | exact Hinv].
  apply (insertable_fresh _ _ Hv).
Qed.

Lemma single_current_step (s : Store) (op : Op) :
  single_current (context_versions s) → single_current (context_versions (step s op)).
Proof.
  intros Hinv. destruct op as [u env r | u env r]; simpl.
  - apply single_current_commit, Hinv.
  - rewrite rollback_unfold. destruct (version_by_id _ s); [| exact Hinv].
    apply single_current_commit, Hinv.
Qed.

Lemma single_current_run (ops : list Op) : single_current (context_versions (run ops)).
Proof.
  unfold run. generalize single_current_empty.
  change [] with (context_versions empty_store). generalize empty_store.
  induction ops as [| op ops IH]; intros s Hs; simpl; [exact Hs |].
  apply IH, single_current_step, Hs.
Qed.

Lemma currents_within (owner : string) (s : Store) :
  currents owner s = List.filter cv_is_current (versions_of owner s).
Proof.
  unfold currents, versions_of, is_current_of.
  induction (context_versions s) as [| w l IH]; simpl; [reflexivity |].
  destruct (String.eqb (cv_user_id w) owner); simpl; [| exact IH].
  destruct (cv_is_current w); simpl; congruence.
Qed.

(** After a commit that returns, the returned row is the owner's only
    current row; the rows that were current are kept, superseded; no other
    owner is touched. *)
Lemma commit_inr (userId : string) (env : Env) (request : CommitRequest)
    (s s' : Store) (v : ContextVersion) :
  commit userId env request s = (s', inr v) →
  version_insertable (new_version userId env request s) s = true
  ∧ s' = committed userId env request s
  ∧ v = new_version userId env request s.
Proof.
  intros Hc.
  destruct (version_insertable (new_version userId env request s) s) eqn:Hv.
  2:{ destruct (commit_version_rejected _ _ _ _ Hv) as [m E]. congruence. }
  rewrite (commit_after_insert _ _ _ _ Hv) in Hc.
  destruct (bool_decide _); [| discriminate]. injection Hc as <- <-. tauto.
Qed.

Lemma commit_currents (userId : string) (env : Env) (request : CommitRequest)
    (s s' : Store) (v : ContextVersion) :
  commit userId env request s = (s', inr v) →
  currents (cr_user_id request) s' = [v]
  ∧ cv_is_current v = true
  ∧ has_version (cv_id v) (context_versions s) = false
  ∧ (∀ w, In w (currents (cr_user_id request) s) →
          In (set_is_current false w) (context_versions s'))
  ∧ (∀ owner, owner ≠ cr_user_id request → currents owner s' = currents owner s).
Proof.
  intros Hc.
  destruct (version_insertable (new_version userId env request s) s) eqn:Hv.
  2:{ destruct (commit_version_rejected _ _ _ _ Hv) as [m E]. congruence. }
  rewrite (commit_after_insert _ _ _ _ Hv) in Hc.
  destruct (bool_decide _); [| discriminate]. injection Hc as <- <-.
  pose proof (insertable_fresh _ _ Hv) as Hfresh.
  set (nv := new_version userId env request s) in *.
  assert (Hcur : cv_is_current nv = true) by reflexivity.
  unfold currents, committed. simpl. fold nv.
  split; [| split; [exact Hcur | split; [exact Hfresh | split]]].
  - rewrite List.filter_app.
    change (cr_user_id request) with (cv_user_id nv).
    rewrite enforce_clears_owner by assumption. simpl.
    unfold is_current_of. rewrite String.eqb_refl, Hcur. reflexivity.
  - intros w Hw. apply filter_In in Hw as [Hw Hwc]. apply in_app_iff. left.
    apply enforce_supersedes; assumption.
  - intros owner Hne. rewrite List.filter_app.
    rewrite enforce_keeps_others by assumption. simpl.
    assert (is_current_of owner nv = false) as ->; [| apply app_nil_r].
    unfold is_current_of. simpl.
    destruct (String.eqb_spec (cr_user_id request) owner); [congruence | reflexivity].
Qed.


(* ===================================================================== *)
(** ** The key constraints hold along every history *)
(* ===================================================================== *)

Lemma store_ok_empty : store_ok empty_store.
Proof. split; simpl; [intros f [] | constructor]. Qed.

Lemma store_ok_with_version (v : ContextVersion) (s : Store) :
  store_ok s → store_ok (with_version v s).
Proof.
  intros [Hfk Hu]. split; [| exact Hu].
  intros f Hf. rewrite has_version_with. simpl in Hf. rewrite (Hfk f Hf). reflexivity.
Qed.

Lemma store_ok_commit (userId : string) (env : Env) (request : CommitRequest) (s : Store) :
  store_ok s → store_ok (fst (commit userId env request s)).
Proof.
  intros Hok.
  destruct (version_insertable (new_version userId env request s) s) eqn:Hv.
  2:{ destruct (commit_version_rejected _ _ _ _ Hv) as [m ->]. exact Hok. }
  rewrite (commit_after_insert _ _ _ _ Hv).
  destruct (bool_decide _) eqn:Hnd; simpl; [| apply store_ok_with_version, Hok].
  apply bool_decide_eq_true_1 in Hnd. split; [| exact Hnd].
  intros f Hf. simpl in Hf.
  change (context_versions (committed userId env request s))
    with (context_versions (with_version (new_version userId env request s) s)).
  apply in_app_iff in Hf as [Hf | Hf].
  - rewrite has_version_with, (ok_fields_fk _ Hok f Hf). reflexivity.
  - pose proof (new_state_records_fk userId env request s) as H.
    rewrite forallb_forall in H. apply H, Hf.
Qed.

Lemma store_ok_step (s : Store) (op : Op) : store_ok s → store_ok (step s op).
Proof.
  intros Hok. destruct op as [u env r | u env r]; simpl.
  - apply store_ok_commit, Hok.
  - rewrite rollback_unfold. destruct (version_by_id _ s); [| exact Hok].
    apply store_ok_commit, Hok.
Qed.

Lemma store_ok_run (ops : list Op) : store_ok (run ops).
Proof.
  unfold run. generalize store_ok_empty. generalize empty_store.
  induction ops as [| op ops IH]; intros s Hs; simpl; [exact Hs |].
  apply IH, store_ok_step, Hs.
Qed.


(* ===================================================================== *)
(** ** When a commit returns, and what it leaves behind *)
(* ===================================================================== *)

Lemma single_data_In {A} (rows : list A) (r : A) : data (single rows) = Some r → rows = [r].
Proof. destruct rows as [| x [| y rows]]; simpl; congruence. Qed.

Lemma current_of_In (userId : string) (s : Store) (cv : ContextVersion) :
  current_of userId s = Some cv → In cv (context_versions s).
Proof.
  intros H. apply single_data_In in H.
  assert (Hin : In cv (List.filter (is_current_of userId) (context_versions s))).
  { rewrite H. left. reflexivity. }
  apply filter_In in Hin. tauto.
Qed.

Lemma current_of_currents (userId : string) (s : Store) (v : ContextVersion) :
  currents userId s = [v] → current_of userId s = Some v.
Proof. unfold current_of, currents. intros ->. reflexivity. Qed.

(** The parent reference never blocks the insert: only the generated id
    and the hash have to be new. *)
Lemma insertable_new_version (userId : string) (env : Env) (request : CommitRequest)
    (s : Store) :
  version_insertable (new_version userId env request s) s
  = negb (has_version (db_uuid env) (context_versions s))
    && negb (has_hash (generateVersionHash (cr_user_id request) (cr_commit_message request)
                         (js_now env) (js_random env)) (context_versions s)).
Proof.
  unfold version_insertable. simpl.
  destruct (current_of userId s) as [cv |] eqn:Hcur; simpl; [| apply andb_true_r].
  assert (has_version (cv_id cv) (context_versions s) = true) as ->; [| apply andb_true_r].
  apply has_version_In. exists cv. split; [| reflexivity]. apply (current_of_In _ _ _ Hcur).
Qed.

Lemma commit_returns (userId : string) (env : Env) (request : CommitRequest) (s : Store) :
  store_ok s →
  version_insertable (new_version userId env request s) s = true →
  NoDup (List.map fu_field_name (cr_changes request)) →
  commit userId env request s
  = (committed userId env request s, inr (new_version userId env request s)).
Proof.
  intros Hok Hv Hnd. rewrite (commit_after_insert _ _ _ _ Hv).
  rewrite bool_decide_eq_true_2; [reflexivity |].
  apply new_state_records_keys; [exact Hok | apply (insertable_fresh _ _ Hv) | exact Hnd].
Qed.

Lemma commit_rejects_duplicates (userId : string) (env : Env) (request : CommitRequest)
    (s : Store) :
  store_ok s →
  version_insertable (new_version userId env request s) s = true →
  ¬ NoDup (List.map fu_field_name (cr_changes request)) →
  commit userId env request s
  = (with_version (new_version userId env request s) s,
     inl (Error ("Failed to insert state: duplicate key value violates unique constraint "
                       ++ quoted "unique_field_per_version")%string)).
Proof.
  intros Hok Hv Hnd. rewrite (commit_after_insert _ _ _ _ Hv).
  rewrite bool_decide_eq_false_2; [reflexivity |].
  intros H. apply Hnd.
  apply (new_state_records_keys userId env request s Hok (insertable_fresh _ _ Hv)), H.
Qed.

Lemma commit_returned (userId : string) (env : Env) (request : CommitRequest)
    (s s' : Store) (v : ContextVersion) :
  store_ok s →
  commit userId env request s = (s', inr v) →
  version_insertable (new_version userId env request s) s = true
  ∧ NoDup (List.map fu_field_name (cr_changes request))
  ∧ s' = committed userId env request s
  ∧ v = new_version userId env request s.
Proof.
  intros Hok Hc.
  destruct (version_insertable (new_version userId env request s) s) eqn:Hv.
  2:{ destruct (commit_version_rejected _ _ _ _ Hv) as [m E]. congruence. }
  rewrite (commit_after_insert _ _ _ _ Hv) in Hc.
  destruct (bool_decide _) eqn:Hnd; [| discriminate].
  apply bool_decide_eq_true_1 in Hnd. injection Hc as <- <-.
  split; [reflexivity |]. split; [| tauto].
  apply (new_state_records_keys userId env request s Hok (insertable_fresh _ _ Hv)), Hnd.
Qed.


Lemma state_of_committed_other (userId : string) (env : Env) (request : CommitRequest)
    (s : Store) (versionId : string) :
  versionId ≠ db_uuid env →
  state_of versionId (committed userId env request s) = state_of versionId s.
Proof.
  intros Hne. unfold state_of. rewrite fields_of_committed_other by exact Hne. reflexivity.
Qed.

Lemma commit_current (userId : string) (env : Env) (request : CommitRequest)
    (s s' : Store) (v : ContextVersion) :
  commit userId env request s = (s', inr v) →
  current_of (cr_user_id request) s' = Some v.
Proof.
  intros Hc. apply current_of_currents. apply (commit_currents _ _ _ _ _ _ Hc).
Qed.


Lemma with_version_In (v : ContextVersion) (s : Store) :
  In v (context_versions (with_version v s)).
Proof. simpl. apply in_app_iff. right. left. reflexivity. Qed.


(* ===================================================================== *)
(** ** rollback *)
(* ===================================================================== *)

Lemma object_of_entry (versionId : string) (s : Store) (k : string)
    (f : BusinessStateField) :
  In (k, f) (js_own (object_of versionId s))
  ↔ k ≠ "__proto__" ∧ state_of versionId s !! k = Some f.
Proof.
  split.
  - intros Hin. apply (get_own_unique _ _ _ (object_of_keys versionId s)) in Hin.
    rewrite object_of_own in Hin.
    destruct (String.eqb_spec k "__proto__"); [discriminate | tauto].
  - intros [Hk Hf]. apply get_own_In. rewrite object_of_own.
    destruct (String.eqb_spec k "__proto__"); [contradiction | exact Hf].
Qed.

Lemma object_of_names (versionId : string) (s : Store) :
  List.map fu_field_name (List.map rollback_change (object_values (object_of versionId s)))
  = List.map fst (object_entries (object_of versionId s)).
Proof.
  unfold object_values. rewrite !List.map_map. apply map_ext_in.
  intros [k f] Hin. simpl. apply object_entries_In, object_of_entry in Hin as [_ Hf].
  apply rows_by_name_name in Hf. tauto.
Qed.

(** The updates a rollback submits have distinct names. *)
Lemma rollback_names (versionId : string) (s : Store) :
  NoDup (List.map fu_field_name
           (List.map rollback_change (object_values (object_of versionId s)))).
Proof. rewrite object_of_names. apply object_entries_NoDup, object_of_keys. Qed.

(** They are the target's rows, all but a row named [__proto__]. *)
Lemma rollback_find (versionId : string) (s : Store) (n : string) :
  find (fun c => String.eqb (fu_field_name c) n)
    (List.map rollback_change (object_values (object_of versionId s)))
  = if String.eqb n "__proto__" then None
    else rollback_change <$> state_of versionId s !! n.
Proof.
  destruct (find _ _) as [c |] eqn:Hfind.
  - apply find_some in Hfind as [Hc Hn]. apply String.eqb_eq in Hn.
    apply in_map_iff in Hc as [f [<- Hf]]. apply object_values_In in Hf as [k Hk].
    apply object_of_entry in Hk as [Hk Hf]. simpl in Hn.
    pose proof (rows_by_name_name _ _ _ Hf) as [_ E]. rewrite E in Hn. subst k.
    destruct (String.eqb_spec n "__proto__"); [contradiction |]. rewrite Hf. reflexivity.
  - destruct (String.eqb_spec n "__proto__") as [| Hne]; [reflexivity |].
    destruct (state_of versionId s !! n) as [f |] eqn:Hn; [| reflexivity]. exfalso.
    assert (Hin : In (rollback_change f)
                    (List.map rollback_change (object_values (object_of versionId s)))).
    { apply in_map, object_values_In. exists n. apply object_of_entry. tauto. }
    apply (find_none _ _ Hfind) in Hin. simpl in Hin.
    pose proof (rows_by_name_name _ _ _ Hn) as [_ E].
    rewrite E, String.eqb_refl in Hin. discriminate.
Qed.

Lemma state_of_keys (versionId : string) (s : Store) (k : string) (f : BusinessStateField) :
  state_of versionId s !! k = Some f → bs_field_name f = k.
Proof. intros H. apply rows_by_name_name in H. tauto. Qed.


(* ===================================================================== *)
(** ** diff *)
(* ===================================================================== *)

(** The schema function fails on every call, and [diff] throws before it
    looks at either version. *)
Lemma diff_eq (now : Z) (A B : string) (s : Store) :
  diff now A B s
  = (s, inl (Error ("Failed to calculate diff: column reference " ++ quoted "field_name"
                    ++ " is ambiguous")%string)).
Proof. reflexivity. Qed.

(* ===================================================================== *)
(** ** getStateAtTime *)
(* ===================================================================== *)

Lemma insert_desc_head (v : ContextVersion) (sorted : list ContextVersion) :
  ∃ h tl, insert_desc v sorted = h :: tl
          ∧ (h = v ∨ head sorted = Some h)
          ∧ (cv_created_at v ≤ cv_created_at h)%Z
          ∧ (∀ h0, head sorted = Some h0 → (cv_created_at h0 ≤ cv_created_at h)%Z).
Proof.
  destruct sorted as [| w rest]; simpl.
  - exists v, []. repeat split; [tauto | lia | discriminate].
  - destruct (cv_created_at w <? cv_created_at v)%Z eqn:E.
    + apply Z.ltb_lt in E. exists v, (w :: rest).
      repeat split; [tauto | lia |]. intros h0 [= <-]. lia.
    + apply Z.ltb_ge in E. exists w, (insert_desc v rest).
      repeat split; [tauto | lia |]. intros h0 [= <-]. lia.
Qed.

(** The first row in descending [created_at] order is a latest row. *)
Lemma order_head (rows : list ContextVersion) :
  match order_created_at_desc rows with
  | [] => rows = []
  | v :: _ => In v rows ∧ ∀ w, In w rows → (cv_created_at w ≤ cv_created_at v)%Z
  end.
Proof.
  induction rows as [| x rows IH]; simpl; [reflexivity |].
  destruct (insert_desc_head x (order_created_at_desc rows)) as [h [tl [-> [Hh [Hx Hmax]]]]].
  destruct (order_created_at_desc rows) as [| v sorted].
  - subst rows. destruct Hh as [-> | [=]]. split; [left; reflexivity |].
    intros w [<- | []]. lia.
  - destruct IH as [Hv Hle]. specialize (Hmax v eq_refl). split.
    + destruct Hh as [-> | [= <-]]; [left; reflexivity | right; exact Hv].
    + intros w [<- | Hw]; [exact Hx |]. specialize (Hle w Hw). lia.
Qed.

Lemma versions_until_In (userId : string) (timestamp : Z) (s : Store) (v : ContextVersion) :
  In v (versions_until userId timestamp s)
  ↔ In v (context_versions s) ∧ cv_user_id v = userId ∧ (cv_created_at v ≤ timestamp)%Z.
Proof.
  unfold versions_until. rewrite filter_In, andb_true_iff, String.eqb_eq, Z.leb_le.
  reflexivity.
Qed.

Lemma getStateAtTime_eq (userId : string) (timestamp : Z) (s : Store) :
  getStateAtTime userId timestamp s
  = (s, inr (match order_created_at_desc (versions_until userId timestamp s) with
             | [] => None
             | V :: _ =>
                 Some {| st_version_id := cv_id V;
                         st_version_hash := cv_version_hash V;
                         st_commit_message := cv_commit_message V;
                         st_created_at := cv_created_at V;
                         st_fields := shown_fields (object_of (cv_id V) s) |}
             end)).
Proof.
  unfold getStateAtTime. unfold bind at 1. unfold get_store at 1.
  unfold bind at 1. rewrite single_never_throws.
  destruct (order_created_at_desc (versions_until userId timestamp s)) as [| V [| W rest]];
    reflexivity.
Qed.


Lemma falsy_values (v : Json) :
  truthy v = false ↔ In v [JNull; JBool false; JNum 0; JStr ""].
Proof.
  split.
  - destruct v as [| [|] | n | x | l | l]; simpl; try discriminate; try tauto.
    + rewrite negb_false_iff, Z.eqb_eq. intros ->. tauto.
    + rewrite negb_false_iff, String.eqb_eq. intros ->. tauto.
  - simpl. intros [<- | [<- | [<- | [<- | []]]]]; reflexivity.
Qed.

(* ===================================================================== *)
(** * The claims *)
(* ===================================================================== *)

Import Scenario.

(** C1 (single-current invariant, I1).  Along every history of commits and
    rollbacks from the empty store, every owner has at most one current
    version: none while the owner has no version row, exactly one as soon
    as the owner has one.  A commit that returns makes the returned, newly
    inserted row the only current row of the request's owner; every row
    of that owner that was current is kept with [is_current = false]; rows
    of other owners keep their flag. *)
Theorem single_current_invariant :
  (∀ (ops : list Op) (owner : string),
     (length (currents owner (run ops)) ≤ 1)%nat
     ∧ (versions_of owner (run ops) = [] → currents owner (run ops) = [])
     ∧ (versions_of owner (run ops) ≠ [] → length (currents owner (run ops)) = 1%nat))
  ∧ (∀ (userId : string) (env : Env) (request : CommitRequest) (s s' : Store)
       (v : ContextVersion),
       commit userId env request s = (s', inr v) →
       currents (cr_user_id request) s' = [v]
       ∧ cv_is_current v = true
       ∧ has_version (cv_id v) (context_versions s) = false
       ∧ (∀ w, In w (currents (cr_user_id request) s) →
               In (set_is_current false w) (context_versions s'))
       ∧ (∀ owner, owner ≠ cr_user_id request → currents owner s' = currents owner s)).
Proof.
  split; [| exact commit_currents].
  intros ops owner.
  assert (Hnone : versions_of owner (run ops) = [] → currents owner (run ops) = []).
  { intros H. rewrite currents_within, H. reflexivity. }
  destruct (single_current_run ops owner) as [Hno | Hone].
  - assert (Hv : versions_of owner (run ops) = []).
    { apply filter_none. intros w Hw. apply String.eqb_neq, Hno, Hw. }
    split; [rewrite (Hnone Hv); simpl; lia |]. split; [exact Hnone | congruence].
  - fold (currents owner (run ops)) in Hone. split; [lia |]. split; [exact Hnone | auto].
Qed.

Lemma single_current_invariant_witness :
  commit "u" env2 req2 s1 = (s2, inr (new_version "u" env2 req2 s1))
  ∧ currents "u" s2 = [new_version "u" env2 req2 s1]
  ∧ (∀ w, In w (currents "u" s1) → In (set_is_current false w) (context_versions s2))
  ∧ length (currents "u" (run [OpCommit "u" env1 req1; OpCommit "u" env2 req2])) = 1%nat.
Proof.
  assert (E : commit "u" env2 req2 s1 = (s2, inr (new_version "u" env2 req2 s1))).
  { vm_compute. reflexivity. }
  destruct (proj2 single_current_invariant "u" env2 req2 s1 s2
              (new_version "u" env2 req2 s1) E) as [H1 [_ [_ [H2 _]]]].
  split; [exact E |]. split; [exact H1 |]. split; [exact H2 |].
  apply (proj1 single_current_invariant [OpCommit "u" env1 req1; OpCommit "u" env2 req2] "u").
  vm_compute. discriminate.
Defined.

(** C2 (copy-forward correctness).  When the owner's current snapshot is
    [{a: 1, b: "x"}] and the generated id and hash are new, committing the
    single update [{a: 2}] returns a version that is the owner's current
    one, has the old current version as parent, and whose full field set is
    exactly [a] with value 2 (stamped with the commit's timestamp) and [b]
    with the parent's value, type, source and [updated_at]; exactly one
    change row is appended, for [a], of type [update], from 1 to 2. *)
Theorem copy_forward_correct :
  ∀ (env : Env) (request : CommitRequest) (s : Store) (parent : ContextVersion)
    (fa fb : BusinessStateField) (ty : FieldType) (src : Source),
    store_ok s →
    current_of (cr_user_id request) s = Some parent →
    state_of (cv_id parent) s = {[ "a" := fa; "b" := fb ]} →
    bs_field_value fa = JNum 1 →
    bs_field_value fb = JStr "x" →
    cr_changes request
    = [{| fu_field_name := "a"; fu_field_value := JNum 2;
          fu_field_type := ty; fu_source := src |}] →
    has_version (db_uuid env) (context_versions s) = false →
    has_hash (generateVersionHash (cr_user_id request) (cr_commit_message request)
                (js_now env) (js_random env)) (context_versions s) = false →
    ∃ s' v,
      commit (cr_user_id request) env request s = (s', inr v)
      ∧ current_of (cr_user_id request) s' = Some v
      ∧ cv_parent_version_id v = Some (cv_id parent)
      ∧ state_of (cv_id v) s'
        = {[ "a" := {| bs_version_id := cv_id v; bs_field_name := "a";
                       bs_field_value := JNum 2; bs_field_type := ty;
                       bs_source := src; bs_updated_at := js_now env |};
             "b" := {| bs_version_id := cv_id v; bs_field_name := "b";
                       bs_field_value := JStr "x"; bs_field_type := bs_field_type fb;
                       bs_source := bs_source fb; bs_updated_at := bs_updated_at fb |} ]}
      ∧ context_changes s'
        = context_changes s
          ++ [{| cc_version_id := cv_id v; cc_field_name := "a";
                 cc_old_value := JNum 1; cc_new_value := JNum 2;
                 cc_change_type := CT_update; cc_source := src;
                 cc_created_at := js_now env |}].
Proof.
  intros env request s parent fa fb ty src Hok Hcur Hstate Ha Hb Hchanges Hid Hhash.
  set (u := cr_user_id request) in *.
  assert (Hv : version_insertable (new_version u env request s) s = true).
  { rewrite insertable_new_version. fold u. rewrite Hid, Hhash. reflexivity. }
  assert (Hnd : NoDup (List.map fu_field_name (cr_changes request))).
  { rewrite Hchanges. simpl. apply NoDup_cons_In. split; [intros [] | constructor]. }
  pose proof (commit_returns u env request s Hok Hv Hnd) as Hc.
  exists (committed u env request s), (new_version u env request s).
  split; [exact Hc |]. split; [apply (commit_current _ _ _ _ _ _ Hc) |].
  assert (Hprev : previous_state u s = {[ "a" := fa; "b" := fb ]}).
  { unfold previous_state. rewrite Hcur. exact Hstate. }
  split; [simpl; rewrite Hcur; reflexivity |]. split.
  - apply map_eq. intros n. cbn [cv_id new_version].
    rewrite (committed_state u env request s Hok Hid n Hnd).
    rewrite Hchanges, Hprev. cbn [find fu_field_name cv_id new_version].
    destruct (String.eqb_spec "a" n) as [<- | Hna].
    + rewrite lookup_insert_eq. reflexivity.
    + rewrite !lookup_insert_ne by exact Hna.
      destruct (String.eqb_spec "b" n) as [<- | Hnb].
      * rewrite !lookup_singleton_eq. simpl. unfold copy_field. rewrite Hb.
        assert (bs_field_name fb = "b") as ->; [| reflexivity].
        assert (E : state_of (cv_id parent) s !! "b" = Some fb).
        { rewrite Hstate. rewrite lookup_insert_ne by discriminate. apply lookup_singleton_eq. }
        apply rows_by_name_name in E. tauto.
      * rewrite !lookup_singleton_ne by exact Hnb. reflexivity.
  - simpl. f_equal. unfold new_change_records. rewrite Hchanges. simpl.
    unfold change_record. simpl. rewrite previous_object_rows, Hprev, lookup_insert_eq.
    simpl. rewrite Ha. reflexivity.
Qed.

Lemma copy_forward_correct_witness :
  ∃ s' v,
    commit "u" env2 req2 s1 = (s', inr v)
    ∧ current_of "u" s' = Some v
    ∧ cv_parent_version_id v = Some (db_uuid env1)
    ∧ state_of (cv_id v) s'
      = {[ "a" := {| bs_version_id := cv_id v; bs_field_name := "a";
                     bs_field_value := JNum 2; bs_field_type := FT_number;
                     bs_source := api_crm; bs_updated_at := js_now env2 |};
           "b" := {| bs_version_id := cv_id v; bs_field_name := "b";
                     bs_field_value := JStr "x"; bs_field_type := FT_text;
                     bs_source := api_crm; bs_updated_at := js_now env1 |} ]}
    ∧ context_changes s'
      = context_changes s1
        ++ [{| cc_version_id := cv_id v; cc_field_name := "a";
               cc_old_value := JNum 1; cc_new_value := JNum 2;
               cc_change_type := CT_update; cc_source := api_crm;
               cc_created_at := js_now env2 |}].
Proof.
  apply (copy_forward_correct env2 req2 s1 (new_version "u" env1 req1 empty_store)
           (state_record (db_uuid env1) (js_now env1) (update "a" (JNum 1) FT_number))
           (state_record (db_uuid env1) (js_now env1) (update "b" (JStr "x") FT_text))
           FT_number api_crm).
  - apply store_ok_commit, store_ok_empty.
  - vm_compute. reflexivity.
  - vm_compute. reflexivity.
  - reflexivity.
  - reflexivity.
  - reflexivity.
  - vm_compute. reflexivity.
  - vm_compute. reflexivity.
Defined.

(** C3 (rollback keeps what the target lacks).  After the commits
    [{a: 1, b: x}], [{a: 2}] and [{c: 0}], rolling back to the first
    version returns a new current version whose fields are [a = 1],
    [b = x] and [c = 0], while the target's are [a = 1] and [b = x]: the
    field [c] of the version that was current is carried forward, so the
    state read after the rollback is not the target's. *)
Theorem rollback_keeps_later_fields :
  (∃ s' v,
     rollback "u" env4 rollback_to_first s3 = (s', inr v)
     ∧ current_of "u" s' = Some v
     ∧ cv_id v = db_uuid env4
     ∧ values_of (cv_id v) s' = {[ "a" := JNum 1; "b" := JStr "x"; "c" := JNum 0 ]}
     ∧ values_of (rr_version_id rollback_to_first) s3 = {[ "a" := JNum 1; "b" := JStr "x" ]}
     ∧ get_current (Some "u") s'
       = (s', Current200 {| vi_id := cv_id v; vi_hash := cv_version_hash v;
                            vi_message := cv_commit_message v;
                            vi_created_at := cv_created_at v;
                            vi_author := cv_author v; vi_tags := cv_tags v |}
                {[ "a" := {| se_value := JNum 1; se_type := FT_number;
                             se_source := manual; se_updated_at := js_now env4 |};
                   "b" := {| se_value := JStr "x"; se_type := FT_text;
                             se_source := manual; se_updated_at := js_now env4 |};
                   "c" := {| se_value := JNum 0; se_type := FT_number;
                             se_source := api_crm; se_updated_at := js_now env3 |} ]}))
  ∧ ¬ rollback_restores "u" env4 rollback_to_first s3.
Proof.
  assert (E : rollback "u" env4 rollback_to_first s3
              = (fst (rollback "u" env4 rollback_to_first s3),
                 inr (new_version "u" env4
                        (rollback_request rollback_to_first
                           (set_is_current false (new_version "u" env1 req1 empty_store))
                           (object_of (db_uuid env1) s3)) s3))).
  { vm_compute. reflexivity. }
  split.
  - eexists _, _. split; [exact E |].
    split; [vm_compute; reflexivity |]. split; [reflexivity |].
    split; [vm_compute; reflexivity |]. split; vm_compute; reflexivity.
  - intros H. destruct (H _ _ E) as [cur [Hcur Hvals]].
    vm_compute in Hcur. injection Hcur as <-.
    apply (f_equal (lookup "c")) in Hvals. vm_compute in Hvals. discriminate.
Qed.

(** C4 (no validation of the update list).  Neither [commit] nor the
    route [POST /api/context/commit] checks the update list for emptiness
    or repeated names.  With an empty list the commit returns and the route
    answers 201: the new version is the owner's current one, it carries the
    parent's fields, copied, and no change row is appended.  With a
    repeated field name the field insert is rejected by
    [unique_field_per_version]: [commit] throws [Failed to insert state]
    with the message of the store, the route answers 500
    [Failed to create commit] with that text, and no field or change row is
    added.  The route answers 400 [Missing required fields] exactly when
    [user_id] or [commit_message] is missing or empty or [changes] is
    missing. *)
Theorem commit_without_validation :
  ∀ (env : Env) (owner message : string) (changes : list FieldUpdate)
    (tags : option (list string)) (author : option string) (s : Store),
    let request := {| cr_user_id := owner; cr_commit_message := message;
                      cr_changes := changes; cr_tags := tags; cr_author := author |} in
    let body := {| body_user_id := Some owner; body_commit_message := Some message;
                   body_changes := Some changes; body_tags := tags;
                   body_author := author |} in
    store_ok s →
    owner ≠ "" → message ≠ "" →
    version_insertable (new_version owner env request s) s = true →
    (changes = [] →
       commit owner env request s
       = (committed owner env request s, inr (new_version owner env request s))
       ∧ post_commit env body s
         = (committed owner env request s,
            Http201 {| vs_id := db_uuid env;
                       vs_hash := generateVersionHash owner message (js_now env)
                                    (js_random env);
                       vs_message := message;
                       vs_created_at := db_now env |})
       ∧ current_of owner (committed owner env request s)
         = Some (new_version owner env request s)
       ∧ context_changes (committed owner env request s) = context_changes s
       ∧ ∀ n, state_of (db_uuid env) (committed owner env request s) !! n
              = copy_field (db_uuid env) <$> previous_state owner s !! n)
    ∧ (¬ NoDup (List.map fu_field_name changes) →
       ∃ s',
         commit owner env request s
         = (s', inl (Error ("Failed to insert state: duplicate key value violates unique constraint "
                            ++ quoted "unique_field_per_version")%string))
         ∧ post_commit env body s
           = (s', Http500 "Failed to create commit"
                    ("Failed to insert state: duplicate key value violates unique constraint "
                     ++ quoted "unique_field_per_version")%string)
         ∧ business_state s' = business_state s
         ∧ context_changes s' = context_changes s)
    ∧ (∀ body',
         post_commit env body' s = (s, Http400 "Missing required fields")
         ↔ missing (body_user_id body') = true
           ∨ missing (body_commit_message body') = true
           ∨ body_changes body' = None).
Proof.
  intros env owner message changes tags author s request body Hok Howner Hmessage Hv.
  assert (Hroute : post_commit env body s
                   = match commit owner env request s with
                     | (s', inr version) =>
                         (s', Http201 {| vs_id := cv_id version;
                                         vs_hash := cv_version_hash version;
                                         vs_message := cv_commit_message version;
                                         vs_created_at := cv_created_at version |})
                     | (s', inl (Error msg)) => (s', Http500 "Failed to create commit" msg)
                     end).
  { unfold post_commit, body. cbn [body_changes body_user_id body_commit_message missing].
    apply String.eqb_neq in Howner, Hmessage. rewrite Howner, Hmessage. reflexivity. }
  split; [| split].
  - intros Hempty.
    assert (Hnd : NoDup (List.map fu_field_name (cr_changes request))).
    { unfold request. cbn [cr_changes]. rewrite Hempty. constructor. }
    pose proof (commit_returns owner env request s Hok Hv Hnd) as Hc.
    split; [exact Hc |].
    split; [rewrite Hroute, Hc; reflexivity |].
    split; [apply (commit_current owner env request s _ _ Hc) |].
    split.
    + unfold committed, new_change_records. simpl. rewrite Hempty. apply app_nil_r.
    + intros n. rewrite (committed_state _ _ _ _ Hok (insertable_fresh _ _ Hv) n Hnd).
      unfold request. cbn [cr_changes]. rewrite Hempty. reflexivity.
  - intros Hdup.
    pose proof (commit_rejects_duplicates owner env request s Hok Hv Hdup) as Hc.
    exists (with_version (new_version owner env request s) s).
    split; [exact Hc |]. split; [rewrite Hroute, Hc; reflexivity |].
    split; reflexivity.
  - intros body'. unfold post_commit.
    destruct (body_changes body') as [changes' |]; [| tauto].
    destruct (missing (body_user_id body')); [simpl; tauto |].
    destruct (missing (body_commit_message body')); [simpl; tauto |]. simpl.
    split; [| intros [H | [H | H]]; discriminate H].
    clear Hroute.
    destruct (commit _ env _ s) as [s' [[msg] | version]]; intros H; discriminate H.
Qed.

Lemma commit_without_validation_witness :
  (∃ s',
     commit "u" env2
       {| cr_user_id := "u"; cr_commit_message := "twice";
          cr_changes := [update "a" (JNum 1) FT_number; update "a" (JNum 2) FT_number];
          cr_tags := None; cr_author := None |} s1
     = (s', inl (Error ("Failed to insert state: duplicate key value violates unique constraint "
                        ++ quoted "unique_field_per_version")%string))
     ∧ post_commit env2
         {| body_user_id := Some "u"; body_commit_message := Some "twice";
            body_changes := Some [update "a" (JNum 1) FT_number;
                                  update "a" (JNum 2) FT_number];
            body_tags := None; body_author := None |} s1
       = (s', Http500 "Failed to create commit"
                ("Failed to insert state: duplicate key value violates unique constraint "
                 ++ quoted "unique_field_per_version")%string)
     ∧ business_state s' = business_state s1
     ∧ context_changes s' = context_changes s1)
  ∧ ("u" ≠ "" ∧ "twice" ≠ "").
Proof.
  assert (Hv : version_insertable (new_version "u" env2 req_twice s1) s1 = true).
  { vm_compute. reflexivity. }
  assert (Hdup : ¬ NoDup (List.map fu_field_name
                            [update "a" (JNum 1) FT_number; update "a" (JNum 2) FT_number])).
  { simpl. intros H. apply NoDup_cons_In in H as [H _]. apply H. left. reflexivity. }
  assert (Hu : "u" ≠ "") by discriminate.
  assert (Hm : "twice" ≠ "") by discriminate.
  split; [| split; assumption].
  exact (proj1 (proj2 (commit_without_validation env2 "u" "twice"
                         [update "a" (JNum 1) FT_number; update "a" (JNum 2) FT_number]
                         None None s1 (store_ok_commit _ _ _ _ store_ok_empty) Hu Hm Hv))
           Hdup).
Defined.

Lemma commit_validation_counterexample :
  ¬ commit_validates "u" env1 req_nothing empty_store
  ∧ ¬ commit_validates "u" env2 req_twice s1.
Proof.
  split; intros H.
  - destruct H as [e He]; [left; reflexivity |]. vm_compute in He. discriminate.
  - destruct H as [e He].
    + right. simpl. intros H. apply NoDup_cons_In in H as [H _]. apply H. left. reflexivity.
    + vm_compute in He. discriminate.
Qed.

(** The route lets an empty update list through: 201, one version row. *)
Example post_commit_empty_updates :
  ∃ s' v, post_commit env1
            {| body_user_id := Some "u"; body_commit_message := Some "nothing";
               body_changes := Some []; body_tags := None; body_author := None |}
            empty_store = (s', Http201 v)
          ∧ length (context_versions s') = 1%nat.
Proof. eexists _, _. vm_compute. split; reflexivity. Qed.

(** C5 (temporal equivalence).  [getStateAtTime owner T] never throws.
    Either the owner has no version with [created_at ≤ T] and the result is
    [null], or the result is built from a version [V] of the owner with
    [created_at ≤ T] that no other such version of the owner is later than:
    it carries [V]'s id, hash, message and creation time, and its fields are
    those of the state [getVersionState V] returns, name by name, each with
    the row's value, type, source and update time.  In terms of the table,
    these are the field rows of [V], all but a row named [__proto__], which
    neither [getVersionState] nor [getStateAtTime] shows. *)
Theorem temporal_equivalence :
  ∀ (owner : string) (T : Z) (s : Store),
    ((∀ W, In W (context_versions s) → cv_user_id W = owner → ¬ (cv_created_at W ≤ T)%Z)
     ∧ getStateAtTime owner T s = (s, inr None))
    ∨ (∃ V state fields,
         In V (context_versions s)
         ∧ cv_user_id V = owner
         ∧ (cv_created_at V ≤ T)%Z
         ∧ (∀ W, In W (context_versions s) → cv_user_id W = owner →
                 (cv_created_at W ≤ T)%Z → (cv_created_at W ≤ cv_created_at V)%Z)
         ∧ getVersionState (cv_id V) s = (s, inr state)
         ∧ getStateAtTime owner T s
           = (s, inr (Some {| st_version_id := cv_id V;
                              st_version_hash := cv_version_hash V;
                              st_commit_message := cv_commit_message V;
                              st_created_at := cv_created_at V;
                              st_fields := fields |}))
         ∧ (∀ n, fields !! n
                 = match get_own n (js_own state) with
                   | Some row => Some {| se_value := bs_field_value row;
                                         se_type := bs_field_type row;
                                         se_source := bs_source row;
                                         se_updated_at := bs_updated_at row |}
                   | None => None
                   end)
         ∧ (∀ n, fields !! n
                 = if String.eqb n "__proto__" then None
                   else match state_of (cv_id V) s !! n with
                        | Some row => Some {| se_value := bs_field_value row;
                                              se_type := bs_field_type row;
                                              se_source := bs_source row;
                                              se_updated_at := bs_updated_at row |}
                        | None => None
                        end)).
Proof.
  intros owner T s. rewrite getStateAtTime_eq.
  pose proof (order_head (versions_until owner T s)) as Hhead.
  destruct (order_created_at_desc (versions_until owner T s)) as [| V rest].
  - left. split; [| reflexivity].
    intros W HW Hu Ht.
    assert (Hin : In W (versions_until owner T s)) by (apply versions_until_In; tauto).
    rewrite Hhead in Hin. destruct Hin.
  - right. destruct Hhead as [HV Hmax]. apply versions_until_In in HV as [HV [Hu Ht]].
    exists V, (object_of (cv_id V) s), (shown_fields (object_of (cv_id V) s)).
    split; [exact HV |]. split; [exact Hu |]. split; [exact Ht |].
    split; [intros W HW HWu HWt; apply Hmax, versions_until_In; tauto |].
    split; [reflexivity |]. split; [reflexivity |]. split.
    + intros n. rewrite shown_fields_own by apply object_of_keys.
      destruct (get_own n (js_own (object_of (cv_id V) s))); reflexivity.
    + intros n. rewrite shown_fields_rows.
      destruct (String.eqb n "__proto__"); [reflexivity |].
      destruct (state_of (cv_id V) s !! n); reflexivity.
Qed.

(** Between the two commits the first version is read; before the first,
    nothing. *)
Example temporal_scenario :
  (∃ st, snd (getStateAtTime "u" 1700000030000 s2) = inr (Some st)
         ∧ st_version_id st = db_uuid env1
         ∧ se_value <$> st_fields st !! "a" = Some (JNum 1))
  ∧ (∃ st, snd (getStateAtTime "u" 1700000090000 s2) = inr (Some st)
           ∧ st_version_id st = db_uuid env2
           ∧ se_value <$> st_fields st !! "a" = Some (JNum 2))
  ∧ snd (getStateAtTime "u" 1600000000000 s2) = inr None.
Proof.
  split; [| split]; [eexists; vm_compute; repeat split ..| vm_compute; reflexivity].
Qed.

(** C6 ([getCurrentVersion] with several current rows).  The method never
    throws on what [.single()] answers.  When the store holds more than one
    current row for the owner, the PGRST116 answer is let through and the
    result is [null], the very result of an owner without any version. *)
Theorem getCurrent_many_rows_is_not_found :
  ∀ (owner : string) (s : Store),
    (∃ r, getCurrentVersion owner s = (s, inr r))
    ∧ ((1 < length (currents owner s))%nat →
       getCurrentVersion owner s = (s, inr None)
       ∧ snd (getCurrentVersion owner s) = snd (getCurrentVersion owner empty_store)).
Proof.
  intros owner s. rewrite !getCurrentVersion_eq. split; [eauto |].
  intros Hmany. unfold current_of. fold (currents owner s).
  destruct (currents owner s) as [| v [| w rows]]; simpl in Hmany; try lia.
  split; reflexivity.
Qed.

Lemma getCurrent_many_rows_is_not_found_witness :
  getCurrentVersion "u" two_current_rows = (two_current_rows, inr None)
  ∧ snd (getCurrentVersion "u" two_current_rows) = snd (getCurrentVersion "u" empty_store).
Proof.
  apply (getCurrent_many_rows_is_not_found "u" two_current_rows). simpl. lia.
Defined.

Lemma getCurrent_consistency_counterexample :
  ¬ getCurrent_checks_consistency "u" two_current_rows.
Proof.
  intros H. destruct H as [e He]; [simpl; lia |]. vm_compute in He. discriminate.
Qed.

(** C7 (diff never classifies).  Whatever the two version ids and the
    store, the call of [calculate_version_diff] is answered with the error
    [column reference "field_name" is ambiguous], and [diff] throws
    [Failed to calculate diff] with that message, leaving the store as it
    is: it returns no diff, so no field is reported as added, removed,
    modified or unchanged. *)
Theorem diff_never_classifies :
  ∀ (now : Z) (A B : string) (s : Store),
    calculate_version_diff A B s
    = (s, inr {| data := None;
                 error := Some {| code := "42702";
                                  message := "column reference " ++ quoted "field_name"
                                             ++ " is ambiguous" |} |})
    ∧ diff now A B s
      = (s, inl (Error ("Failed to calculate diff: column reference "
                        ++ quoted "field_name" ++ " is ambiguous")))
    ∧ ∀ s' d, diff now A B s ≠ (s', inr d).
Proof.
  intros now A B s. split; [reflexivity |]. split; [apply diff_eq |].
  intros s' d. rewrite diff_eq. discriminate.
Qed.

(** The versions of the running example: the error is the same in either
    direction. *)
Example diff_scenario :
  snd (diff 0 (db_uuid env1) (db_uuid env2) s2)
  = inl (Error ("Failed to calculate diff: column reference " ++ quoted "field_name"
                ++ " is ambiguous"))
  ∧ snd (diff 0 (db_uuid env2) (db_uuid env1) s2)
    = snd (diff 0 (db_uuid env1) (db_uuid env2) s2).
Proof. split; reflexivity. Qed.


Lemma string_length_app (a b : string) :
  String.length (a ++ b) = (String.length a + String.length b)%nat.
Proof. induction a as [| c a IH]; simpl; [reflexivity | rewrite IH; reflexivity]. Qed.

Lemma hex_length (n : nat) (x : Z) : String.length (Sha1.hex n x) = n.
Proof. induction n as [| n IH]; simpl; [reflexivity | rewrite IH; reflexivity]. Qed.

Lemma hex_digit_In (x : Z) :
  In (Sha1.hex_digit x) (list_ascii_of_string "0123456789abcdef").
Proof.
  unfold Sha1.hex_digit.
  destruct (nth_in_or_default (Z.to_nat x) (list_ascii_of_string "0123456789abcdef")
              "0"%char) as [H | ->]; [exact H | left; reflexivity].
Qed.

Lemma hex_chars (n : nat) (x : Z) (c : ascii) :
  In c (list_ascii_of_string (Sha1.hex n x)) →
  In c (list_ascii_of_string "0123456789abcdef").
Proof.
  induction n as [| n IH]; simpl; [tauto |].
  intros [<- | H]; [apply hex_digit_In | apply IH, H].
Qed.

Lemma list_ascii_app (a b : string) :
  list_ascii_of_string (a ++ b) = list_ascii_of_string a ++ list_ascii_of_string b.
Proof. induction a as [| c a IH]; simpl; [reflexivity | rewrite IH; reflexivity]. Qed.

Lemma digest_hex_shape (content : string) :
  String.length (Sha1.digest_hex content) = 40%nat
  ∧ ∀ c, In c (list_ascii_of_string (Sha1.digest_hex content)) →
         In c (list_ascii_of_string "0123456789abcdef").
Proof.
  unfold Sha1.digest_hex.
  destruct (Sha1.blocks _ Sha1.init _) as [[[[h0 h1] h2] h3] h4]. split.
  - rewrite !string_length_app, !hex_length. reflexivity.
  - intros c. rewrite !list_ascii_app, !in_app_iff.
    intros [H | [H | [H | [H | H]]]]; apply (hex_chars _ _ _ H).
Qed.

(** C9 (what the version hash depends on).  The hash of a version that
    [commit] returns is the SHA-1 digest, forty hexadecimal digits, of the
    request's owner, its message, the ISO form of the client timestamp taken
    in [commit] and the text of the [Math.random()] draw, concatenated.  It
    depends on nothing else: two commits that return, whatever their
    stores, engines, update lists, tags, authors and database times, give
    their versions the same hash when owner, message, client timestamp and
    draw agree. *)
Theorem hash_fixed_by_content :
  ∀ (userId userId' : string) (env env' : Env) (request request' : CommitRequest)
    (s s' t t' : Store) (v v' : ContextVersion),
    commit userId env request s = (t, inr v) →
    commit userId' env' request' s' = (t', inr v') →
    cr_user_id request = cr_user_id request' →
    cr_commit_message request = cr_commit_message request' →
    js_now env = js_now env' →
    js_random env = js_random env' →
    cv_version_hash v = cv_version_hash v'
    ∧ cv_version_hash v
      = Sha1.digest_hex (cr_user_id request ++ cr_commit_message request
                         ++ IsoDate.toISOString (js_now env) ++ js_random env)
    ∧ String.length (cv_version_hash v) = 40%nat
    ∧ ∀ c, In c (list_ascii_of_string (cv_version_hash v)) →
           In c (list_ascii_of_string "0123456789abcdef").
Proof.
  intros userId userId' env env' request request' s s' t t' v v' Hc Hc' Hu Hm Hn Hr.
  apply commit_inr in Hc as [_ [_ ->]]. apply commit_inr in Hc' as [_ [_ ->]].
  cbn [cv_version_hash new_version]. unfold generateVersionHash, hash_content.
  split; [rewrite Hu, Hm, Hn, Hr; reflexivity |]. split; [reflexivity |].
  apply digest_hex_shape.
Qed.

Lemma hash_fixed_by_content_witness :
  ∃ t v t' v',
    commit "u" env1 req1 empty_store = (t, inr v)
    ∧ commit "w" {| js_now := 1700000000000; js_random := "0.5502331449807318";
                    db_uuid := "55555555-5555-4555-8555-555555555555";
                    db_now := 1700000000999 |}
        {| cr_user_id := "u"; cr_commit_message := "first";
           cr_changes := [update "z" JNull FT_text];
           cr_tags := Some ["t"]; cr_author := Some "someone" |}
        (fst (commit "u" env2 req2 empty_store))
      = (t', inr v')
    ∧ cv_version_hash v = cv_version_hash v'
    ∧ String.length (cv_version_hash v) = 40%nat.
Proof.
  assert (E : commit "u" env1 req1 empty_store
              = (fst (commit "u" env1 req1 empty_store),
                 inr (new_version "u" env1 req1 empty_store))).
  { vm_compute. reflexivity. }
  assert (E' : commit "w" {| js_now := 1700000000000; js_random := "0.5502331449807318";
                             db_uuid := "55555555-5555-4555-8555-555555555555";
                             db_now := 1700000000999 |}
                 {| cr_user_id := "u"; cr_commit_message := "first";
                    cr_changes := [update "z" JNull FT_text];
                    cr_tags := Some ["t"]; cr_author := Some "someone" |}
        (fst (commit "u" env2 req2 empty_store))
               = (fst (commit "w" {| js_now := 1700000000000;
                                     js_random := "0.5502331449807318";
                                     db_uuid := "55555555-5555-4555-8555-555555555555";
                                     db_now := 1700000000999 |}
                         {| cr_user_id := "u"; cr_commit_message := "first";
                            cr_changes := [update "z" JNull FT_text];
                            cr_tags := Some ["t"]; cr_author := Some "someone" |}
        (fst (commit "u" env2 req2 empty_store))),
                  inr (new_version "w"
                         {| js_now := 1700000000000; js_random := "0.5502331449807318";
                            db_uuid := "55555555-5555-4555-8555-555555555555";
                            db_now := 1700000000999 |}
                         {| cr_user_id := "u"; cr_commit_message := "first";
                            cr_changes := [update "z" JNull FT_text];
                            cr_tags := Some ["t"]; cr_author := Some "someone" |}
        (fst (commit "u" env2 req2 empty_store))))).
  { vm_compute. reflexivity. }
  destruct (hash_fixed_by_content _ _ _ _ _ _ _ _ _ _ _ _ E E' eq_refl eq_refl eq_refl eq_refl)
    as [H1 [_ [H3 _]]].
  eexists _, _, _, _. split; [exact E |]. split; [exact E' |]. split; [exact H1 | exact H3].
Defined.

Lemma hash_determinism_counterexample : ¬ hash_fixed_by_owner_message_time.
Proof.
  intros H.
  specialize (H "u" "first" 1700000000000%Z "0.5502331449807318" "0.1738212803988452").
  vm_compute in H. discriminate.
Qed.

(** C10 (falsy old values in the change log).  When a commit returns and the
    parent snapshot holds an updated field whose stored value is [null],
    [false], [0] or the empty string, the change row appended for that
    update records [old_value = null] and [change_type = update]. *)
Theorem falsy_old_value_logged_as_null :
  ∀ (userId : string) (env : Env) (request : CommitRequest) (s s' : Store)
    (v : ContextVersion) (change : FieldUpdate) (f : BusinessStateField),
    commit userId env request s = (s', inr v) →
    In change (cr_changes request) →
    previous_state userId s !! fu_field_name change = Some f →
    In (bs_field_value f) [JNull; JBool false; JNum 0; JStr ""] →
    ∃ row,
      context_changes s'
      = context_changes s
        ++ List.map (change_record (cv_id v) (js_now env) (previous_object userId s))
             (cr_changes request)
      ∧ row = change_record (cv_id v) (js_now env) (previous_object userId s) change
      ∧ In row (context_changes s')
      ∧ cc_field_name row = fu_field_name change
      ∧ cc_new_value row = fu_field_value change
      ∧ cc_old_value row = JNull
      ∧ cc_change_type row = CT_update.
Proof.
  intros userId env request s s' v change f Hc Hin Hprev Hfalsy.
  exists (change_record (cv_id v) (js_now env) (previous_object userId s) change).
  assert (Hs' : s' = committed userId env request s ∧ v = new_version userId env request s).
  { destruct (version_insertable (new_version userId env request s) s) eqn:Hv.
    2:{ destruct (commit_version_rejected _ _ _ _ Hv) as [m E]. congruence. }
    rewrite (commit_after_insert _ _ _ _ Hv) in Hc.
    destruct (bool_decide _); [| discriminate]. injection Hc as <- <-. tauto. }
  destruct Hs' as [-> ->].
  split; [reflexivity |]. split; [reflexivity |].
  split; [simpl; apply in_app_iff; right; apply in_map_iff; exists change; tauto |].
  split; [reflexivity |]. split; [reflexivity |].
  unfold change_record. simpl. rewrite previous_object_rows, Hprev. simpl.
  apply falsy_values in Hfalsy. rewrite Hfalsy. tauto.
Qed.

Lemma falsy_old_value_logged_as_null_witness :
  ∃ row,
    In row (context_changes (fst (commit "u" env4 req4 s3)))
    ∧ cc_field_name row = "c"
    ∧ cc_new_value row = JNum 5
    ∧ cc_old_value row = JNull
    ∧ cc_change_type row = CT_update.
Proof.
  destruct (falsy_old_value_logged_as_null "u" env4 req4 s3
              (fst (commit "u" env4 req4 s3)) (new_version "u" env4 req4 s3)
              (update "c" (JNum 5) FT_number)
              (state_record (db_uuid env3) (js_now env3) (update "c" (JNum 0) FT_number)))
    as [row [_ [_ [Hin [Hn [Hnew [Hold Hty]]]]]]].
  - vm_compute. reflexivity.
  - left. reflexivity.
  - vm_compute. reflexivity.
  - simpl. tauto.
  - exists row. tauto.
Defined.

(* ===================================================================== *)
(** * Further properties of the engine *)
(* ===================================================================== *)

(** ** commit: the change log, the snapshot, the history *)

(** When a commit returns, its update list has distinct names and the
    store is the committed one. *)

Lemma inherited_function (prototype : option BusinessStateField) (name : string) :
  is_prototype_function name = true → inherited prototype name = V_other.
Proof.
  intros Hf. unfold inherited. destruct prototype as [row |]; simpl; [| rewrite Hf; reflexivity].
  unfold column_of, is_prototype_function, object_prototype_functions in *. simpl in *.
  repeat match goal with
         | |- context [String.eqb name ?c] =>
             destruct (String.eqb_spec name c) as [-> | ?]; [discriminate Hf |]
         end.
  simpl. rewrite Hf. reflexivity.
Qed.

(** X1 (audit trail of a commit).  A commit that returns appends to
    [context_changes] exactly one row per update of the request, in the
    request's order, with the update's field name and new value, the new
    version's id and the commit's JavaScript timestamp; no row is a
    [delete].  When the parent version has a field of the update's name,
    the row is an [update] and its old value is the parent's value, or
    [null] when that value is falsy.  When it has none, the row is a
    [create] with old value [null] provided the name is not [__proto__],
    not the name of a function of [Object.prototype], and the parent has
    no field named [__proto__]; under the name [__proto__] or the name of
    such a function ([constructor], [toString], ...) the row is an
    [update] with old value [null], although the parent has no such
    field. *)
Theorem change_log_one_row_per_update :
  ∀ (userId : string) (env : Env) (request : CommitRequest) (s s' : Store)
    (v : ContextVersion),
    commit userId env request s = (s', inr v) →
    ∃ rows,
      context_changes s' = context_changes s ++ rows
      ∧ length rows = length (cr_changes request)
      ∧ List.map cc_field_name rows = List.map fu_field_name (cr_changes request)
      ∧ List.map cc_new_value rows = List.map fu_field_value (cr_changes request)
      ∧ ∀ row, In row rows →
          cc_version_id row = cv_id v
          ∧ cc_created_at row = js_now env
          ∧ cc_change_type row ≠ CT_delete
          ∧ (∀ f, previous_state userId s !! cc_field_name row = Some f →
                  cc_change_type row = CT_update
                  ∧ cc_old_value row
                    = if truthy (bs_field_value f) then bs_field_value f else JNull)
          ∧ (previous_state userId s !! cc_field_name row = None →
             (plain_name (cc_field_name row) = true →
              previous_state userId s !! "__proto__" = None →
              cc_change_type row = CT_create ∧ cc_old_value row = JNull)
             ∧ (plain_name (cc_field_name row) = false →
                cc_change_type row = CT_update ∧ cc_old_value row = JNull)).
Proof.
  intros userId env request s s' v Hc.
  apply commit_inr in Hc as [_ [-> ->]].
  exists (new_change_records userId env request s).
  split; [reflexivity |]. unfold new_change_records.
  split; [apply length_map |].
  split; [rewrite List.map_map; reflexivity |].
  split; [rewrite List.map_map; reflexivity |].
  intros row Hrow. apply in_map_iff in Hrow as [c [<- _]]. simpl.
  split; [reflexivity |]. split; [reflexivity |].
  rewrite previous_object_rows.
  split; [destruct (truthy_value _); discriminate |]. split.
  - intros f ->. simpl. split; reflexivity.
  - intros ->. unfold plain_name. split.
    + intros Hplain ->. apply andb_true_iff in Hplain as [Hp Hf].
      apply negb_true_iff in Hp, Hf. rewrite Hp. unfold inherited. simpl.
      rewrite Hf. simpl. split; reflexivity.
    + intros Hplain. apply andb_false_iff in Hplain as [Hp | Hf].
      * apply negb_false_iff in Hp. rewrite Hp. simpl. split; reflexivity.
      * apply negb_false_iff in Hf.
        destruct (String.eqb (fu_field_name c) "__proto__"); [split; reflexivity |].
        rewrite inherited_function by exact Hf. split; reflexivity.
Qed.

Lemma change_log_one_row_per_update_witness :
  ∃ rows,
    context_changes s2 = context_changes s1 ++ rows
    ∧ length rows = 1%nat
    ∧ List.map cc_field_name rows = ["a"].
Proof.
  destruct (change_log_one_row_per_update "u" env2 req2 s1 s2 (new_version "u" env2 req2 s1))
    as [rows [H1 [H2 [H3 _]]]].
  - vm_compute. reflexivity.
  - exists rows. split; [exact H1 |]. split; [exact H2 | exact H3].
Defined.

(** A first commit that sets a field named [constructor] logs it as an
    [update]. *)
Example constructor_logged_as_update :
  List.map (fun c => (cc_field_name c, cc_change_type c, cc_old_value c))
    (context_changes
       (fst (commit "u" env1
               (request "first" [update "constructor" (JNum 1) FT_number;
                                 update "__proto__" (JNum 2) FT_number;
                                 update "name" (JNum 3) FT_number])
               empty_store)))
  = [("constructor", CT_update, JNull); ("__proto__", CT_update, JNull);
     ("name", CT_create, JNull)].
Proof. vm_compute. reflexivity. Qed.

Lemma NoDup_map_inj {A B} (g : A → B) (l : list A) (x y : A) :
  NoDup (List.map g l) → In x l → In y l → g x = g y → x = y.
Proof.
  induction l as [| a l IH]; simpl; [tauto |].
  rewrite NoDup_cons_In. intros [Ha Hnd] [<- | Hx] [<- | Hy] E; auto.
  - exfalso. apply Ha. rewrite E. apply in_map, Hy.
  - exfalso. apply Ha. rewrite <- E. apply in_map, Hx.
Qed.

Lemma find_name_unique (changes : list FieldUpdate) (c : FieldUpdate) :
  NoDup (List.map fu_field_name changes) → In c changes →
  find (fun c' => String.eqb (fu_field_name c') (fu_field_name c)) changes = Some c.
Proof.
  intros Hnd Hc.
  destruct (find _ changes) as [c' |] eqn:Hfind.
  - apply find_some in Hfind as [Hc' E]. apply String.eqb_eq in E.
    f_equal. apply (NoDup_map_inj fu_field_name changes); assumption.
  - apply (find_none _ _ Hfind) in Hc. rewrite String.eqb_refl in Hc. discriminate.
Qed.

Lemma find_name_absent (changes : list FieldUpdate) (n : string) :
  ¬ In n (List.map fu_field_name changes) →
  find (fun c' => String.eqb (fu_field_name c') n) changes = None.
Proof.
  intros Hn. destruct (find _ changes) as [c' |] eqn:Hfind; [| reflexivity].
  apply find_some in Hfind as [Hc' E]. apply String.eqb_eq in E.
  exfalso. apply Hn. rewrite <- E. apply in_map, Hc'.
Qed.

(** X2 (full snapshot).  After a commit that returns from a store that
    satisfies the key constraints, the new version's state holds, for every
    update of the request, the row built from that update, and for every
    field of the parent state that the request does not name, a copy of the
    parent's row under the new version id; it holds no other field. *)
Theorem commit_writes_full_snapshot :
  ∀ (userId : string) (env : Env) (request : CommitRequest) (s s' : Store)
    (v : ContextVersion),
    store_ok s →
    commit userId env request s = (s', inr v) →
    (∀ c, In c (cr_changes request) →
          state_of (cv_id v) s' !! fu_field_name c
          = Some (state_record (cv_id v) (js_now env) c))
    ∧ (∀ n f, previous_state userId s !! n = Some f →
              ¬ In n (List.map fu_field_name (cr_changes request)) →
              state_of (cv_id v) s' !! n = Some (copy_field (cv_id v) f))
    ∧ (∀ n, is_Some (state_of (cv_id v) s' !! n)
            ↔ In n (List.map fu_field_name (cr_changes request))
              ∨ is_Some (previous_state userId s !! n)).
Proof.
  intros userId env request s s' v Hok Hc.
  apply (commit_returned _ _ _ _ _ _ Hok) in Hc as [Hv [Hnd [-> ->]]].
  pose proof (insertable_fresh _ _ Hv) as Hfresh. cbn [cv_id new_version] in *.
  pose proof (committed_state userId env request s Hok Hfresh) as Hstate.
  split; [| split].
  - intros c Hc. rewrite (Hstate _ Hnd), (find_name_unique _ _ Hnd Hc). reflexivity.
  - intros n f Hf Hn. rewrite (Hstate _ Hnd), (find_name_absent _ _ Hn), Hf. reflexivity.
  - intros n. rewrite (Hstate _ Hnd).
    destruct (find _ (cr_changes request)) as [c |] eqn:Hfind.
    + apply find_some in Hfind as [Hc E]. apply String.eqb_eq in E.
      split; [| eauto]. intros _. left. rewrite <- E. apply in_map, Hc.
    + destruct (previous_state userId s !! n) as [f |]; simpl.
      * split; eauto.
      * split; [intros [x Hx]; discriminate |].
        intros [Hin | [x Hx]]; [| discriminate]. exfalso.
        apply in_map_iff in Hin as [c [E Hc]].
        apply (find_none _ _ Hfind) in Hc. rewrite E, String.eqb_refl in Hc. discriminate.
Qed.

Lemma commit_writes_full_snapshot_witness :
  state_of (db_uuid env3) s3 !! "c"
  = Some (state_record (db_uuid env3) (js_now env3) (update "c" (JNum 0) FT_number))
  ∧ is_Some (state_of (db_uuid env3) s3 !! "b").
Proof.
  destruct (commit_writes_full_snapshot "u" env3 req3 s2 s3 (new_version "u" env3 req3 s2))
    as [H1 [_ H3]].
  - apply store_ok_commit, store_ok_commit, store_ok_empty.
  - vm_compute. reflexivity.
  - split.
    + apply (H1 (update "c" (JNum 0) FT_number)). left. reflexivity.
    + apply H3. right. clear. vm_compute. eauto.
Defined.

Lemma enforce_same_commit (new : ContextVersion) (rows : list ContextVersion)
    (w : ContextVersion) :
  In w rows →
  ∃ w', In w' (enforce_single_current_version new rows) ∧ same_commit w w'.
Proof.
  intros Hw. unfold enforce_single_current_version.
  destruct (cv_is_current new).
  - exists (if String.eqb (cv_user_id w) (cv_user_id new)
               && negb (String.eqb (cv_id w) (cv_id new)) && cv_is_current w
            then set_is_current false w else w).
    split.
    + apply in_map_iff. exists w. tauto.
    + destruct (_ && _); repeat split.
  - exists w. split; [exact Hw | repeat split].
Qed.

(** X3 (append only).  Whatever a commit does, returning or throwing, it
    only appends to [business_state] and to [context_changes], every
    version row is still there and differs at most in [is_current], and, in
    a store that satisfies the key constraints, the state of every version
    that existed before is unchanged. *)
Theorem commit_is_append_only :
  ∀ (userId : string) (env : Env) (request : CommitRequest) (s : Store),
    (∃ rows, business_state (fst (commit userId env request s)) = business_state s ++ rows)
    ∧ (∃ rows, context_changes (fst (commit userId env request s))
               = context_changes s ++ rows)
    ∧ (∀ w, In w (context_versions s) →
            ∃ w', In w' (context_versions (fst (commit userId env request s)))
                  ∧ same_commit w w')
    ∧ (store_ok s → ∀ versionId,
         has_version versionId (context_versions s) = true →
         state_of versionId (fst (commit userId env request s)) = state_of versionId s).
Proof.
  intros userId env request s.
  destruct (version_insertable (new_version userId env request s) s) eqn:Hv.
  2:{ destruct (commit_version_rejected _ _ _ _ Hv) as [m ->]. simpl.
      split; [exists []; symmetry; apply app_nil_r |].
      split; [exists []; symmetry; apply app_nil_r |].
      split; [| reflexivity]. intros w Hw. exists w. split; [exact Hw | repeat split]. }
  rewrite (commit_after_insert _ _ _ _ Hv).
  assert (Hrows : ∀ w, In w (context_versions s) →
            ∃ w', In w' (enforce_single_current_version (new_version userId env request s)
                           (context_versions s) ++ [new_version userId env request s])
                  ∧ same_commit w w').
  { intros w Hw.
    destruct (enforce_same_commit (new_version userId env request s) _ w Hw) as [w' [H1 H2]].
    exists w'. split; [apply in_app_iff; left; exact H1 | exact H2]. }
  destruct (bool_decide _); simpl.
  - split; [eauto |]. split; [eauto |]. split; [exact Hrows |].
    intros Hok versionId Hid. apply state_of_committed_other.
    intros ->. pose proof (insertable_fresh _ _ Hv) as Hf. simpl in Hf. congruence.
  - split; [exists []; symmetry; apply app_nil_r |].
    split; [exists []; symmetry; apply app_nil_r |]. split; [exact Hrows | reflexivity].
Qed.

Lemma commit_is_append_only_witness :
  state_of (db_uuid env1) (fst (commit "u" env2 req2 s1)) = state_of (db_uuid env1) s1.
Proof.
  destruct (commit_is_append_only "u" env2 req2 s1) as [_ [_ [_ H]]].
  apply H.
  - apply store_ok_commit, store_ok_empty.
  - vm_compute. reflexivity.
Defined.

Lemma state_of_unreferenced (versionId : string) (s : Store) :
  store_ok s → has_version versionId (context_versions s) = false →
  state_of versionId s = ∅.
Proof.
  intros Hok Hfresh. unfold state_of, fields_of.
  rewrite filter_none; [reflexivity |].
  intros f Hf. apply String.eqb_neq. intros E.
  apply (ok_fields_fk _ Hok) in Hf. congruence.
Qed.

(** X4 (a rejected state insert is not undone).  When the version insert
    passes and the request repeats a field name, [commit] throws after the
    version row is in: that row is now the owner's current version and its
    state is empty.  The owner's next commit that returns has it as parent
    and therefore holds only the fields of its own updates: the fields of
    the earlier versions are not copied forward. *)
Theorem rejected_commit_leaves_empty_current :
  ∀ (env env' : Env) (request request' : CommitRequest) (s s2 : Store)
    (v2 : ContextVersion),
    store_ok s →
    version_insertable (new_version (cr_user_id request) env request s) s = true →
    ¬ NoDup (List.map fu_field_name (cr_changes request)) →
    cr_user_id request' = cr_user_id request →
    commit (cr_user_id request') env' request'
      (fst (commit (cr_user_id request) env request s)) = (s2, inr v2) →
    current_of (cr_user_id request) (fst (commit (cr_user_id request) env request s))
    = Some (new_version (cr_user_id request) env request s)
    ∧ state_of (db_uuid env) (fst (commit (cr_user_id request) env request s)) = ∅
    ∧ cv_parent_version_id v2 = Some (db_uuid env)
    ∧ ∀ n, is_Some (state_of (cv_id v2) s2 !! n)
           ↔ In n (List.map fu_field_name (cr_changes request')).
Proof.
  intros env env' request request' s s2 v2 Hok Hv Hdup Hu Hc2.
  set (u := cr_user_id request) in *. rewrite Hu in Hc2.
  rewrite (commit_rejects_duplicates u env request s Hok Hv Hdup) in *. simpl in *.
  set (nv := new_version u env request s) in *.
  assert (Hcur : current_of u (with_version nv s) = Some nv).
  { apply current_of_currents. unfold currents, with_version. simpl.
    rewrite List.filter_app. change u with (cv_user_id nv).
    rewrite enforce_clears_owner; [| reflexivity | apply (insertable_fresh _ _ Hv)].
    simpl. unfold is_current_of. rewrite String.eqb_refl. reflexivity. }
  assert (Hempty : state_of (db_uuid env) (with_version nv s) = ∅).
  { apply (state_of_unreferenced (db_uuid env) s Hok (insertable_fresh _ _ Hv)). }
  assert (Hok1 : store_ok (with_version nv s)) by (apply store_ok_with_version, Hok).
  split; [exact Hcur |]. split; [exact Hempty |].
  assert (Hprev : previous_state u (with_version nv s) = ∅).
  { unfold previous_state. rewrite Hcur. exact Hempty. }
  apply (commit_returned _ _ _ _ _ _ Hok1) in Hc2 as [Hv2 [Hnd2 [-> ->]]].
  split; [simpl; rewrite Hcur; reflexivity |].
  intros n. cbn [cv_id new_version].
  rewrite (committed_state u env' request' _ Hok1 (insertable_fresh _ _ Hv2) n Hnd2), Hprev.
  rewrite lookup_empty. simpl.
  destruct (find _ (cr_changes request')) as [c |] eqn:Hfind.
  - apply find_some in Hfind as [Hc E]. apply String.eqb_eq in E.
    split; [| eauto]. intros _. rewrite <- E. apply in_map, Hc.
  - split; [intros [x Hx]; discriminate |]. intros Hin. exfalso.
    apply in_map_iff in Hin as [c [E Hc]].
    apply (find_none _ _ Hfind) in Hc. rewrite E, String.eqb_refl in Hc. discriminate.
Qed.

Lemma rejected_commit_leaves_empty_current_witness :
  state_of (db_uuid env2) (fst (commit "u" env2 req_twice s1)) = ∅
  ∧ ¬ is_Some (state_of (db_uuid env3)
                 (fst (commit "u" env3 req3 (fst (commit "u" env2 req_twice s1)))) !! "b").
Proof.
  assert (Hv : version_insertable (new_version "u" env2 req_twice s1) s1 = true).
  { vm_compute. reflexivity. }
  assert (Hdup : ¬ NoDup (List.map fu_field_name (cr_changes req_twice))).
  { simpl. intros H. apply NoDup_cons_In in H as [H _]. apply H. left. reflexivity. }
  assert (Hc : commit (cr_user_id req3) env3 req3
                 (fst (commit (cr_user_id req_twice) env2 req_twice s1))
               = (fst (commit "u" env3 req3 (fst (commit "u" env2 req_twice s1))),
                  inr (new_version "u" env3 req3 (fst (commit "u" env2 req_twice s1))))).
  { vm_compute. reflexivity. }
  destruct (rejected_commit_leaves_empty_current env2 env3 req_twice req3 s1 _ _
              (store_ok_commit _ _ _ _ store_ok_empty) Hv Hdup eq_refl Hc)
    as [_ [H2 [_ H4]]].
  split; [exact H2 |].
  intros H. apply H4 in H. clear -H. simpl in H. destruct H as [E | []]. discriminate.
Defined.

(** X5 (rollback to an unknown version).  When no version row has the
    requested id, [rollback] throws [Version <id> not found] and leaves the
    store as it was. *)
Theorem rollback_unknown_version :
  ∀ (userId : string) (env : Env) (request : RollbackRequest) (s : Store),
    (∀ v, In v (context_versions s) → cv_id v ≠ rr_version_id request) →
    rollback userId env request s
    = (s, inl (Error ("Version " ++ rr_version_id request ++ " not found")%string)).
Proof.
  intros userId env request s Hnone. rewrite rollback_unfold.
  unfold version_by_id. rewrite filter_none; [reflexivity |].
  intros v Hv. apply String.eqb_neq, Hnone, Hv.
Qed.

Lemma rollback_unknown_version_witness :
  rollback "u" env3 {| rr_user_id := "u"; rr_version_id := "no-such-version";
                       rr_reason := None |} s2
  = (s2, inl (Error "Version no-such-version not found")).
Proof.
  apply (rollback_unknown_version "u" env3
           {| rr_user_id := "u"; rr_version_id := "no-such-version"; rr_reason := None |} s2).
  intros v Hv. vm_compute in Hv. destruct Hv as [<- | [<- | []]]; discriminate.
Defined.

(** X20 (what a rollback writes).  When the target exists and the
    generated id and hash are new, [rollback] returns a new version that is
    the owner's current one, under an id other than the target's, and
    leaves the target's field rows as they were.  In the new version every
    field of the target other than [__proto__] is present with the
    target's value and type (source [manual], stamped with the rollback's
    timestamp); under every other name, the field of the previously
    current version is carried over, copied. *)
Theorem rollback_current_state :
  ∀ (env : Env) (request : RollbackRequest) (s : Store) (target : ContextVersion),
    store_ok s →
    version_by_id (rr_version_id request) s = Some target →
    has_version (db_uuid env) (context_versions s) = false →
    has_hash (generateVersionHash (rr_user_id request)
                (cr_commit_message
                   (rollback_request request target (object_of (rr_version_id request) s)))
                (js_now env) (js_random env))
      (context_versions s) = false →
    ∃ s' v,
      rollback (rr_user_id request) env request s = (s', inr v)
      ∧ current_of (rr_user_id request) s' = Some v
      ∧ cv_id v ≠ rr_version_id request
      ∧ state_of (rr_version_id request) s' = state_of (rr_version_id request) s
      ∧ ∀ n, state_of (cv_id v) s' !! n
             = match (if String.eqb n "__proto__" then None
                      else state_of (rr_version_id request) s !! n) with
               | Some f =>
                   Some {| bs_version_id := cv_id v; bs_field_name := n;
                           bs_field_value := bs_field_value f;
                           bs_field_type := bs_field_type f;
                           bs_source := manual; bs_updated_at := js_now env |}
               | None =>
                   copy_field (cv_id v) <$> previous_state (rr_user_id request) s !! n
               end.
Proof.
  intros env request s target Hok Htarget Hid Hhash.
  set (u := rr_user_id request) in *.
  set (st := object_of (rr_version_id request) s) in *.
  set (req := rollback_request request target st) in *.
  assert (Hv : version_insertable (new_version u env req s) s = true).
  { rewrite insertable_new_version. simpl. fold u. rewrite Hid.
    simpl in Hhash. simpl. rewrite Hhash. reflexivity. }
  assert (Hnd : NoDup (List.map fu_field_name (cr_changes req))).
  { apply rollback_names. }
  pose proof (commit_returns u env req s Hok Hv Hnd) as Hc.
  assert (Hne : rr_version_id request ≠ db_uuid env).
  { intros E. apply single_data_In in Htarget.
    assert (Hin : In target (List.filter (fun v => String.eqb (cv_id v) (rr_version_id request))
                              (context_versions s))).
    { rewrite Htarget. left. reflexivity. }
    apply filter_In in Hin as [Hin Hid']. apply String.eqb_eq in Hid'.
    assert (has_version (db_uuid env) (context_versions s) = true); [| congruence].
    apply has_version_In. exists target. split; [exact Hin | congruence]. }
  exists (committed u env req s), (new_version u env req s).
  split; [rewrite rollback_unfold, Htarget; exact Hc |].
  split; [apply (commit_current _ _ _ _ _ _ Hc) |].
  split; [simpl; congruence |].
  split; [apply state_of_committed_other; exact Hne |].
  intros n. cbn [cv_id new_version].
  rewrite (committed_state u env req s Hok Hid n Hnd).
  change (cr_changes req) with (List.map rollback_change (object_values st)).
  unfold st. rewrite rollback_find.
  destruct (String.eqb n "__proto__"); [reflexivity |].
  destruct (state_of (rr_version_id request) s !! n) as [f |] eqn:Hn; [| reflexivity].
  simpl. unfold state_record. simpl. rewrite (state_of_keys _ _ _ _ Hn). reflexivity.
Qed.

Lemma rollback_current_state_witness :
  ∃ s' v,
    rollback (rr_user_id rollback_to_first) env3 rollback_to_first s2 = (s', inr v)
    ∧ current_of (rr_user_id rollback_to_first) s' = Some v
    ∧ cv_id v ≠ rr_version_id rollback_to_first
    ∧ state_of (rr_version_id rollback_to_first) s'
      = state_of (rr_version_id rollback_to_first) s2
    ∧ ∀ n, state_of (cv_id v) s' !! n
           = match (if String.eqb n "__proto__" then None
                    else state_of (rr_version_id rollback_to_first) s2 !! n) with
             | Some f =>
                 Some {| bs_version_id := cv_id v; bs_field_name := n;
                         bs_field_value := bs_field_value f;
                         bs_field_type := bs_field_type f;
                         bs_source := manual; bs_updated_at := js_now env3 |}
             | None =>
                 copy_field (cv_id v)
                   <$> previous_state (rr_user_id rollback_to_first) s2 !! n
             end.
Proof.
  apply (rollback_current_state env3 rollback_to_first s2
           (set_is_current false (new_version "u" env1 req1 empty_store))).
  - apply store_ok_commit, store_ok_commit, store_ok_empty.
  - vm_compute. reflexivity.
  - vm_compute. reflexivity.
  - vm_compute. reflexivity.
Defined.

(** ** tagVersion *)

Lemma tagVersion_eq (versionId : string) (tags : list string) (s : Store) :
  tagVersion versionId tags s
  = ({| context_versions :=
          List.map (fun v => if String.eqb (cv_id v) versionId then set_tags tags v else v)
            (context_versions s);
        business_state := business_state s;
        context_changes := context_changes s |}, inr tt).
Proof. reflexivity. Qed.

(** X6 (tagging).  [tagVersion] always returns.  It leaves the field and
    change tables, the version ids and every owner's current versions as
    they were; each version row is unchanged unless its id is the requested
    one, in which case its tags are replaced by the given list and nothing
    else changes.  For an id that no row has, the store is unchanged and no
    error is raised. *)
Theorem tagVersion_touches_tags_only :
  ∀ (versionId : string) (tags : list string) (s : Store),
    ∃ s',
      tagVersion versionId tags s = (s', inr tt)
      ∧ business_state s' = business_state s
      ∧ context_changes s' = context_changes s
      ∧ List.map cv_id (context_versions s') = List.map cv_id (context_versions s)
      ∧ (∀ owner, List.map cv_id (currents owner s') = List.map cv_id (currents owner s))
      ∧ (∀ v', In v' (context_versions s') →
               ∃ v, In v (context_versions s)
                    ∧ v' = (if String.eqb (cv_id v) versionId then set_tags tags v else v))
      ∧ (∀ v, In v (context_versions s) → cv_id v = versionId →
              In (set_tags tags v) (context_versions s'))
      ∧ ((∀ v, In v (context_versions s) → cv_id v ≠ versionId) → s' = s).
Proof.
  intros versionId tags s. eexists. split; [apply tagVersion_eq |]. simpl.
  split; [reflexivity |]. split; [reflexivity |].
  split.
  { rewrite List.map_map. apply map_ext. intros v. destruct (String.eqb _ _); reflexivity. }
  split.
  { intros owner. unfold currents. simpl.
    induction (context_versions s) as [| v l IH]; simpl; [reflexivity |].
    assert (E : is_current_of owner (if String.eqb (cv_id v) versionId
                                     then set_tags tags v else v)
                = is_current_of owner v).
    { destruct (String.eqb _ _); reflexivity. }
    rewrite E. destruct (is_current_of owner v); simpl; [| exact IH].
    rewrite IH. destruct (String.eqb _ _); reflexivity. }
  split.
  { intros v' Hv'. apply in_map_iff in Hv' as [v [<- Hv]]. eauto. }
  split.
  { intros v Hv E. apply in_map_iff. exists v. apply String.eqb_eq in E. rewrite E. tauto. }
  intros Hnone. destruct s as [cvs bs cc]. simpl in *. f_equal.
  induction cvs as [| v l IH]; simpl; [reflexivity |].
  rewrite IH by (intros w Hw; apply Hnone; right; exact Hw).
  destruct (String.eqb_spec (cv_id v) versionId) as [E | E]; [| reflexivity].
  exfalso. apply (Hnone v); [left; reflexivity | exact E].
Qed.

Lemma tagVersion_touches_tags_only_witness :
  ∃ s', tagVersion "no-such-version" ["release"] s2 = (s', inr tt) ∧ s' = s2.
Proof.
  destruct (tagVersion_touches_tags_only "no-such-version" ["release"] s2)
    as [s' [H1 [_ [_ [_ [_ [_ [_ H]]]]]]]].
  exists s'. split; [exact H1 |]. apply H. clear.
  intros v Hv. vm_compute in Hv. destruct Hv as [<- | [<- | []]]; discriminate.
Defined.



(** ** getHistory *)

Lemma insert_desc_In (v x : ContextVersion) (l : list ContextVersion) :
  In x (insert_desc v l) ↔ x = v ∨ In x l.
Proof.
  induction l as [| w l IH]; simpl; [intuition congruence |].
  destruct (cv_created_at w <? cv_created_at v)%Z; simpl; [intuition congruence |].
  rewrite IH. intuition congruence.
Qed.

Lemma insert_desc_length (v : ContextVersion) (l : list ContextVersion) :
  length (insert_desc v l) = S (length l).
Proof.
  induction l as [| w l IH]; simpl; [reflexivity |].
  destruct (cv_created_at w <? cv_created_at v)%Z; simpl; [reflexivity | rewrite IH; reflexivity].
Qed.

Lemma insert_desc_newest_first (v : ContextVersion) (l : list ContextVersion) :
  newest_first l → newest_first (insert_desc v l).
Proof.
  induction l as [| w l IH]; simpl; [intros _; split; [intros ? [] | exact I] |].
  intros [Hw Hl]. destruct (cv_created_at w <? cv_created_at v)%Z eqn:E; simpl.
  - apply Z.ltb_lt in E. split; [| tauto].
    intros x [<- | Hx]; [lia |]. specialize (Hw x Hx). lia.
  - apply Z.ltb_ge in E. split; [| apply IH, Hl].
    intros x Hx. apply insert_desc_In in Hx as [-> | Hx]; [lia | apply Hw, Hx].
Qed.

Lemma order_In (rows : list ContextVersion) (x : ContextVersion) :
  In x (order_created_at_desc rows) ↔ In x rows.
Proof.
  induction rows as [| v rows IH]; simpl; [reflexivity |].
  rewrite insert_desc_In, IH. intuition congruence.
Qed.

Lemma order_length (rows : list ContextVersion) :
  length (order_created_at_desc rows) = length rows.
Proof.
  induction rows as [| v rows IH]; simpl; [reflexivity |].
  rewrite insert_desc_length, IH. reflexivity.
Qed.

Lemma order_newest_first (rows : list ContextVersion) :
  newest_first (order_created_at_desc rows).
Proof.
  induction rows as [| v rows IH]; simpl; [exact I | apply insert_desc_newest_first, IH].
Qed.

Lemma in_firstn {A} (n : nat) (l : list A) (x : A) : In x (firstn n l) → In x l.
Proof. intros H. rewrite <- (firstn_skipn n l). apply in_app_iff. left. exact H. Qed.

Lemma in_skipn {A} (n : nat) (l : list A) (x : A) : In x (skipn n l) → In x l.
Proof. intros H. rewrite <- (firstn_skipn n l). apply in_app_iff. right. exact H. Qed.

Lemma firstn_add {A} (a b : nat) (l : list A) :
  firstn (a + b) l = firstn a l ++ firstn b (skipn a l).
Proof.
  revert l. induction a as [| a IH]; intros l; simpl; [reflexivity |].
  destruct l as [| x l]; simpl; [rewrite firstn_nil; reflexivity |].
  f_equal. apply IH.
Qed.

Lemma newest_first_skipn (n : nat) (rows : list ContextVersion) :
  newest_first rows → newest_first (skipn n rows).
Proof.
  revert rows. induction n as [| n IH]; intros [| v rows]; simpl; try tauto.
  intros [_ H]. apply IH, H.
Qed.

Lemma newest_first_firstn (n : nat) (rows : list ContextVersion) :
  newest_first rows → newest_first (firstn n rows).
Proof.
  revert rows. induction n as [| n IH]; intros [| v rows]; simpl; try tauto.
  intros [Hv H]. split; [| apply IH, H].
  intros w Hw. apply Hv. apply (in_firstn n). exact Hw.
Qed.

Lemma getHistory_eq (userId : string) (limit offset : nat) (s : Store) :
  getHistory userId limit offset s
  = (s, inr (firstn limit (skipn offset (order_created_at_desc (versions_of userId s))))).
Proof. reflexivity. Qed.

Lemma versions_of_In (owner : string) (s : Store) (v : ContextVersion) :
  In v (versions_of owner s) ↔ In v (context_versions s) ∧ cv_user_id v = owner.
Proof. unfold versions_of. rewrite filter_In, String.eqb_eq. reflexivity. Qed.

(** X8 (history page).  [getHistory] returns, without writing, at most
    [limit] versions: as many as the owner has from position [offset] on,
    up to [limit]; each is a version row of that owner, and they are
    ordered newest first.  From offset 0 with a limit that is not below the
    number of the owner's versions, the page holds all of them. *)
Theorem getHistory_page :
  ∀ (userId : string) (limit offset : nat) (s : Store),
    ∃ rows,
      getHistory userId limit offset s = (s, inr rows)
      ∧ (length rows ≤ limit)%nat
      ∧ length rows
        = Nat.min limit (length (versions_of userId s) - offset)
      ∧ (∀ v, In v rows → In v (context_versions s) ∧ cv_user_id v = userId)
      ∧ newest_first rows
      ∧ (offset = 0%nat → (length (versions_of userId s) ≤ limit)%nat →
         ∀ v, In v rows ↔ In v (context_versions s) ∧ cv_user_id v = userId).
Proof.
  intros userId limit offset s. eexists. split; [apply getHistory_eq |].
  split; [apply firstn_le_length |].
  split; [rewrite length_firstn, length_skipn, order_length; reflexivity |].
  split.
  { intros v Hv. apply in_firstn, in_skipn in Hv. apply (proj1 (order_In _ _)) in Hv.
    apply versions_of_In, Hv. }
  split; [apply newest_first_firstn, newest_first_skipn, order_newest_first |].
  intros -> Hall v. rewrite skipn_0.
  rewrite firstn_all2 by (rewrite order_length; exact Hall).
  rewrite order_In. apply versions_of_In.
Qed.

Lemma getHistory_page_witness :
  ∃ rows,
    getHistory "u" 50 0 s3 = (s3, inr rows)
    ∧ length rows = 3%nat
    ∧ ∀ v, In v rows ↔ In v (context_versions s3) ∧ cv_user_id v = "u".
Proof.
  destruct (getHistory_page "u" 50 0 s3) as [rows [H1 [_ [H3 [_ [_ H6]]]]]].
  exists rows. split; [exact H1 |]. split.
  - rewrite H3. clear. vm_compute. reflexivity.
  - apply H6; [reflexivity |]. clear. vm_compute. lia.
Defined.

Lemma insert_desc_Permutation (v : ContextVersion) (l : list ContextVersion) :
  Permutation (v :: l) (insert_desc v l).
Proof.
  induction l as [| w l IH]; simpl; [reflexivity |].
  destruct (cv_created_at w <? cv_created_at v)%Z; [reflexivity |].
  etransitivity; [apply perm_swap | apply perm_skip, IH].
Qed.

Lemma order_Permutation (rows : list ContextVersion) :
  Permutation rows (order_created_at_desc rows).
Proof.
  induction rows as [| v rows IH]; simpl; [reflexivity |].
  etransitivity; [apply perm_skip, IH | apply insert_desc_Permutation].
Qed.

(** With pairwise distinct creation times there is one way to list rows
    newest first. *)
Lemma newest_first_unique (l1 l2 : list ContextVersion) :
  (∀ v w, In v l1 → In w l1 → cv_created_at v = cv_created_at w → v = w) →
  Permutation l1 l2 → newest_first l1 → newest_first l2 → l1 = l2.
Proof.
  revert l2. induction l1 as [| x l1 IH]; intros l2 Hinj Hperm H1 H2.
  - apply Permutation_nil in Hperm. congruence.
  - destruct l2 as [| y l2].
    { apply Permutation_sym, Permutation_nil in Hperm. discriminate. }
    destruct H1 as [Hx H1], H2 as [Hy H2].
    assert (Hxy : x = y).
    { assert (In x (y :: l2)) as Hin by (apply (Permutation_in _ Hperm); left; reflexivity).
      assert (In y (x :: l1)) as Hin'
        by (apply (Permutation_in _ (Permutation_sym Hperm)); left; reflexivity).
      apply Hinj; [left; reflexivity | exact Hin' |].
      assert (cv_created_at x ≤ cv_created_at y)%Z
        by (destruct Hin as [-> | Hin]; [lia | apply Hy, Hin]).
      assert (cv_created_at y ≤ cv_created_at x)%Z
        by (destruct Hin' as [-> | Hin']; [lia | apply Hx, Hin']).
      lia. }
    subst y. f_equal. apply IH; [| apply (Permutation_cons_inv Hperm) | exact H1 | exact H2].
    intros v w Hv Hw. apply Hinj; right; assumption.
Qed.

(** X9 (pages concatenate).  When the owner's versions have pairwise
    distinct creation times, so that listing them newest first leaves the
    store no choice, the page of [limit] versions from [offset] followed by
    the page of [limit'] versions from [offset + limit] is the page of
    [limit + limit'] versions from [offset]; each page is the stretch of
    any listing of the owner's versions that is newest first. *)
Theorem getHistory_pages_concatenate :
  ∀ (userId : string) (limit limit' offset : nat) (s : Store),
    (∀ v w, In v (versions_of userId s) → In w (versions_of userId s) →
            cv_created_at v = cv_created_at w → v = w) →
    ∃ page1 page2,
      getHistory userId limit offset s = (s, inr page1)
      ∧ getHistory userId limit' (offset + limit) s = (s, inr page2)
      ∧ getHistory userId (limit + limit') offset s = (s, inr (page1 ++ page2))
      ∧ ∀ rows, Permutation (versions_of userId s) rows → newest_first rows →
          page1 = firstn limit (skipn offset rows)
          ∧ page2 = firstn limit' (skipn (offset + limit) rows).
Proof.
  intros userId limit limit' offset s Hdistinct. eexists _, _.
  split; [apply getHistory_eq |]. split; [apply getHistory_eq |]. split.
  - rewrite getHistory_eq. repeat f_equal.
    rewrite firstn_add, skipn_skipn, (Nat.add_comm limit offset). reflexivity.
  - intros rows Hperm Hsorted.
    assert (E : order_created_at_desc (versions_of userId s) = rows); [| rewrite E; tauto].
    apply newest_first_unique; [| | apply order_newest_first | exact Hsorted].
    + intros v w Hv Hw. apply Hdistinct; apply order_In; assumption.
    + etransitivity; [apply Permutation_sym, order_Permutation | exact Hperm].
Qed.

Lemma getHistory_pages_concatenate_witness :
  ∃ page1 page2,
    getHistory "u" 1 0 s2 = (s2, inr page1)
    ∧ getHistory "u" 1 (0 + 1) s2 = (s2, inr page2)
    ∧ getHistory "u" (1 + 1) 0 s2 = (s2, inr (page1 ++ page2))
    ∧ ∀ rows, Permutation (versions_of "u" s2) rows → newest_first rows →
        page1 = firstn 1 (skipn 0 rows)
        ∧ page2 = firstn 1 (skipn (0 + 1) rows).
Proof.
  apply (getHistory_pages_concatenate "u" 1 1 0 s2).
  intros v w Hv Hw E. vm_compute in Hv, Hw.
  destruct Hv as [<- | [<- | []]], Hw as [<- | [<- | []]];
    reflexivity || (exfalso; vm_compute in E; discriminate E).
Defined.

(** X10 (history starts with the new commit).  After a commit that
    returns, made at a database time later than every version of the
    request's owner, the first entry of the owner's history (from offset 0,
    with a positive limit) is the version the commit returned. *)
Theorem getHistory_starts_with_new_commit :
  ∀ (userId : string) (env : Env) (request : CommitRequest) (s s' : Store)
    (v : ContextVersion) (limit : nat),
    commit userId env request s = (s', inr v) →
    (∀ w, In w (context_versions s) → cv_user_id w = cr_user_id request →
          (cv_created_at w < db_now env)%Z) →
    ∃ rest, getHistory (cr_user_id request) (S limit) 0 s' = (s', inr (v :: rest)).
Proof.
  intros userId env request s s' v limit Hc Hclock.
  apply commit_inr in Hc as [Hv [-> ->]].
  set (nv := new_version userId env request s).
  rewrite getHistory_eq, skipn_0.
  pose proof (order_head (versions_of (cr_user_id request) (committed userId env request s)))
    as Hhead.
  assert (Hnv : In nv (versions_of (cr_user_id request) (committed userId env request s))).
  { apply versions_of_In. split; [| reflexivity]. simpl. apply in_app_iff. right. left.
    reflexivity. }
  destruct (order_created_at_desc _) as [| h tl].
  - rewrite Hhead in Hnv. destruct Hnv.
  - destruct Hhead as [Hh Hmax]. exists (firstn limit tl). simpl. repeat f_equal.
    apply versions_of_In in Hh as [Hh Hu]. simpl in Hh.
    apply in_app_iff in Hh as [Hh | [<- | []]]; [| reflexivity]. exfalso.
    specialize (Hmax nv Hnv).
    unfold enforce_single_current_version in Hh. simpl in Hh.
    apply in_map_iff in Hh as [w [E Hw]].
    assert (Hc : cv_created_at h = cv_created_at w ∧ cv_user_id h = cv_user_id w).
    { rewrite <- E. destruct (_ && _); split; reflexivity. }
    destruct Hc as [Hc1 Hc2].
    assert (cv_created_at w < db_now env)%Z by (apply Hclock; [exact Hw | congruence]).
    simpl in Hmax. lia.
Qed.

Lemma getHistory_starts_with_new_commit_witness :
  ∃ rest, getHistory "u" 50 0 s2 = (s2, inr (new_version "u" env2 req2 s1 :: rest)).
Proof.
  apply (getHistory_starts_with_new_commit "u" env2 req2 s1 s2
           (new_version "u" env2 req2 s1) 49).
  - vm_compute. reflexivity.
  - intros w Hw _. vm_compute in Hw. destruct Hw as [<- | []]. reflexivity.
Defined.

(** ** getFieldHistory *)

Lemma insert_by_desc_In {A} (key : A → Z) (x y : A) (l : list A) :
  In y (insert_by_desc key x l) ↔ y = x ∨ In y l.
Proof.
  induction l as [| w l IH]; simpl; [intuition congruence |].
  destruct (key w <? key x)%Z; simpl; [intuition congruence |].
  rewrite IH. intuition congruence.
Qed.

Lemma insert_by_desc_length {A} (key : A → Z) (x : A) (l : list A) :
  length (insert_by_desc key x l) = S (length l).
Proof.
  induction l as [| w l IH]; simpl; [reflexivity |].
  destruct (key w <? key x)%Z; simpl; [reflexivity | rewrite IH; reflexivity].
Qed.

Lemma insert_by_desc_sorted {A} (key : A → Z) (x : A) (l : list A) :
  sorted_desc key l → sorted_desc key (insert_by_desc key x l).
Proof.
  induction l as [| w l IH]; simpl; [intros _; split; [intros ? [] | exact I] |].
  intros [Hw Hl]. destruct (key w <? key x)%Z eqn:E; simpl.
  - apply Z.ltb_lt in E. split; [| tauto].
    intros y [<- | Hy]; [lia |]. specialize (Hw y Hy). lia.
  - apply Z.ltb_ge in E. split; [| apply IH, Hl].
    intros y Hy. apply insert_by_desc_In in Hy as [-> | Hy]; [lia | apply Hw, Hy].
Qed.

Lemma order_desc_In {A} (key : A → Z) (l : list A) (y : A) :
  In y (order_desc key l) ↔ In y l.
Proof.
  induction l as [| x l IH]; simpl; [reflexivity |].
  rewrite insert_by_desc_In, IH. intuition congruence.
Qed.

Lemma order_desc_length {A} (key : A → Z) (l : list A) :
  length (order_desc key l) = length l.
Proof.
  induction l as [| x l IH]; simpl; [reflexivity |].
  rewrite insert_by_desc_length, IH. reflexivity.
Qed.

Lemma order_desc_sorted {A} (key : A → Z) (l : list A) : sorted_desc key (order_desc key l).
Proof.
  induction l as [| x l IH]; simpl; [exact I | apply insert_by_desc_sorted, IH].
Qed.

Lemma changes_of_owner_In (userId : string) (s : Store) (r : FieldHistoryRow) :
  In r (changes_of_owner userId s)
  ↔ ∃ c v, In c (context_changes s) ∧ In v (context_versions s)
           ∧ cv_id v = cc_version_id c ∧ cv_user_id v = userId
           ∧ r = history_row c v.
Proof.
  unfold changes_of_owner. rewrite in_flat_map. split.
  - intros [c [Hc Hr]]. apply in_map_iff in Hr as [v [<- Hv]].
    apply filter_In in Hv as [Hv E]. apply andb_true_iff in E as [E1 E2].
    apply String.eqb_eq in E1, E2. exists c, v. tauto.
  - intros [c [v [Hc [Hv [E1 [E2 ->]]]]]]. exists c. split; [exact Hc |].
    apply in_map, filter_In. split; [exact Hv |].
    apply andb_true_iff. split; apply String.eqb_eq; assumption.
Qed.

Lemma getFieldHistory_eq (userId fieldName : string) (range : option (Z * Z)) (s : Store) :
  getFieldHistory userId fieldName
    (match range with Some (a, b) => Some (Some a, Some b) | None => None end) s
  = (s, inr (order_desc (fun r => cc_created_at (fh_change r))
               (List.filter (in_time_range range)
                  (List.filter (fun r => String.eqb (cc_field_name (fh_change r)) fieldName)
                     (changes_of_owner userId s))))).
Proof. destruct range as [[a b] |]; reflexivity. Qed.

(** X11 (field history).  For valid range bounds, or no range,
    [getFieldHistory] returns, without writing, exactly the change rows of
    the given field name whose version belongs to the owner and, when a
    range is given, whose [created_at] lies within it (bounds included),
    each joined with its version, ordered newest first.  When a bound of
    the range is an Invalid Date, it throws [Invalid time value]. *)
Theorem getFieldHistory_rows :
  ∀ (userId fieldName : string) (s : Store),
    (∀ (range : option (Z * Z)),
       ∃ rows,
         getFieldHistory userId fieldName
           (match range with Some (a, b) => Some (Some a, Some b) | None => None end) s
         = (s, inr rows)
         ∧ sorted_desc (fun r => cc_created_at (fh_change r)) rows
         ∧ ∀ r, In r rows
                ↔ ∃ c v, In c (context_changes s) ∧ In v (context_versions s)
                         ∧ cv_id v = cc_version_id c ∧ cv_user_id v = userId
                         ∧ cc_field_name c = fieldName
                         ∧ match range with
                           | Some (a, b) => (a ≤ cc_created_at c ≤ b)%Z
                           | None => True
                           end
                         ∧ r = history_row c v)
    ∧ (∀ d, getFieldHistory userId fieldName (Some (None, d)) s
            = (s, inl (Error "Invalid time value")))
    ∧ (∀ a, getFieldHistory userId fieldName (Some (Some a, None)) s
            = (s, inl (Error "Invalid time value"))).
Proof.
  intros userId fieldName s. split; [| split; reflexivity].
  intros range. eexists. split; [apply getFieldHistory_eq |].
  split; [apply order_desc_sorted |].
  intros r. rewrite order_desc_In, !filter_In, changes_of_owner_In, String.eqb_eq.
  split.
  - intros [[[c [v [Hc [Hv [E1 [E2 ->]]]]]] Hn] Hr]. exists c, v. simpl in *.
    repeat (split; [assumption |]). split; [| reflexivity].
    destruct range as [[a b] |]; [| exact I].
    simpl in Hr. apply andb_true_iff in Hr as [H1 H2].
    apply Z.leb_le in H1, H2. lia.
  - intros [c [v [Hc [Hv [E1 [E2 [Hn [Hr ->]]]]]]]]. simpl.
    split; [split; [exists c, v; tauto | exact Hn] |].
    destruct range as [[a b] |]; [| reflexivity]. simpl.
    apply andb_true_iff. split; apply Z.leb_le; lia.
Qed.

Lemma getFieldHistory_rows_witness :
  ∃ rows,
    getFieldHistory "u" "a" (Some (Some 0%Z, Some 1700000030000%Z)) s2 = (s2, inr rows)
    ∧ sorted_desc (fun r => cc_created_at (fh_change r)) rows.
Proof.
  destruct (proj1 (getFieldHistory_rows "u" "a" s2) (Some (0%Z, 1700000030000%Z)))
    as [rows [H1 [H2 _]]].
  exists rows. split; [exact H1 | exact H2].
Defined.

Lemma changes_ok_empty : changes_ok empty_store.
Proof. intros c []. Qed.

Lemma changes_ok_commit (userId : string) (env : Env) (request : CommitRequest) (s : Store) :
  changes_ok s → changes_ok (fst (commit userId env request s)).
Proof.
  intros Hok.
  destruct (version_insertable (new_version userId env request s) s) eqn:Hv.
  2:{ destruct (commit_version_rejected _ _ _ _ Hv) as [m ->]. exact Hok. }
  rewrite (commit_after_insert _ _ _ _ Hv).
  assert (Hold : ∀ c, In c (context_changes s) →
            has_version (cc_version_id c)
              (context_versions (with_version (new_version userId env request s) s)) = true).
  { intros c Hc. rewrite has_version_with, (Hok c Hc). reflexivity. }
  destruct (bool_decide _); simpl; [| exact Hold].
  intros c Hc. simpl in Hc. apply in_app_iff in Hc as [Hc | Hc]; [apply Hold, Hc |].
  pose proof (new_change_records_fk userId env request s []) as H.
  rewrite forallb_forall in H. apply (H c Hc).
Qed.

Lemma flat_map_ext_In {A B} (f g : A → list B) (l : list A) :
  (∀ x, In x l → f x = g x) → flat_map f l = flat_map g l.
Proof.
  induction l as [| x l IH]; intros H; simpl; [reflexivity |].
  rewrite (H x) by (left; reflexivity). f_equal. apply IH. intros y Hy. apply H. right. exact Hy.
Qed.

Section HistoryJoin.
Variables (userId : string) (env : Env) (request : CommitRequest) (s : Store).
Hypothesis Hchanges : changes_ok s.
Hypothesis Hfresh : has_version (db_uuid env) (context_versions s) = false.

Let nv := new_version userId env request s.

Lemma join_after_trigger (owner : string) (c : ContextChange) :
  List.map (history_row c)
    (List.filter (fun v => String.eqb (cv_id v) (cc_version_id c)
                           && String.eqb (cv_user_id v) owner)
       (enforce_single_current_version nv (context_versions s)))
  = List.map (history_row c)
      (List.filter (fun v => String.eqb (cv_id v) (cc_version_id c)
                             && String.eqb (cv_user_id v) owner)
         (context_versions s)).
Proof.
  unfold enforce_single_current_version. simpl. clear Hfresh Hchanges.
  induction (context_versions s) as [| w l IH]; simpl; [reflexivity |].
  destruct (String.eqb (cv_user_id w) (cr_user_id request)
            && negb (String.eqb (cv_id w) (db_uuid env)) && cv_is_current w); simpl;
    destruct (String.eqb (cv_id w) (cc_version_id c) && String.eqb (cv_user_id w) owner);
    simpl; rewrite IH; reflexivity.
Qed.

Lemma join_old_change (owner : string) (c : ContextChange) :
  In c (context_changes s) →
  List.map (history_row c)
    (List.filter (fun v => String.eqb (cv_id v) (cc_version_id c)
                           && String.eqb (cv_user_id v) owner)
       (context_versions (committed userId env request s)))
  = List.map (history_row c)
      (List.filter (fun v => String.eqb (cv_id v) (cc_version_id c)
                             && String.eqb (cv_user_id v) owner)
         (context_versions s)).
Proof.
  intros Hc. simpl. fold nv. rewrite List.filter_app, List.map_app, join_after_trigger.
  simpl. assert (String.eqb (db_uuid env) (cc_version_id c) = false) as ->.
  { apply String.eqb_neq. intros E. apply Hchanges in Hc. congruence. }
  simpl. apply app_nil_r.
Qed.

Lemma join_new_change (owner : string) (c : ContextChange) :
  In c (new_change_records userId env request s) →
  List.map (history_row c)
    (List.filter (fun v => String.eqb (cv_id v) (cc_version_id c)
                           && String.eqb (cv_user_id v) owner)
       (context_versions (committed userId env request s)))
  = if String.eqb (cr_user_id request) owner then [history_row c nv] else [].
Proof.
  intros Hc. apply in_map_iff in Hc as [u [<- _]]. simpl. fold nv.
  rewrite List.filter_app, List.map_app. simpl. rewrite String.eqb_refl. simpl.
  rewrite filter_none.
  - simpl. destruct (String.eqb (cr_user_id request) owner); reflexivity.
  - intros w Hw. apply andb_false_iff. left. apply String.eqb_neq. intros E.
    apply (in_map cv_id) in Hw. rewrite enforce_ids in Hw.
    apply in_map_iff in Hw as [w0 [E0 Hw0]].
    assert (has_version (db_uuid env) (context_versions s) = true); [| congruence].
    apply has_version_In. exists w0. split; [exact Hw0 | congruence].
Qed.

Lemma changes_of_owner_committed (owner : string) :
  changes_of_owner owner (committed userId env request s)
  = changes_of_owner owner s
    ++ (if String.eqb (cr_user_id request) owner
        then List.map (fun c => history_row c nv) (new_change_records userId env request s)
        else []).
Proof.
  unfold changes_of_owner at 1.
  change (context_changes (committed userId env request s))
    with (context_changes s ++ new_change_records userId env request s).
  rewrite flat_map_app. f_equal.
  - unfold changes_of_owner. apply flat_map_ext_In. intros c Hc.
    apply join_old_change, Hc.
  - transitivity (flat_map (fun c => if String.eqb (cr_user_id request) owner
                                     then [history_row c nv] else [])
                    (new_change_records userId env request s)).
    + apply flat_map_ext_In. intros c Hc. apply join_new_change, Hc.
    + destruct (String.eqb (cr_user_id request) owner).
      * induction (new_change_records userId env request s) as [| c l IH]; simpl;
          [reflexivity | rewrite IH; reflexivity].
      * induction (new_change_records userId env request s) as [| c l IH]; simpl;
          [reflexivity | exact IH].
Qed.
End HistoryJoin.

Lemma filter_name_unique (changes : list FieldUpdate) (c : FieldUpdate) :
  NoDup (List.map fu_field_name changes) → In c changes →
  List.filter (fun c' => String.eqb (fu_field_name c') (fu_field_name c)) changes = [c].
Proof.
  induction changes as [| x l IH]; simpl; [tauto |].
  rewrite NoDup_cons_In. intros [Hx Hnd] [-> | Hc].
  - rewrite String.eqb_refl. f_equal. apply filter_none.
    intros y Hy. apply String.eqb_neq. intros E. apply Hx. rewrite <- E. apply in_map, Hy.
  - assert (String.eqb (fu_field_name x) (fu_field_name c) = false) as ->; [| auto].
    apply String.eqb_neq. intros E. apply Hx. rewrite E. apply in_map, Hc.
Qed.

Lemma new_history_rows (userId : string) (env : Env) (request : CommitRequest) (s : Store)
    (fieldName : string) (range : option (Z * Z)) :
  List.filter (in_time_range range)
    (List.filter (fun r => String.eqb (cc_field_name (fh_change r)) fieldName)
       (List.map (fun c => history_row c (new_version userId env request s))
          (new_change_records userId env request s)))
  = List.map (fun c => history_row c (new_version userId env request s))
      (List.filter (fun c => in_time_range range
                               (history_row c (new_version userId env request s)))
         (List.map (change_record (db_uuid env) (js_now env) (previous_object userId s))
            (List.filter (fun c => String.eqb (fu_field_name c) fieldName)
               (cr_changes request)))).
Proof.
  unfold new_change_records.
  induction (cr_changes request) as [| c l IH]; simpl; [reflexivity |].
  destruct (String.eqb (fu_field_name c) fieldName); simpl; [| exact IH].
  destruct (in_time_range range _); simpl; rewrite IH; reflexivity.
Qed.

(** X12 (a commit extends one field history by one row).  After a commit
    that returns from a store that satisfies the key constraints, the
    history of a field the request does not update, and every field
    history of another owner, is what it was; the history of a field the
    request updates, for the request's owner, has exactly one row more: the
    change row the commit logged, joined with the new version. *)
Theorem field_history_after_commit :
  ∀ (userId : string) (env : Env) (request : CommitRequest) (s s' : Store)
    (v : ContextVersion) (owner fieldName : string) (range : option (Z * Z)),
    store_ok s →
    changes_ok s →
    commit userId env request s = (s', inr v) →
    (¬ In fieldName (List.map fu_field_name (cr_changes request))
     ∨ owner ≠ cr_user_id request →
     snd (getFieldHistory owner fieldName
            (match range with Some (a, b) => Some (Some a, Some b) | None => None end) s')
     = snd (getFieldHistory owner fieldName
              (match range with Some (a, b) => Some (Some a, Some b) | None => None end) s))
    ∧ (∀ c, In c (cr_changes request) → fu_field_name c = fieldName →
         ∃ rows rows',
           getFieldHistory (cr_user_id request) fieldName None s = (s, inr rows)
           ∧ getFieldHistory (cr_user_id request) fieldName None s' = (s', inr rows')
           ∧ length rows' = S (length rows)
           ∧ (∀ r, In r rows' ↔
                   In r rows
                   ∨ r = history_row
                           (change_record (cv_id v) (js_now env) (previous_object userId s) c)
                           v)).
Proof.
  intros userId env request s s' v owner fieldName range Hok Hcok Hc.
  apply (commit_returned _ _ _ _ _ _ Hok) in Hc as [Hv [Hnd [-> ->]]].
  pose proof (insertable_fresh _ _ Hv) as Hfresh. cbn [cv_id new_version] in Hfresh.
  split.
  - intros Hcase. rewrite !getFieldHistory_eq. simpl. f_equal. f_equal.
    rewrite (changes_of_owner_committed userId env request s Hcok Hfresh owner).
    rewrite !List.filter_app.
    assert (Hnone : List.filter (in_time_range range)
              (List.filter (fun r => String.eqb (cc_field_name (fh_change r)) fieldName)
                 (if String.eqb (cr_user_id request) owner
                  then List.map (fun c => history_row c (new_version userId env request s))
                         (new_change_records userId env request s)
                  else [])) = []).
    { destruct (String.eqb_spec (cr_user_id request) owner) as [E | E]; [| reflexivity].
      destruct Hcase as [Hn | Hne]; [| congruence].
      rewrite new_history_rows. rewrite (filter_none _ (cr_changes request)); [reflexivity |].
      intros c Hc. apply String.eqb_neq. intros E'. apply Hn. rewrite <- E'.
      apply in_map, Hc. }
    rewrite Hnone. apply app_nil_r.
  - intros c Hc Hn. eexists _, _.
    split; [apply (getFieldHistory_eq _ _ None) |].
    split; [apply (getFieldHistory_eq _ _ None) |].
    rewrite (changes_of_owner_committed userId env request s Hcok Hfresh).
    rewrite String.eqb_refl, !List.filter_app, (new_history_rows _ _ _ _ _ None).
    subst fieldName. rewrite (filter_name_unique _ _ Hnd Hc). simpl.
    split.
    + rewrite !order_desc_length, length_app. simpl. lia.
    + intros r. rewrite !order_desc_In, in_app_iff. simpl. intuition congruence.
Qed.

Lemma field_history_after_commit_witness :
  snd (getFieldHistory "u" "b" None s2) = snd (getFieldHistory "u" "b" None s1)
  ∧ ∃ rows rows',
      getFieldHistory "u" "a" None s1 = (s1, inr rows)
      ∧ getFieldHistory "u" "a" None s2 = (s2, inr rows')
      ∧ length rows' = S (length rows).
Proof.
  assert (Hc : commit "u" env2 req2 s1 = (s2, inr (new_version "u" env2 req2 s1))).
  { vm_compute. reflexivity. }
  assert (Hok : store_ok s1) by apply store_ok_commit, store_ok_empty.
  assert (Hcok : changes_ok s1) by apply changes_ok_commit, changes_ok_empty.
  split.
  - apply (proj1 (field_history_after_commit "u" env2 req2 s1 s2 _ "u" "b" None Hok Hcok Hc)).
    left. simpl. intros [E | []]. discriminate.
  - destruct (proj2 (field_history_after_commit "u" env2 req2 s1 s2 _ "u" "a" None
                       Hok Hcok Hc) (update "a" (JNum 2) FT_number))
      as [rows [rows' [H1 [H2 [H3 _]]]]].
    + left. reflexivity.
    + reflexivity.
    + exists rows, rows'. split; [exact H1 |]. split; [exact H2 | exact H3].
Defined.

(** ** getStats *)

Lemma count_up_total (key : string) (counts : list (string * nat)) :
  total_count (count_up key counts) = S (total_count counts).
Proof.
  induction counts as [| [k n] l IH]; simpl; [reflexivity |].
  destruct (String.eqb k key); simpl; [reflexivity | rewrite IH; lia].
Qed.

Lemma count_up_keys (key : string) (counts : list (string * nat)) (k : string) :
  In k (List.map fst (count_up key counts)) ↔ k = key ∨ In k (List.map fst counts).
Proof.
  induction counts as [| [k' n] l IH]; simpl; [intuition congruence |].
  destruct (String.eqb_spec k' key) as [-> | Hne]; simpl; [intuition congruence |].
  rewrite IH. intuition congruence.
Qed.

Lemma count_up_NoDup (key : string) (counts : list (string * nat)) :
  NoDup (List.map fst counts) → NoDup (List.map fst (count_up key counts)).
Proof.
  induction counts as [| [k n] l IH]; simpl.
  - intros _. apply NoDup_cons_In. split; [intros [] | constructor].
  - rewrite NoDup_cons_In. intros [Hk Hnd].
    destruct (String.eqb_spec k key) as [-> | Hne]; simpl.
    + apply NoDup_cons_In. tauto.
    + apply NoDup_cons_In. split; [| auto].
      rewrite count_up_keys. intuition congruence.
Qed.

Lemma count_up_count (key k : string) (counts : list (string * nat)) :
  count_of k (count_up key counts)
  = if String.eqb key k then S (count_of k counts) else count_of k counts.
Proof.
  induction counts as [| [k' n] l IH]; simpl.
  - destruct (String.eqb key k); reflexivity.
  - destruct (String.eqb_spec k' key) as [-> | Hne]; simpl.
    + destruct (String.eqb key k); reflexivity.
    + rewrite IH. destruct (String.eqb_spec k' k) as [-> | Hne']; [| reflexivity].
      destruct (String.eqb_spec key k); [congruence | reflexivity].
Qed.

Lemma count_of_In (counts : list (string * nat)) (k : string) (n : nat) :
  NoDup (List.map fst counts) → In (k, n) counts → count_of k counts = n.
Proof.
  induction counts as [| [k' m] l IH]; simpl; [tauto |].
  rewrite NoDup_cons_In. intros [Hk Hnd] [[= -> ->] | Hin].
  - rewrite String.eqb_refl. reflexivity.
  - destruct (String.eqb_spec k' k) as [-> | Hne]; [| auto].
    exfalso. apply Hk. apply (in_map fst) in Hin. exact Hin.
Qed.

Lemma count_of_absent (counts : list (string * nat)) (k : string) :
  ¬ In k (List.map fst counts) → count_of k counts = 0%nat.
Proof.
  induction counts as [| [k' m] l IH]; simpl; [reflexivity |].
  intros H. destruct (String.eqb_spec k' k) as [-> | Hne]; [tauto | apply IH; tauto].
Qed.

Lemma count_up_positive (key : string) (counts : list (string * nat)) :
  (∀ kv, In kv counts → (0 < snd kv)%nat) →
  ∀ kv, In kv (count_up key counts) → (0 < snd kv)%nat.
Proof.
  induction counts as [| [k n] l IH]; simpl; intros H kv Hin.
  - destruct Hin as [<- | []]. simpl. lia.
  - destruct (String.eqb k key); simpl in Hin.
    + destruct Hin as [<- | Hin]; [simpl; lia | apply H; right; exact Hin].
    + destruct Hin as [<- | Hin]; [apply (H (k, n)); left; reflexivity |].
      apply IH; [| exact Hin]. intros kv' Hkv'. apply H. right. exact Hkv'.
Qed.

Section Occurrences.
Variable keys : list string.

Lemma occurrences_facts :
  ∀ acc,
    NoDup (List.map fst acc) →
    (∀ kv, In kv acc → (0 < snd kv)%nat) →
    let counts := fold_left (fun counts key => count_up key counts) keys acc in
    NoDup (List.map fst counts)
    ∧ (∀ kv, In kv counts → (0 < snd kv)%nat)
    ∧ total_count counts = (total_count acc + length keys)%nat
    ∧ ∀ k, count_of k counts
           = (count_of k acc + length (List.filter (String.eqb k) keys))%nat.
Proof.
  induction keys as [| key l IH]; intros acc Hnd Hpos; simpl.
  - split; [exact Hnd |]. split; [exact Hpos |]. split; [lia |]. intros k. lia.
  - destruct (IH (count_up key acc) (count_up_NoDup _ _ Hnd) (count_up_positive _ _ Hpos))
      as [H1 [H2 [H3 H4]]].
    split; [exact H1 |]. split; [exact H2 |].
    split; [rewrite H3, count_up_total; lia |].
    intros k. rewrite H4, count_up_count, (String.eqb_sym k key).
    destruct (String.eqb key k); simpl; lia.
Qed.

Lemma occurrences_NoDup : NoDup (List.map fst (occurrences keys)).
Proof. apply (occurrences_facts []); [constructor | intros kv []]. Qed.

Lemma occurrences_total : total_count (occurrences keys) = length keys.
Proof. apply (occurrences_facts []); [constructor | intros kv []]. Qed.

Lemma occurrences_entry (k : string) (n : nat) :
  In (k, n) (occurrences keys)
  ↔ n = length (List.filter (String.eqb k) keys) ∧ (0 < n)%nat.
Proof.
  destruct (occurrences_facts [] NoDup_nil_2) as [Hnd [Hpos [_ Hcount]]];
    [intros kv [] |].
  fold (occurrences keys) in *. simpl in Hcount. split.
  - intros Hin. split; [| apply (Hpos (k, n) Hin)].
    rewrite <- Hcount. symmetry. apply count_of_In; assumption.
  - intros [-> Hn]. rewrite <- Hcount in *.
    destruct (in_dec string_dec k (List.map fst (occurrences keys))) as [Hin | Hout].
    + apply in_map_iff in Hin as [[k' m] [E Hin]]. simpl in E. subst k'.
      rewrite (count_of_In _ _ _ Hnd Hin). exact Hin.
    + rewrite (count_of_absent _ _ Hout) in Hn. lia.
Qed.
End Occurrences.

Section JsSort.
Context {A : Type} (before : A → A → bool).
Hypothesis before_total : ∀ x y, before x y = true ∨ before y x = true.
Hypothesis before_trans :
  ∀ x y z, before x y = true → before y z = true → before x z = true.

Lemma insert_sorted_sorted (x : A) (l : list A) :
  sorted_by before l → sorted_by before (insert_sorted before x l).
Proof.
  induction l as [| w l IH]; simpl; [intros _; split; [intros ? [] | exact I] |].
  intros [Hw Hl]. destruct (before x w) eqn:E; simpl.
  - split; [| split; assumption]. intros y [<- | Hy]; [exact E |].
    apply (before_trans x w y E), Hw, Hy.
  - split; [| apply IH, Hl].
    intros y Hy. apply (insert_sorted_In before) in Hy as [-> | Hy]; [| apply Hw, Hy].
    destruct (before_total x w) as [H | H]; [congruence | exact H].
Qed.

Lemma js_sort_sorted (l : list A) : sorted_by before (js_sort before l).
Proof.
  induction l as [| x l IH]; simpl; [exact I | apply insert_sorted_sorted, IH].
Qed.

Lemma sorted_by_split (n : nat) (l : list A) (x y : A) :
  sorted_by before l → In x (firstn n l) → In y (skipn n l) → before x y = true.
Proof.
  revert l. induction n as [| n IH]; intros [| w l]; simpl; try tauto.
  intros [Hw Hl] [<- | Hx] Hy; [apply Hw, (in_skipn n), Hy | apply (IH l); assumption].
Qed.

Lemma sorted_by_firstn (n : nat) (l : list A) :
  sorted_by before l → sorted_by before (firstn n l).
Proof.
  revert l. induction n as [| n IH]; intros [| w l]; simpl; try tauto.
  intros [Hw Hl]. split; [| apply IH, Hl].
  intros y Hy. apply Hw, (in_firstn n), Hy.
Qed.
End JsSort.

Lemma ascii_compare_lt_trans (x y z : ascii) :
  Ascii.compare x y = Lt → Ascii.compare y z = Lt → Ascii.compare x z = Lt.
Proof.
  unfold Ascii.compare. rewrite !N.compare_lt_iff. lia.
Qed.

Lemma ascii_compare_refl (x : ascii) : Ascii.compare x x = Eq.
Proof. unfold Ascii.compare. apply N.compare_refl. Qed.

Lemma string_compare_refl (a : string) : String.compare a a = Eq.
Proof.
  induction a as [| x a IH]; simpl; [reflexivity |]. rewrite ascii_compare_refl. exact IH.
Qed.

Lemma string_compare_lt_trans (a b c : string) :
  String.compare a b = Lt → String.compare b c = Lt → String.compare a c = Lt.
Proof.
  revert b c. induction a as [| x a IH]; intros [| y b] [| z c]; simpl; try congruence.
  intros Hab Hbc.
  destruct (Ascii.compare x y) eqn:Exy; try discriminate;
    destruct (Ascii.compare y z) eqn:Eyz; try discriminate.
  - apply Ascii.compare_eq_iff in Exy, Eyz. subst y z. rewrite ascii_compare_refl. eauto.
  - apply Ascii.compare_eq_iff in Exy. subst y. rewrite Eyz. reflexivity.
  - apply Ascii.compare_eq_iff in Eyz. subst z. rewrite Exy. reflexivity.
  - rewrite (ascii_compare_lt_trans _ _ _ Exy Eyz). reflexivity.
Qed.

Lemma string_leb_trans (a b c : string) :
  String.leb a b = true → String.leb b c = true → String.leb a c = true.
Proof.
  unfold String.leb.
  destruct (String.compare a b) eqn:Eab; try discriminate;
    destruct (String.compare b c) eqn:Ebc; try discriminate; intros _ _.
  - apply String.compare_eq_iff in Eab, Ebc. subst b c.
    rewrite string_compare_refl. reflexivity.
  - apply String.compare_eq_iff in Eab. subst b. rewrite Ebc. reflexivity.
  - apply String.compare_eq_iff in Ebc. subst c. rewrite Eab. reflexivity.
  - rewrite (string_compare_lt_trans _ _ _ Eab Ebc). reflexivity.
Qed.


(** ** Counting records and counting lists *)

Lemma insert_sorted_map {A B} (h : A → B) (before : A → A → bool)
    (before' : B → B → bool) (x : A) (l : list A) :
  (∀ a b, before' (h a) (h b) = before a b) →
  insert_sorted before' (h x) (List.map h l) = List.map h (insert_sorted before x l).
Proof.
  intros Hh. induction l as [| w l IH]; simpl; [reflexivity |].
  rewrite Hh. destruct (before x w); simpl; [reflexivity | rewrite IH; reflexivity].
Qed.

Lemma js_sort_map {A B} (h : A → B) (before : A → A → bool)
    (before' : B → B → bool) (l : list A) :
  (∀ a b, before' (h a) (h b) = before a b) →
  js_sort before' (List.map h l) = List.map h (js_sort before l).
Proof.
  intros Hh. induction l as [| x l IH]; simpl; [reflexivity |].
  rewrite IH. apply insert_sorted_map, Hh.
Qed.

Lemma filter_map_commute {A B} (h : A → B) (p : A → bool) (p' : B → bool) (l : list A) :
  (∀ a, p' (h a) = p a) → List.filter p' (List.map h l) = List.map h (List.filter p l).
Proof.
  intros Hh. induction l as [| x l IH]; simpl; [reflexivity |].
  rewrite Hh. destruct (p x); simpl; rewrite IH; reflexivity.
Qed.

Lemma object_entries_as_numbers (counts : list (string * nat)) (p : option JsCount)
    (q : option nat) :
  object_entries {| js_own := as_numbers counts; js_proto := p |}
  = as_numbers (object_entries {| js_own := counts; js_proto := q |}).
Proof.
  unfold object_entries, as_numbers. simpl.
  rewrite List.map_app. f_equal.
  - rewrite (filter_map_commute _ is_index) by reflexivity.
    apply js_sort_map. reflexivity.
  - apply filter_map_commute. reflexivity.
Qed.

Lemma as_numbers_sort_count (counts : list (string * nat)) :
  js_sort by_count_desc (as_numbers counts) = as_numbers (js_sort count_desc counts).
Proof. apply js_sort_map. reflexivity. Qed.

Lemma as_numbers_sort_date (counts : list (string * nat)) :
  js_sort by_date_asc (as_numbers counts) = as_numbers (js_sort by_date_asc counts).
Proof. apply js_sort_map. reflexivity. Qed.

Lemma as_numbers_firstn (n : nat) (counts : list (string * nat)) :
  firstn n (as_numbers counts) = as_numbers (firstn n counts).
Proof. apply firstn_map. Qed.

Lemma plain_name_cases (name : string) :
  plain_name name = true →
  String.eqb name "__proto__" = false ∧ is_prototype_function name = false.
Proof.
  unfold plain_name. rewrite andb_true_iff, !negb_true_iff. tauto.
Qed.

Lemma set_own_numbers (key : string) (counts : list (string * nat)) (p : option JsCount) :
  plain_name key = true →
  set_own key (next_count key {| js_own := as_numbers counts; js_proto := p |})
    (as_numbers counts)
  = as_numbers (count_up key counts).
Proof.
  intros Hplain. apply plain_name_cases in Hplain as [Hproto Hfun].
  unfold next_count. simpl js_own.
  induction counts as [| [k n] counts IH]; simpl.
  - unfold get_own. simpl. rewrite Hproto, Hfun. reflexivity.
  - unfold get_own in *. simpl. destruct (String.eqb k key); simpl; [reflexivity |].
    rewrite IH. reflexivity.
Qed.

Lemma bump_numbers (key : string) (counts : list (string * nat)) :
  plain_name key = true →
  bump key {| js_own := as_numbers counts; js_proto := None |}
  = {| js_own := as_numbers (count_up key counts); js_proto := None |}.
Proof.
  intros Hplain. unfold bump, assign.
  rewrite (proj1 (plain_name_cases key Hplain)). simpl.
  rewrite set_own_numbers by exact Hplain. reflexivity.
Qed.

Lemma fold_bump_numbers (keys : list string) (counts : list (string * nat)) :
  (∀ key, In key keys → plain_name key = true) →
  fold_left (fun counts key => bump key counts) keys
    {| js_own := as_numbers counts; js_proto := None |}
  = {| js_own := as_numbers (fold_left (fun counts key => count_up key counts) keys counts);
       js_proto := None |}.
Proof.
  revert counts. induction keys as [| key keys IH]; intros counts Hplain; simpl;
    [reflexivity |].
  rewrite bump_numbers by (apply Hplain; left; reflexivity).
  apply IH. intros k Hk. apply Hplain. right. exact Hk.
Qed.

(** Over keys that a fresh [{}] does not answer to, the counting record
    holds the numbers of the counting list. *)
Lemma tally_plain (keys : list string) :
  (∀ key, In key keys → plain_name key = true) →
  tally keys = {| js_own := as_numbers (occurrences keys); js_proto := None |}.
Proof. intros Hplain. apply (fold_bump_numbers keys [] Hplain). Qed.

Lemma total_count_app (l1 l2 : list (string * nat)) :
  total_count (l1 ++ l2) = (total_count l1 + total_count l2)%nat.
Proof. induction l1 as [| x l1 IH]; simpl; [reflexivity | rewrite IH; lia]. Qed.

Lemma total_count_filter (p : string * nat → bool) (l : list (string * nat)) :
  (total_count (List.filter p l) + total_count (List.filter (fun x => negb (p x)) l))%nat
  = total_count l.
Proof.
  induction l as [| x l IH]; simpl; [reflexivity |].
  destruct (p x); simpl; lia.
Qed.

Lemma insert_sorted_total (before : string * nat → string * nat → bool)
    (x : string * nat) (l : list (string * nat)) :
  total_count (insert_sorted before x l) = (snd x + total_count l)%nat.
Proof.
  induction l as [| w l IH]; simpl; [reflexivity |].
  destruct (before x w); simpl; [reflexivity | rewrite IH; lia].
Qed.

Lemma js_sort_total (before : string * nat → string * nat → bool)
    (l : list (string * nat)) :
  total_count (js_sort before l) = total_count l.
Proof.
  induction l as [| x l IH]; simpl; [reflexivity |].
  rewrite insert_sorted_total, IH. reflexivity.
Qed.

Lemma object_entries_total (counts : JsObject nat) :
  total_count (object_entries counts) = total_count (js_own counts).
Proof.
  unfold object_entries. rewrite total_count_app, js_sort_total.
  apply total_count_filter.
Qed.

Lemma total_count_firstn (n : nat) (l : list (string * nat)) :
  (total_count (firstn n l) ≤ total_count l)%nat.
Proof.
  revert l. induction n as [| n IH]; intros [| x l]; simpl; try lia.
  specialize (IH l). lia.
Qed.

Lemma NoDup_firstn_keys (n : nat) (l : list (string * nat)) :
  NoDup (List.map fst l) → NoDup (List.map fst (firstn n l)).
Proof.
  revert l. induction n as [| n IH]; intros [| x l]; simpl;
    [intros; constructor | intros; constructor | intros; constructor |].
  rewrite !NoDup_cons_In. intros [Hx Hnd]. split; [| apply IH, Hnd].
  intros Hin. apply Hx. apply in_map_iff in Hin as [y [E Hy]].
  apply in_firstn in Hy. apply in_map_iff. eauto.
Qed.

Lemma count_desc_total (x y : string * nat) :
  count_desc x y = true ∨ count_desc y x = true.
Proof. unfold count_desc. rewrite !Nat.leb_le. lia. Qed.

Lemma count_desc_trans (x y z : string * nat) :
  count_desc x y = true → count_desc y z = true → count_desc x z = true.
Proof. unfold count_desc. rewrite !Nat.leb_le. lia. Qed.

Lemma by_date_asc_total (x y : string * nat) :
  by_date_asc x y = true ∨ by_date_asc y x = true.
Proof. apply String.leb_total. Qed.

Lemma by_date_asc_trans (x y z : string * nat) :
  by_date_asc x y = true → by_date_asc y z = true → by_date_asc x z = true.
Proof. apply string_leb_trans. Qed.

Lemma filter_eqb_map {A} (f : A → string) (k : string) (l : list A) :
  length (List.filter (String.eqb k) (List.map f l))
  = length (List.filter (fun c => String.eqb (f c) k) l).
Proof.
  induction l as [| x l IH]; simpl; [reflexivity |].
  rewrite (String.eqb_sym k (f x)). destruct (String.eqb (f x) k); simpl; congruence.
Qed.

(** ** ISO dates are plain keys *)

Lemma digit_cases (x : Z) :
  In (IsoDate.digit x) ["0"; "1"; "2"; "3"; "4"; "5"; "6"; "7"; "8"; "9"]%char.
Proof.
  unfold IsoDate.digit.
  assert (H : (0 ≤ x mod 10 < 10)%Z) by (apply Z.mod_pos_bound; lia).
  assert (E : (x mod 10 = 0 ∨ x mod 10 = 1 ∨ x mod 10 = 2 ∨ x mod 10 = 3 ∨ x mod 10 = 4
               ∨ x mod 10 = 5 ∨ x mod 10 = 6 ∨ x mod 10 = 7 ∨ x mod 10 = 8
               ∨ x mod 10 = 9)%Z) by lia.
  repeat (destruct E as [E | E]; [rewrite E; simpl; tauto |]).
  rewrite E. simpl. tauto.
Qed.

Lemma year_head (y : Z) :
  ∃ c rest, IsoDate.year y = String c rest
            ∧ In c ["0"; "1"; "2"; "3"; "4"; "5"; "6"; "7"; "8"; "9"; "+"; "-"]%char.
Proof.
  unfold IsoDate.year.
  destruct ((0 <=? y)%Z && (y <=? 9999)%Z); [| destruct (y <? 0)%Z].
  - eexists _, _. split; [reflexivity |].
    pose proof (digit_cases (y / 10 ^ Z.of_nat 3)) as H. simpl in H |- *. tauto.
  - eexists _, _. split; [reflexivity |]. simpl. tauto.
  - eexists _, _. split; [reflexivity |]. simpl. tauto.
Qed.

Lemma iso_date_head (t : Z) :
  ∃ c rest, iso_date t = String c rest
            ∧ In c ["0"; "1"; "2"; "3"; "4"; "5"; "6"; "7"; "8"; "9"; "+"; "-"]%char.
Proof.
  unfold iso_date, IsoDate.toISOString.
  destruct (IsoDate.civil (t / 86400000)) as [[y m] d].
  destruct (year_head y) as [c [rest [E Hc]]]. rewrite E.
  exists c. eexists. split; [| exact Hc].
  simpl in Hc |- *.
  repeat (destruct Hc as [<- | Hc]; [reflexivity |]). destruct Hc.
Qed.

Lemma iso_date_plain (t : Z) : plain_name (iso_date t) = true.
Proof.
  destruct (iso_date_head t) as [c [rest [E Hc]]]. rewrite E. simpl in Hc.
  repeat (destruct Hc as [<- | Hc]; [reflexivity |]). destruct Hc.
Qed.

Lemma getStats_eq (userId : string) (now : Z) (s : Store) :
  getStats userId now s
  = (s, inr
      {| total_versions := length (versions_of userId s);
         total_changes := length (changes_in (List.map cv_id (versions_of userId s)) s);
         most_changed_fields :=
           firstn 10 (js_sort by_count_desc
                        (object_entries
                           (tally (List.map cc_field_name
                                     (changes_in (List.map cv_id (versions_of userId s))
                                        s)))));
         recent_activity :=
           js_sort by_date_asc
             (object_entries
                (tally (List.map (fun v => iso_date (cv_created_at v))
                          (List.filter
                             (fun v => (thirty_days_before now <=? cv_created_at v)%Z)
                             (versions_of userId s))))) |}).
Proof. reflexivity. Qed.

(** X13 (statistics: totals and most changed fields).  [getStats] returns
    without writing.  [total_versions] is the number of the owner's version
    rows and [total_changes] the number of change rows of these versions.
    When no change row of these versions names a field that a fresh [{}]
    answers to ([__proto__] or a member of [Object.prototype]),
    [most_changed_fields] holds numbers: at most ten entries with distinct
    field names, ordered by descending count; each entry's count is the
    positive number of the owner's change rows for that field; a field with
    change rows is listed unless ten fields are listed that each have at
    least as many. *)
Theorem getStats_most_changed_fields :
  ∀ (userId : string) (now : Z) (s : Store),
    (∀ c, In c (changes_in (List.map cv_id (versions_of userId s)) s) →
          plain_name (cc_field_name c) = true) →
    ∃ st counts,
      getStats userId now s = (s, inr st)
      ∧ total_versions st = length (versions_of userId s)
      ∧ total_changes st = length (changes_in (List.map cv_id (versions_of userId s)) s)
      ∧ most_changed_fields st = as_numbers counts
      ∧ (length counts ≤ 10)%nat
      ∧ NoDup (List.map fst counts)
      ∧ sorted_by count_desc counts
      ∧ (total_count counts ≤ total_changes st)%nat
      ∧ (∀ k n, In (k, n) counts →
                n = length (owner_changes_of userId k s) ∧ (0 < n)%nat)
      ∧ (∀ k, (0 < length (owner_changes_of userId k s))%nat →
              In (k, length (owner_changes_of userId k s)) counts
              ∨ (length counts = 10%nat
                 ∧ ∀ kv, In kv counts →
                         (length (owner_changes_of userId k s) ≤ snd kv)%nat)).
Proof.
  intros userId now s Hplain.
  set (changes := changes_in (List.map cv_id (versions_of userId s)) s) in *.
  set (entries := object_entries {| js_own := occurrences (List.map cc_field_name changes);
                                    js_proto := None |}).
  exists {| total_versions := length (versions_of userId s);
            total_changes := length changes;
            most_changed_fields := as_numbers (firstn 10 (js_sort count_desc entries));
            recent_activity :=
              js_sort by_date_asc
                (object_entries
                   (tally (List.map (fun v => iso_date (cv_created_at v))
                             (List.filter
                                (fun v => (thirty_days_before now <=? cv_created_at v)%Z)
                                (versions_of userId s))))) |},
         (firstn 10 (js_sort count_desc entries)).
  split.
  { rewrite getStats_eq. fold changes. rewrite tally_plain.
    - rewrite (object_entries_as_numbers _ None None), as_numbers_sort_count,
        as_numbers_firstn. reflexivity.
    - intros key Hkey. apply in_map_iff in Hkey as [c [<- Hc]]. apply Hplain, Hc. }
  simpl.
  assert (Hentry : ∀ k n, In (k, n) (js_sort count_desc entries)
                          ↔ n = length (owner_changes_of userId k s) ∧ (0 < n)%nat).
  { intros k n. rewrite js_sort_In. unfold entries. rewrite object_entries_In. simpl.
    rewrite occurrences_entry, filter_eqb_map. reflexivity. }
  assert (Hnd : NoDup (List.map fst (js_sort count_desc entries))).
  { apply js_sort_NoDup, object_entries_NoDup. simpl. apply occurrences_NoDup. }
  pose proof (js_sort_sorted count_desc count_desc_total count_desc_trans entries)
    as Hsorted.
  split; [reflexivity |]. split; [reflexivity |]. split; [reflexivity |].
  split; [apply firstn_le_length |].
  split; [apply NoDup_firstn_keys, Hnd |].
  split; [apply sorted_by_firstn, Hsorted |].
  split.
  { etransitivity; [apply total_count_firstn |]. rewrite js_sort_total. unfold entries.
    rewrite object_entries_total. simpl.
    rewrite occurrences_total, length_map. reflexivity. }
  split.
  { intros k n Hin. apply Hentry. apply (in_firstn 10). exact Hin. }
  intros k Hk.
  assert (Hin : In (k, length (owner_changes_of userId k s)) (js_sort count_desc entries)).
  { apply Hentry. tauto. }
  rewrite <- (firstn_skipn 10 (js_sort count_desc entries)) in Hin.
  apply in_app_iff in Hin as [Hin | Hin]; [left; exact Hin | right].
  split.
  - rewrite length_firstn. apply Nat.min_l.
    destruct (Nat.le_gt_cases 10 (length (js_sort count_desc entries))) as [H | H];
      [exact H |].
    rewrite skipn_all2 in Hin by lia. destruct Hin.
  - intros kv Hkv.
    pose proof (sorted_by_split count_desc 10 _ kv _ Hsorted Hkv Hin) as H.
    unfold count_desc in H. simpl in H. apply Nat.leb_le in H. exact H.
Qed.

Lemma getStats_most_changed_fields_witness :
  ∃ st counts,
    getStats "u" 1700000200000 s3 = (s3, inr st)
    ∧ most_changed_fields st = as_numbers counts
    ∧ (length counts ≤ 10)%nat
    ∧ (∀ kv, In kv counts → (0 < snd kv)%nat)
    ∧ (In ("a", length (owner_changes_of "u" "a" s3)) counts
       ∨ length counts = 10%nat).
Proof.
  assert (Hplain : ∀ c, In c (changes_in (List.map cv_id (versions_of "u" s3)) s3) →
                        plain_name (cc_field_name c) = true).
  { clear. intros c Hc. vm_compute in Hc.
    repeat (destruct Hc as [<- | Hc]; [reflexivity |]). destruct Hc. }
  destruct (getStats_most_changed_fields "u" 1700000200000 s3 Hplain)
    as [st [counts [H1 [_ [_ [H4 [H5 [_ [_ [_ [H8 H9]]]]]]]]]]].
  exists st, counts. split; [exact H1 |]. split; [exact H4 |]. split; [exact H5 |]. split.
  - intros [k n] Hkv. apply (H8 k n Hkv).
  - destruct (H9 "a") as [Hin | [Hlen _]]; [| left; exact Hin | right; exact Hlen].
    clear. vm_compute. lia.
Defined.

(** A field named like a member of [Object.prototype] is counted as a text:
    two changes of [constructor] are listed with the source text of
    [Object] followed by [11]. *)
Example constructor_counted_as_text :
  object_entries (tally ["constructor"; "a"; "constructor"])
  = [("constructor", CountText "function Object() { [native code] }11");
     ("a", CountNumber 1)]
  ∧ object_entries (tally ["__proto__"; "a"]) = [("a", CountNumber 1)].
Proof. split; reflexivity. Qed.

(** X14 (statistics: recent activity).  [recent_activity] holds numbers,
    one entry per calendar day (UTC) on which the owner has a version
    created no earlier than thirty days before the call, ordered by
    ascending date; the entry's count is the positive number of these
    versions created on that day, and the counts add up to the number of
    the owner's versions created no earlier than thirty days before the
    call. *)
Theorem getStats_recent_activity :
  ∀ (userId : string) (now : Z) (s : Store),
    ∃ st counts,
      getStats userId now s = (s, inr st)
      ∧ recent_activity st = as_numbers counts
      ∧ NoDup (List.map fst counts)
      ∧ sorted_by by_date_asc counts
      ∧ total_count counts
        = length (List.filter (fun v => (now - 30 * 86400000 <=? cv_created_at v)%Z)
                    (versions_of userId s))
      ∧ ∀ d n, In (d, n) counts
               ↔ n = length
                       (List.filter (fun v => String.eqb (iso_date (cv_created_at v)) d)
                          (List.filter
                             (fun v => (now - 30 * 86400000 <=? cv_created_at v)%Z)
                             (versions_of userId s)))
                 ∧ (0 < n)%nat.
Proof.
  intros userId now s.
  set (recent := List.filter (fun v => (now - 30 * 86400000 <=? cv_created_at v)%Z)
                   (versions_of userId s)).
  set (entries := object_entries
                    {| js_own := occurrences
                                   (List.map (fun v => iso_date (cv_created_at v)) recent);
                       js_proto := None |}).
  exists {| total_versions := length (versions_of userId s);
            total_changes := length (changes_in (List.map cv_id (versions_of userId s)) s);
            most_changed_fields :=
              firstn 10 (js_sort by_count_desc
                           (object_entries
                              (tally (List.map cc_field_name
                                        (changes_in (List.map cv_id (versions_of userId s))
                                           s)))));
            recent_activity := as_numbers (js_sort by_date_asc entries) |},
         (js_sort by_date_asc entries).
  split.
  { rewrite getStats_eq. unfold thirty_days_before. fold recent.
    rewrite (tally_plain (List.map (fun v => iso_date (cv_created_at v)) recent)).
    - rewrite (object_entries_as_numbers _ None None), as_numbers_sort_date. reflexivity.
    - intros key Hkey. apply in_map_iff in Hkey as [v [<- _]]. apply iso_date_plain. }
  simpl.
  split; [reflexivity |].
  split; [apply js_sort_NoDup, object_entries_NoDup; simpl; apply occurrences_NoDup |].
  split; [apply js_sort_sorted; [apply by_date_asc_total | apply by_date_asc_trans] |].
  split.
  { rewrite js_sort_total. unfold entries. rewrite object_entries_total. simpl.
    rewrite occurrences_total, length_map. reflexivity. }
  intros d n. rewrite js_sort_In. unfold entries. rewrite object_entries_In. simpl.
  rewrite occurrences_entry, (filter_eqb_map (fun v => iso_date (cv_created_at v))).
  reflexivity.
Qed.

(** Commits of 2023-11-14, seen within and after the thirty-day window. *)
Example stats_scenario :
  (∃ st, snd (getStats "u" 1700000200000 s3) = inr st
         ∧ total_versions st = 3%nat ∧ total_changes st = 4%nat
         ∧ most_changed_fields st
           = [("a", CountNumber 2); ("b", CountNumber 1); ("c", CountNumber 1)]
         ∧ recent_activity st = [("2023-11-14", CountNumber 3)])
  ∧ (∃ st, snd (getStats "u" 1800000000000 s3) = inr st
           ∧ total_versions st = 3%nat ∧ recent_activity st = []).
Proof. split; eexists; vm_compute; repeat split. Qed.

(** ** get_business_state_at and getStateAtTime *)

Lemma fields_until_In (owner : string) (T : Z) (s : Store)
    (f : BusinessStateField) (v : ContextVersion) :
  In (f, v) (fields_until owner T s)
  ↔ In f (business_state s) ∧ In v (context_versions s)
    ∧ bs_version_id f = cv_id v ∧ cv_user_id v = owner ∧ (cv_created_at v ≤ T)%Z.
Proof.
  unfold fields_until. rewrite in_flat_map. split.
  - intros [bs [Hbs Hin]]. apply in_map_iff in Hin as [cv [[= <- <-] Hcv]].
    apply filter_In in Hcv as [Hcv E]. rewrite !andb_true_iff in E.
    destruct E as [[E1 E2] E3]. apply String.eqb_eq in E1, E2. apply Z.leb_le in E3. tauto.
  - intros [Hf [Hv [E1 [E2 E3]]]]. exists f. split; [exact Hf |].
    apply in_map, filter_In. split; [exact Hv |].
    rewrite !andb_true_iff. repeat split;
      [apply String.eqb_eq; exact E1 | apply String.eqb_eq; exact E2 | apply Z.leb_le; exact E3].
Qed.

Lemma order_desc_head {A} (key : A → Z) (l : list A) :
  match order_desc key l with
  | [] => l = []
  | x :: _ => In x l ∧ ∀ y, In y l → (key y ≤ key x)%Z
  end.
Proof.
  pose proof (order_desc_sorted key l) as Hs.
  pose proof (order_desc_In key l) as Hin.
  pose proof (order_desc_length key l) as Hlen.
  destruct (order_desc key l) as [| x rest].
  - destruct l; [reflexivity | discriminate].
  - destruct Hs as [Hx _]. split; [apply Hin; left; reflexivity |].
    intros y Hy. apply Hin in Hy as [<- | Hy]; [lia | apply Hx, Hy].
Qed.

Lemma get_business_state_at_In (owner : string) (T : Z) (s : Store) (row : StateAtRow) :
  In row (get_business_state_at owner T s)
  ↔ ∃ f v, In (f, v) (fields_until owner T s)
           ∧ row = {| sa_field_name := bs_field_name f;
                      sa_field_value := bs_field_value f;
                      sa_field_type := bs_field_type f;
                      sa_source := bs_source f;
                      sa_updated_at := bs_updated_at f |}
           ∧ head (order_desc (fun r => cv_created_at (snd r))
                     (List.filter
                        (fun r => String.eqb (bs_field_name (fst r)) (sa_field_name row))
                        (fields_until owner T s))) = Some (f, v).
Proof.
  unfold get_business_state_at. rewrite in_flat_map. split.
  - intros [name [_ Hin]].
    pose proof (order_desc_head (fun r : BusinessStateField * ContextVersion =>
                                   cv_created_at (snd r))
                  (List.filter (fun r => String.eqb (bs_field_name (fst r)) name)
                     (fields_until owner T s))) as Hhead.
    destruct (order_desc _ _) as [| [f v] rest] eqn:Ho; [destruct Hin |].
    destruct Hin as [<- | []]. destruct Hhead as [Hfv _].
    apply filter_In in Hfv as [Hfv E]. apply String.eqb_eq in E. simpl in E.
    exists f, v. simpl. rewrite E, Ho. repeat split; assumption || reflexivity.
  - intros [f [v [Hfv [-> Hhead]]]]. simpl in Hhead. exists (bs_field_name f). split.
    + apply js_sort_In, nodup_In, in_map_iff. exists (f, v). split; [reflexivity | exact Hfv].
    + destruct (order_desc _ _) as [| r rest]; [discriminate |].
      injection Hhead as ->. left. reflexivity.
Qed.

Lemma fields_until_latest (owner : string) (T : Z) (s : Store) (V : ContextVersion)
    (rest : list ContextVersion) (n : string) (f : BusinessStateField) (v : ContextVersion) :
  store_ok s → distinct_times owner s → fields_never_dropped owner s →
  order_created_at_desc (versions_until owner T s) = V :: rest →
  head (order_desc (fun r => cv_created_at (snd r))
          (List.filter (fun r => String.eqb (bs_field_name (fst r)) n)
             (fields_until owner T s))) = Some (f, v) →
  state_of (cv_id V) s !! n = Some f.
Proof.
  intros Hok Htimes Hkept HV Hhead.
  pose proof (order_head (versions_until owner T s)) as HVmax. rewrite HV in HVmax.
  destruct HVmax as [HVin HVmax]. apply versions_until_In in HVin as [HVs [HVo HVT]].
  pose proof (order_desc_head (fun r : BusinessStateField * ContextVersion =>
                                 cv_created_at (snd r))
                (List.filter (fun r => String.eqb (bs_field_name (fst r)) n)
                   (fields_until owner T s))) as Hmax.
  destruct (order_desc _ _) as [| r tl]; [discriminate |]. injection Hhead as ->.
  destruct Hmax as [Hfv Hmax]. apply filter_In in Hfv as [Hfv Hn].
  apply String.eqb_eq in Hn. simpl in Hn.
  apply fields_until_In in Hfv as [Hf [Hv [Hfk [Hvo HvT]]]].
  assert (cv_created_at v ≤ cv_created_at V)%Z as Hle.
  { apply HVmax, versions_until_In. tauto. }
  assert (In n (names_of (cv_id V) s)) as HnV.
  { apply (Hkept v V Hv HVs Hvo HVo Hle). unfold names_of. apply in_map_iff.
    exists f. split; [exact Hn |]. apply fields_of_In. tauto. }
  unfold names_of in HnV. apply in_map_iff in HnV as [g [Hgn Hg]].
  apply fields_of_In in Hg as [Hg Hgfk].
  assert (cv_created_at V ≤ cv_created_at v)%Z as Hge.
  { apply (Hmax (g, V)). apply filter_In. split.
    - apply fields_until_In. tauto.
    - apply String.eqb_eq. exact Hgn. }
  assert (cv_id v = cv_id V) as Hid by (apply Htimes; [assumption .. | lia]).
  apply state_of_lookup; [exact Hok |]. rewrite <- Hid. tauto.
Qed.

(** X15 (the schema function [get_business_state_at] and
    [getStateAtTime]).  In a store that satisfies the key constraints,
    where the owner's versions have pairwise distinct creation times and no
    version of the owner lacks a field that an older version of the owner
    holds, [getStateAtTime] returns.  For every field name other than
    [__proto__], [get_business_state_at] for the same owner and time has a
    row of that name with a given value, type, source and update time
    exactly when the state returned has a field of that name with this
    value, type, source and update time.  The state returned has no field
    named [__proto__] (the function may have such a row), and the function
    has no row when [getStateAtTime] returns null. *)
Theorem get_business_state_at_agrees (owner : string) (T : Z) (s : Store) :
  store_ok s → distinct_times owner s → fields_never_dropped owner s →
  ∃ r, getStateAtTime owner T s = (s, inr r)
       ∧ (∀ n e, n ≠ "__proto__" →
             In {| sa_field_name := n;
                   sa_field_value := se_value e;
                   sa_field_type := se_type e;
                   sa_source := se_source e;
                   sa_updated_at := se_updated_at e |}
                (get_business_state_at owner T s)
             ↔ ∃ state, r = Some state ∧ st_fields state !! n = Some e)
       ∧ (∀ state, r = Some state → st_fields state !! "__proto__" = None)
       ∧ (r = None → get_business_state_at owner T s = []).
Proof.
  intros Hok Htimes Hkept. rewrite getStateAtTime_eq. eexists. split; [reflexivity |].
  pose proof (order_head (versions_until owner T s)) as HVmax.
  destruct (order_created_at_desc (versions_until owner T s)) as [| V rest] eqn:HV.
  - assert (Hnone : ∀ row, ¬ In row (get_business_state_at owner T s)).
    { intros row Hrow. apply get_business_state_at_In in Hrow as [f [v [Hfv _]]].
      apply fields_until_In in Hfv.
      assert (In v (versions_until owner T s)) as Hv by (apply versions_until_In; tauto).
      rewrite HVmax in Hv. destruct Hv. }
    split; [| split].
    + intros n e _. split; [intros Hrow; destruct (Hnone _ Hrow) |].
      intros [state [[=] _]].
    + intros state [=].
    + intros _. destruct (get_business_state_at owner T s) as [| row rows];
        [reflexivity |]. destruct (Hnone row). left. reflexivity.
  - destruct HVmax as [HVin _]. apply versions_until_In in HVin as [HVs [HVo HVT]].
    split; [| split; [| intros [=]]].
    + intros n e Hn. apply String.eqb_neq in Hn. rewrite get_business_state_at_In.
      cbn [sa_field_name]. split.
      * intros [f [v [_ [E Hhead]]]]. eexists. split; [reflexivity |]. cbn [st_fields].
        rewrite shown_fields_rows, Hn.
        rewrite (fields_until_latest owner T s V rest n f v Hok Htimes Hkept HV Hhead).
        injection E as _ E1 E2 E3 E4. destruct e; simpl in *. subst. reflexivity.
      * intros [state [[= <-] Hlook]]. cbn [st_fields] in Hlook.
        rewrite shown_fields_rows, Hn in Hlook.
        destruct (state_of (cv_id V) s !! n) as [g |] eqn:Hg; [| discriminate].
        injection Hlook as <-.
        pose proof Hg as Hg'.
        apply state_of_lookup in Hg' as [Hgs [Hgfk Hgn]]; [| exact Hok].
        pose proof (order_desc_head (fun r : BusinessStateField * ContextVersion =>
                                       cv_created_at (snd r))
                      (List.filter (fun r => String.eqb (bs_field_name (fst r)) n)
                         (fields_until owner T s))) as Hmax.
        destruct (order_desc _ _) as [| [f v] tl] eqn:Ho.
        -- assert (In (g, V) (List.filter
                      (fun r : BusinessStateField * ContextVersion =>
                         String.eqb (bs_field_name (fst r)) n) (fields_until owner T s)))
             as Hin.
           { apply filter_In. split; [apply fields_until_In; tauto |].
             apply String.eqb_eq. exact Hgn. }
           rewrite Hmax in Hin. destruct Hin.
        -- assert (state_of (cv_id V) s !! n = Some f) as Hf.
           { apply (fields_until_latest owner T s V rest n f v Hok Htimes Hkept HV).
             rewrite Ho. reflexivity. }
           assert (f = g) as -> by congruence.
           destruct Hmax as [Hfv _]. apply filter_In in Hfv as [Hfv _].
           exists g, v. simpl. rewrite Hgn. repeat split; assumption || reflexivity.
    + intros state [= <-]. cbn [st_fields]. rewrite shown_fields_rows. reflexivity.
Qed.

(** A version that stores a field named [__proto__]: the schema function
    returns its row, the engine's state has no such field. *)
Example get_business_state_at_proto_row :
  ∃ s r state,
    store_ok s ∧ distinct_times "u" s ∧ fields_never_dropped "u" s
    ∧ List.map sa_field_name (get_business_state_at "u" 10 s) = ["__proto__"; "a"]
    ∧ getStateAtTime "u" 10 s = (s, inr r) ∧ r = Some state
    ∧ List.map fst (map_to_list (st_fields state)) = ["a"].
Proof.
  exists {| context_versions :=
              [{| cv_id := "v1"; cv_user_id := "u"; cv_version_hash := "h";
                  cv_commit_message := "m"; cv_created_at := 5; cv_is_current := true;
                  cv_parent_version_id := None; cv_author := "u"; cv_tags := [] |}];
            business_state :=
              [{| bs_version_id := "v1"; bs_field_name := "a"; bs_field_value := JNum 1;
                  bs_field_type := FT_number; bs_source := manual; bs_updated_at := 5 |};
               {| bs_version_id := "v1"; bs_field_name := "__proto__";
                  bs_field_value := JNum 2; bs_field_type := FT_number;
                  bs_source := manual; bs_updated_at := 5 |}];
            context_changes := [] |}.
  eexists _, _. split; [| split; [| split; [| split; [| split; [| split]]]]].
  - split.
    + intros f Hf. simpl in Hf. destruct Hf as [<- | [<- | []]]; reflexivity.
    + apply NoDup_cons_In. split; [simpl; intros [H | []]; discriminate H |].
      apply NoDup_cons_In. split; [intros [] | constructor].
  - intros v w Hv Hw _ _ _. destruct Hv as [<- | []], Hw as [<- | []]. reflexivity.
  - intros v w Hv Hw _ _ _ n Hn. destruct Hv as [<- | []], Hw as [<- | []]. exact Hn.
  - vm_compute. reflexivity.
  - vm_compute. reflexivity.
  - reflexivity.
  - vm_compute. reflexivity.
Qed.

(** ** Successful histories keep every field *)

Section CommitKeepsFields.
Variables (env : Env) (request : CommitRequest) (s s' : Store) (v : ContextVersion).
Hypothesis Hok : store_ok s.
Hypothesis Hsingle : single_current (context_versions s).
Hypothesis Hclock : clock_ahead env s.
Hypothesis Hcommit : commit (cr_user_id request) env request s = (s', inr v).

Lemma committed_rows (w' : ContextVersion) :
  In w' (context_versions s') →
  w' = v ∨ ∃ w, In w (context_versions s) ∧ same_commit w w'.
Proof.
  destruct (commit_inr _ _ _ _ _ _ Hcommit) as [Hins [-> ->]]. simpl.
  rewrite in_app_iff. intros [Hw | [<- | []]]; [right | left; reflexivity].
  apply enforce_rows in Hw; [| reflexivity].
  destruct Hw as [w [Hw [-> | [-> _]]]]; exists w; (split; [exact Hw | repeat split]).
Qed.

Lemma committed_id : cv_id v = db_uuid env ∧ cv_created_at v = db_now env
                     ∧ cv_user_id v = cr_user_id request.
Proof. destruct (commit_inr _ _ _ _ _ _ Hcommit) as [_ [_ ->]]. repeat split. Qed.

Lemma committed_old_id (w : ContextVersion) :
  In w (context_versions s) → cv_id w ≠ db_uuid env.
Proof.
  intros Hw E. destruct (commit_inr _ _ _ _ _ _ Hcommit) as [Hins _].
  apply insertable_fresh in Hins. simpl in Hins.
  assert (has_version (db_uuid env) (context_versions s) = true); [| congruence].
  apply has_version_In. eauto.
Qed.

Lemma committed_names_old (w : ContextVersion) :
  In w (context_versions s) → names_of (cv_id w) s' = names_of (cv_id w) s.
Proof.
  intros Hw. destruct (commit_inr _ _ _ _ _ _ Hcommit) as [_ [E _]]. rewrite E.
  unfold names_of. rewrite fields_of_committed_other; [reflexivity |].
  apply committed_old_id, Hw.
Qed.

Lemma committed_names_new (cur : ContextVersion) (n : string) :
  current_of (cr_user_id request) s = Some cur →
  In n (names_of (cv_id cur) s) → In n (names_of (db_uuid env) s').
Proof.
  intros Hcur Hn. destruct (commit_inr _ _ _ _ _ _ Hcommit) as [Hins [-> _]].
  apply insertable_fresh in Hins. simpl in Hins.
  unfold names_of in *. rewrite (fields_of_committed _ _ _ _ Hok Hins).
  apply in_map_iff in Hn as [f [<- Hf]].
  destruct (in_dec string_dec (bs_field_name f) (List.map fu_field_name (cr_changes request)))
    as [Hin | Hout].
  - apply in_map_iff in Hin as [c [E Hc]]. apply in_map_iff.
    exists (state_record (db_uuid env) (js_now env) c). split; [exact E |].
    apply new_state_records_In. left. exists c. split; [exact Hc | reflexivity].
  - apply in_map_iff. exists (copy_field (db_uuid env) f). split; [reflexivity |].
    apply new_state_records_In. right. exists cur, f. repeat split; assumption.
Qed.

Lemma commit_keeps_fields (owner : string) :
  current_is_latest s → fields_never_dropped owner s → fields_never_dropped owner s'.
Proof.
  intros Hlatest Hkept a' b' Ha' Hb' Hau Hbu Hle n Hn.
  destruct committed_id as [Hid [Hnow Hu]].
  destruct (committed_rows a' Ha') as [-> | [a [Ha Hsa]]];
    destruct (committed_rows b' Hb') as [-> | [b [Hb Hsb]]].
  - exact Hn.
  - destruct Hsb as [_ [_ [_ [_ [Et _]]]]]. specialize (Hclock b Hb). lia.
  - destruct Hsa as [Eid [Eu [_ [_ [Et _]]]]].
    rewrite <- Eid, committed_names_old in Hn by exact Ha. rewrite Hid.
    destruct (Hsingle (cr_user_id request)) as [Hnone | Hone].
    { exfalso. apply (Hnone a Ha). congruence. }
    fold (currents (cr_user_id request) s) in Hone.
    destruct (currents (cr_user_id request) s) as [| cur [| ? ?]] eqn:Hcurs;
      try discriminate.
    pose proof (current_of_currents _ _ _ Hcurs) as Hcur.
    assert (In cur (currents (cr_user_id request) s)) as Hin by (rewrite Hcurs; left; reflexivity).
    apply filter_In in Hin as [Hin Hc]. unfold is_current_of in Hc.
    apply andb_true_iff in Hc as [Hcu _]. apply String.eqb_eq in Hcu.
    apply (committed_names_new cur n Hcur).
    apply (Hkept a cur Ha Hin); [congruence | congruence | | exact Hn].
    apply (Hlatest _ cur Hcur a Ha). congruence.
  - destruct Hsa as [Eida [Eua [_ [_ [Eta _]]]]]. destruct Hsb as [Eidb [Eub [_ [_ [Etb _]]]]].
    rewrite <- Eida, committed_names_old in Hn by exact Ha.
    rewrite <- Eidb, committed_names_old by exact Hb.
    apply (Hkept a b Ha Hb); [congruence | congruence | lia | exact Hn].
Qed.

Lemma commit_keeps_latest : current_is_latest s → current_is_latest s'.
Proof.
  intros Hlatest owner cur' Hcur' w' Hw' Hwu.
  destruct committed_id as [Hid [Hnow Hu]].
  destruct (commit_currents _ _ _ _ _ _ Hcommit) as [Hnew [_ [_ [_ Hothers]]]].
  destruct (string_dec owner (cr_user_id request)) as [-> | Hne].
  - rewrite (current_of_currents _ _ _ Hnew) in Hcur'. injection Hcur' as <-.
    destruct (committed_rows w' Hw') as [-> | [w [Hw Hs]]]; [lia |].
    destruct Hs as [_ [_ [_ [_ [Et _]]]]]. specialize (Hclock w Hw). lia.
  - unfold current_of in Hcur'. fold (currents owner s') in Hcur'.
    rewrite (Hothers owner Hne) in Hcur'.
    destruct (committed_rows w' Hw') as [-> | [w [Hw Hs]]]; [congruence |].
    destruct Hs as [_ [Eu [_ [_ [Et _]]]]]. rewrite <- Et.
    apply (Hlatest owner cur' Hcur' w Hw). congruence.
Qed.

Lemma commit_keeps_times (owner : string) : distinct_times owner s → distinct_times owner s'.
Proof.
  intros Htimes a' b' Ha' Hb' Hau Hbu Et.
  destruct committed_id as [Hid [Hnow Hu]].
  destruct (committed_rows a' Ha') as [-> | [a [Ha Hsa]]];
    destruct (committed_rows b' Hb') as [-> | [b [Hb Hsb]]].
  - reflexivity.
  - destruct Hsb as [_ [_ [_ [_ [E _]]]]]. specialize (Hclock b Hb). lia.
  - destruct Hsa as [_ [_ [_ [_ [E _]]]]]. specialize (Hclock a Ha). lia.
  - destruct Hsa as [Eida [Eua [_ [_ [Eta _]]]]]. destruct Hsb as [Eidb [Eub [_ [_ [Etb _]]]]].
    rewrite <- Eida, <- Eidb. apply (Htimes a b Ha Hb); congruence.
Qed.

Lemma commit_keeps_ids : ids_unique s → ids_unique s'.
Proof.
  unfold ids_unique. intros Hids.
  destruct (commit_inr _ _ _ _ _ _ Hcommit) as [Hins [E _]]. rewrite E. simpl.
  rewrite List.map_app, enforce_ids. simpl. apply NoDup_app_In.
  split; [exact Hids |]. split; [| apply NoDup_cons_In; split; [intros [] | constructor]].
  intros i Hi [<- | []]. apply in_map_iff in Hi as [w [Ew Hw]].
  apply (committed_old_id w Hw Ew).
Qed.
End CommitKeepsFields.

Lemma reached_invariants (s : Store) :
  reached s →
  store_ok s ∧ single_current (context_versions s) ∧ current_is_latest s
  ∧ ids_unique s
  ∧ ∀ owner, distinct_times owner s ∧ fields_never_dropped owner s.
Proof.
  assert (Hstep : ∀ s s' env request v,
    (store_ok s ∧ single_current (context_versions s) ∧ current_is_latest s
     ∧ ids_unique s
     ∧ ∀ owner, distinct_times owner s ∧ fields_never_dropped owner s) →
    clock_ahead env s →
    commit (cr_user_id request) env request s = (s', inr v) →
    store_ok s' ∧ single_current (context_versions s') ∧ current_is_latest s'
    ∧ ids_unique s'
    ∧ ∀ owner, distinct_times owner s' ∧ fields_never_dropped owner s').
  { clear s. intros s s' env request v [Hok [Hsingle [Hlatest [Hids Hrest]]]] Hclock Hc.
    assert (s' = fst (commit (cr_user_id request) env request s)) as Hs'
      by (rewrite Hc; reflexivity).
    split; [rewrite Hs'; apply store_ok_commit, Hok |].
    split; [rewrite Hs'; apply single_current_commit, Hsingle |].
    split; [apply (commit_keeps_latest env request s s' v Hclock Hc Hlatest) |].
    split; [apply (commit_keeps_ids env request s s' v Hc Hids) |].
    intros owner. destruct (Hrest owner) as [Htimes Hkept]. split.
    - apply (commit_keeps_times env request s s' v Hclock Hc owner Htimes).
    - apply (commit_keeps_fields env request s s' v Hok Hsingle Hclock Hc owner Hlatest Hkept). }
  induction 1 as [| s s' env request v Hr IH Hclock Hc | s s' env request v Hr IH Hclock Hc].
  - split; [apply store_ok_empty |]. split; [apply single_current_empty |].
    split; [intros owner cur Hcur w [] |]. split; [constructor |].
    intros owner. split; intros a b [].
  - apply (Hstep s s' env request v IH Hclock Hc).
  - rewrite rollback_unfold in Hc.
    destruct (version_by_id (rr_version_id request) s) as [tv |]; [| discriminate].
    apply (Hstep s s' env
             (rollback_request request tv (object_of (rr_version_id request) s)) v IH Hclock Hc).
Qed.

Lemma reached_s2 : reached s2.
Proof.
  apply (reached_commit s1 s2 env2 req2 (new_version "u" env2 req2 s1)).
  - apply (reached_commit empty_store s1 env1 req1 (new_version "u" env1 req1 empty_store)).
    + apply reached_empty.
    + intros w [].
    + vm_compute. reflexivity.
  - intros w Hw. vm_compute in Hw. destruct Hw as [<- | []]. reflexivity.
  - vm_compute. reflexivity.
Qed.

Lemma get_business_state_at_agrees_witness :
  ∃ r, getStateAtTime "u" 1700000050000 s2 = (s2, inr r)
       ∧ (∀ n e, n ≠ "__proto__" →
             In {| sa_field_name := n;
                   sa_field_value := se_value e;
                   sa_field_type := se_type e;
                   sa_source := se_source e;
                   sa_updated_at := se_updated_at e |}
                (get_business_state_at "u" 1700000050000 s2)
             ↔ ∃ state, r = Some state ∧ st_fields state !! n = Some e)
       ∧ (∀ state, r = Some state → st_fields state !! "__proto__" = None)
       ∧ (r = None → get_business_state_at "u" 1700000050000 s2 = []).
Proof.
  destruct (reached_invariants s2 reached_s2) as [Hok [_ [_ [_ Hrest]]]].
  destruct (Hrest "u") as [Htimes Hkept].
  exact (get_business_state_at_agrees "u" 1700000050000 s2 Hok Htimes Hkept).
Defined.

Lemma current_of_owner (owner : string) (s : Store) (cur : ContextVersion) :
  current_of owner s = Some cur → In cur (context_versions s) ∧ cv_user_id cur = owner.
Proof.
  intros H. split; [apply (current_of_In _ _ _ H) |].
  apply single_data_In in H.
  assert (Hin : In cur (List.filter (is_current_of owner) (context_versions s))).
  { rewrite H. left. reflexivity. }
  apply filter_In in Hin as [_ Hc]. unfold is_current_of in Hc.
  apply andb_true_iff in Hc as [Hc _]. apply String.eqb_eq, Hc.
Qed.

(** X16 (fields are never dropped).  In every store reached from the
    empty one by commits and rollbacks that all returned, each made for the
    owner its request names and at a later database time than the versions
    stored so far, the versions of an owner have pairwise distinct creation
    times, a version of an owner holds every field name that an older
    version of that owner holds, and the owner's current version holds
    every field name that any version of that owner holds.  A rollback in
    particular removes no field. *)
Theorem successful_history_never_drops_a_field (s : Store) :
  reached s →
  ∀ owner,
    distinct_times owner s
    ∧ fields_never_dropped owner s
    ∧ ∀ cur w n, current_of owner s = Some cur →
        In w (context_versions s) → cv_user_id w = owner →
        In n (names_of (cv_id w) s) → In n (names_of (cv_id cur) s).
Proof.
  intros Hr owner.
  destruct (reached_invariants s Hr) as [_ [_ [Hlatest [_ Hrest]]]].
  destruct (Hrest owner) as [Htimes Hkept]. split; [exact Htimes |]. split; [exact Hkept |].
  intros cur w n Hcur Hw Hu Hn.
  destruct (current_of_owner owner s cur Hcur) as [Hin Hcu].
  apply (Hkept w cur Hw Hin Hu Hcu); [| exact Hn].
  apply (Hlatest owner cur Hcur w Hw Hu).
Qed.

Lemma successful_history_never_drops_a_field_witness :
  distinct_times "u" s2
  ∧ fields_never_dropped "u" s2
  ∧ ∀ cur w n, current_of "u" s2 = Some cur →
      In w (context_versions s2) → cv_user_id w = "u" →
      In n (names_of (cv_id w) s2) → In n (names_of (cv_id cur) s2).
Proof.
  apply (successful_history_never_drops_a_field s2).
  apply (reached_commit s1 s2 env2 req2 (new_version "u" env2 req2 s1)).
  - apply (reached_commit empty_store s1 env1 req1 (new_version "u" env1 req1 empty_store)).
    + apply reached_empty.
    + intros w [].
    + vm_compute. reflexivity.
  - intros w Hw. vm_compute in Hw. destruct Hw as [<- | []]. reflexivity.
  - vm_compute. reflexivity.
Defined.

(** ** The read routes *)

Lemma get_current_eq (owner : string) (s : Store) :
  missing (Some owner) = false →
  get_current (Some owner) s
  = (s, match current_of owner s with
        | None =>
            Current404 "No context versions found. Create your first commit to get started."
        | Some cv =>
            Current200 {| vi_id := cv_id cv;
                          vi_hash := cv_version_hash cv;
                          vi_message := cv_commit_message cv;
                          vi_created_at := cv_created_at cv;
                          vi_author := cv_author cv;
                          vi_tags := cv_tags cv |}
                       (shown_fields (object_of (cv_id cv) s))
        end).
Proof.
  intros Hm. unfold get_current. rewrite Hm.
  change (default "" (Some owner)) with owner.
  unfold bind at 1. rewrite getCurrentVersion_eq.
  destruct (current_of owner s) as [cv |]; [| reflexivity].
  unfold bind. rewrite getVersionState_eq. reflexivity.
Qed.




Lemma commit_inr_names (userId : string) (env : Env) (request : CommitRequest)
    (s s' : Store) (v : ContextVersion) :
  store_ok s →
  commit userId env request s = (s', inr v) →
  NoDup (List.map fu_field_name (cr_changes request)).
Proof.
  intros Hok Hc. destruct (commit_inr _ _ _ _ _ _ Hc) as [Hins _].
  destruct (decide (NoDup (List.map fu_field_name (cr_changes request)))) as [H | H];
    [exact H |].
  rewrite (commit_rejects_duplicates _ _ _ _ Hok Hins H) in Hc. discriminate.
Qed.

(** X18 (commit and read back).  When [POST /api/context/commit] answers
    201 on a store that satisfies the key constraints, a following
    [GET /api/context/current] for the body's [user_id] answers 200 with
    the id, hash, message and creation time of the 201 response, the
    body's author (or [system]) and tags (or none), and a state that has
    no field named [__proto__] and in which every other field the body
    updates has the value, type and source of its update and the commit's
    timestamp, and every other field is as the same route showed it before
    the commit. *)
Theorem committed_state_is_served (env : Env) (body : CommitBody) (s s' : Store)
    (created : VersionSummary) :
  store_ok s →
  post_commit env body s = (s', Http201 created) →
  ∃ changes state,
    body_changes body = Some changes
    ∧ get_current (body_user_id body) s'
      = (s', Current200 {| vi_id := vs_id created;
                           vi_hash := vs_hash created;
                           vi_message := vs_message created;
                           vi_created_at := vs_created_at created;
                           vi_author := or_string (body_author body) "system";
                           vi_tags := default [] (body_tags body) |}
                        state)
    ∧ ∀ n, state !! n
           = if String.eqb n "__proto__" then None
             else match find (fun c => String.eqb (fu_field_name c) n) changes with
                  | Some c => Some (update_entry env c)
                  | None => shown_state (snd (get_current (body_user_id body) s)) !! n
                  end.
Proof.
  intros Hok Hpost. unfold post_commit in Hpost.
  destruct (body_changes body) as [changes |]; [| discriminate].
  destruct (missing (body_user_id body) || missing (body_commit_message body)) eqn:Hm;
    [discriminate |].
  apply orb_false_iff in Hm as [Hmu _].
  destruct (body_user_id body) as [u |]; [| discriminate].
  change (default "" (Some u)) with u in Hpost. cbn [cr_user_id] in Hpost.
  set (request := {| cr_user_id := u;
                     cr_commit_message := default "" (body_commit_message body);
                     cr_changes := changes;
                     cr_tags := body_tags body;
                     cr_author := body_author body |}) in *.
  destruct (commit u env request s) as [s0 [[msg] | v]] eqn:Hc; [discriminate |].
  injection Hpost as -> <-.
  pose proof (commit_inr_names _ _ _ _ _ _ Hok Hc) as Hnd.
  pose proof (commit_current _ _ _ _ _ _ Hc) as Hcur. cbn [cr_user_id request] in Hcur.
  destruct (commit_inr _ _ _ _ _ _ Hc) as [Hins [Es Ev]].
  pose proof (insertable_fresh _ _ Hins) as Hfresh. simpl in Hfresh.
  exists changes, (shown_fields (object_of (cv_id v) s')). split; [reflexivity |]. split.
  - rewrite (get_current_eq u s' Hmu), Hcur. rewrite Ev. reflexivity.
  - intros n. rewrite shown_fields_rows.
    destruct (String.eqb n "__proto__") eqn:Hn; [reflexivity |].
    rewrite Ev, Es. cbn [cv_id new_version].
    rewrite (committed_state u env request s Hok Hfresh n Hnd). cbn [cr_changes request].
    destruct (find _ changes) as [c |]; [reflexivity |].
    rewrite (get_current_eq u s Hmu). cbn [snd]. unfold previous_state.
    destruct (current_of u s) as [cv |]; cbn [shown_state].
    + rewrite shown_fields_rows, Hn. destruct (state_of (cv_id cv) s !! n); reflexivity.
    + rewrite !lookup_empty. reflexivity.
Qed.

Lemma committed_state_is_served_witness :
  ∃ created,
    post_commit env2
      {| body_user_id := Some "u"; body_commit_message := Some "second";
         body_changes := Some [update "a" (JNum 2) FT_number];
         body_tags := None; body_author := None |} s1
    = (s2, Http201 created)
    ∧ ∃ changes state,
        Some [update "a" (JNum 2) FT_number] = Some changes
        ∧ get_current (Some "u") s2
          = (s2, Current200 {| vi_id := vs_id created;
                               vi_hash := vs_hash created;
                               vi_message := vs_message created;
                               vi_created_at := vs_created_at created;
                               vi_author := "system";
                               vi_tags := [] |}
                            state)
        ∧ ∀ n, state !! n
               = if String.eqb n "__proto__" then None
                 else match find (fun c => String.eqb (fu_field_name c) n) changes with
                      | Some c => Some (update_entry env2 c)
                      | None => shown_state (snd (get_current (Some "u") s1)) !! n
                      end.
Proof.
  assert (H : post_commit env2
                {| body_user_id := Some "u"; body_commit_message := Some "second";
                   body_changes := Some [update "a" (JNum 2) FT_number];
                   body_tags := None; body_author := None |} s1
              = (s2, Http201 {| vs_id := db_uuid env2;
                                vs_hash := cv_version_hash (new_version "u" env2 req2 s1);
                                vs_message := "second";
                                vs_created_at := db_now env2 |})).
  { vm_compute. reflexivity. }
  eexists. split; [exact H |].
  apply (committed_state_is_served env2 _ s1 s2 _ (store_ok_commit "u" env1 req1 _ store_ok_empty) H).
Defined.

(** An update named [__proto__] is stored as a row, and is not served. *)
Example proto_update_not_served :
  ∃ s' created version state,
    post_commit env1
      {| body_user_id := Some "u"; body_commit_message := Some "first";
         body_changes := Some [update "__proto__" (JNum 1) FT_number;
                               update "a" (JNum 2) FT_number];
         body_tags := None; body_author := None |} empty_store
    = (s', Http201 created)
    ∧ List.map bs_field_name (business_state s') = ["__proto__"; "a"]
    ∧ get_current (Some "u") s' = (s', Current200 version state)
    ∧ List.map fst (map_to_list state) = ["a"].
Proof.
  eexists _, _, _, _. split; [| split; [| split]].
  - vm_compute. reflexivity.
  - vm_compute. reflexivity.
  - vm_compute. reflexivity.
  - vm_compute. reflexivity.
Qed.

(** ** The view current_business_state *)

Lemma current_business_state_In (s : Store) (row : CurrentStateRow) :
  In row (current_business_state s)
  ↔ ∃ cv bs, In cv (context_versions s) ∧ cv_is_current cv = true
             ∧ In bs (business_state s) ∧ bs_version_id bs = cv_id cv
             ∧ row = current_state_row cv bs.
Proof.
  unfold current_business_state. rewrite in_flat_map. split.
  - intros [cv [Hcv Hrow]]. apply filter_In in Hcv as [Hcv Hc].
    apply in_map_iff in Hrow as [bs [<- Hbs]]. apply filter_In in Hbs as [Hbs E].
    apply String.eqb_eq in E. exists cv, bs. repeat split; congruence.
  - intros [cv [bs [Hcv [Hc [Hbs [E ->]]]]]]. exists cv. split.
    + apply filter_In. split; assumption.
    + apply in_map, filter_In. split; [exact Hbs |]. apply String.eqb_eq. congruence.
Qed.

(** X19 (the schema view [current_business_state]).  In a store that
    satisfies the key constraints and has at most one current version per
    owner, the rows of the view for a non-empty owner id whose field is not
    named [__proto__] are exactly the fields of the state that
    [GET /api/context/current] answers for that owner, each carrying that
    response's version id, hash, message and creation time.  The state
    answered has no field named [__proto__], whatever rows the view has. *)
Theorem current_view_is_the_served_state (s : Store) (owner : string)
    (row : CurrentStateRow) :
  store_ok s → single_current (context_versions s) → missing (Some owner) = false →
  In row (current_business_state s) ∧ row_user_id row = owner
  ∧ row_field_name row ≠ "__proto__"
  ↔ ∃ version state,
      get_current (Some owner) s = (s, Current200 version state)
      ∧ row_user_id row = owner
      ∧ row_version_id row = vi_id version
      ∧ row_version_hash row = vi_hash version
      ∧ row_commit_message row = vi_message version
      ∧ row_created_at row = vi_created_at version
      ∧ state !! row_field_name row = Some (row_entry row).
Proof.
  intros Hok Hsingle Hm. rewrite (get_current_eq owner s Hm), current_business_state_In.
  split.
  - intros [[cv [bs [Hcv [Hc [Hbs [Hfk ->]]]]]] [Hu Hplain]]. simpl in Hu, Hplain.
    apply String.eqb_neq in Hplain.
    assert (current_of owner s = Some cv) as Hcur.
    { destruct (Hsingle owner) as [Hnone | Hone]; [exfalso; apply (Hnone cv Hcv Hu) |].
      fold (currents owner s) in Hone.
      assert (In cv (currents owner s)) as Hin.
      { apply filter_In. split; [exact Hcv |]. unfold is_current_of.
        rewrite Hc, andb_true_r. apply String.eqb_eq, Hu. }
      apply current_of_currents.
      destruct (currents owner s) as [| c [| ? ?]]; try discriminate.
      destruct Hin as [-> | []]. reflexivity. }
    rewrite Hcur. eexists _, _. split; [reflexivity |]. simpl.
    repeat split; try assumption. rewrite shown_fields_rows, Hplain.
    rewrite (proj2 (state_of_lookup (cv_id cv) s (bs_field_name bs) bs Hok)) by tauto.
    reflexivity.
  - intros [version [state [Hget [Hu [Hid [Hhash [Hmsg [Hat Hn]]]]]]]].
    destruct (current_of owner s) as [cur |] eqn:Hcur; [| discriminate].
    injection Hget as <- <-. simpl in Hid, Hhash, Hmsg, Hat.
    rewrite shown_fields_rows in Hn.
    destruct (String.eqb_spec (row_field_name row) "__proto__") as [| Hplain];
      [discriminate |].
    split; [| split; [exact Hu | exact Hplain]].
    destruct (state_of (cv_id cur) s !! row_field_name row) as [f |] eqn:Hf; [| discriminate].
    injection Hn as Ev Et Es Ea.
    apply state_of_lookup in Hf as [Hfs [Hfk Hfn]]; [| exact Hok].
    pose proof Hcur as Hone. apply single_data_In in Hone.
    assert (In cur (List.filter (is_current_of owner) (context_versions s))) as Hin.
    { rewrite Hone. left. reflexivity. }
    apply filter_In in Hin as [Hin Hc]. unfold is_current_of in Hc.
    apply andb_true_iff in Hc as [Hcu Hc]. apply String.eqb_eq in Hcu.
    exists cur, f. repeat split; try assumption.
    destruct row. simpl in *. unfold current_state_row. congruence.
Qed.

Lemma current_view_is_the_served_state_witness :
  ∃ row,
    (In row (current_business_state s2) ∧ row_user_id row = "u"
     ∧ row_field_name row ≠ "__proto__")
    ∧ ∃ version state,
        get_current (Some "u") s2 = (s2, Current200 version state)
        ∧ row_user_id row = "u"
        ∧ row_version_id row = vi_id version
        ∧ row_version_hash row = vi_hash version
        ∧ row_commit_message row = vi_message version
        ∧ row_created_at row = vi_created_at version
        ∧ state !! row_field_name row = Some (row_entry row).
Proof.
  destruct (reached_invariants s2 reached_s2) as [Hok [Hsingle _]].
  exists (current_state_row (new_version "u" env2 req2 s1)
            (state_record (db_uuid env2) (js_now env2) (update "a" (JNum 2) FT_number))).
  assert (In (current_state_row (new_version "u" env2 req2 s1)
                (state_record (db_uuid env2) (js_now env2) (update "a" (JNum 2) FT_number)))
             (current_business_state s2)
          ∧ row_user_id
              (current_state_row (new_version "u" env2 req2 s1)
                 (state_record (db_uuid env2) (js_now env2)
                    (update "a" (JNum 2) FT_number))) = "u"
          ∧ row_field_name
              (current_state_row (new_version "u" env2 req2 s1)
                 (state_record (db_uuid env2) (js_now env2)
                    (update "a" (JNum 2) FT_number))) ≠ "__proto__") as Hrow.
  { clear. split; [| split; [reflexivity | discriminate]]. vm_compute. left. reflexivity. }
  split; [exact Hrow |].
  apply (proj1 (current_view_is_the_served_state s2 "u" _ Hok Hsingle eq_refl)), Hrow.
Defined.
